(** * Streamdelay: the pipeline state machine and its status broadcast

    A shallow embedding of [src/pipelineMachine.ts] (the xstate v5 machine
    [pipelineMachine] and the callback actor [runPipeline]), of the API
    server of [src/server.ts] (the API key check, the routes, the sockets
    and the snapshot subscriber) and of [src/index.ts] (the check of the
    arguments and [main]).

    The machine is declared in the source as a statechart configuration; it
    is embedded here as the same configuration (state nodes, [on], [always],
    [after], [entry], [exit], [invoke]) together with the statechart
    interpreter that gives it meaning (xstate's [macrostep] / [microstep]
    algorithm, which follows SCXML).  All behaviour proved below is obtained
    by running that interpreter on the configuration. *)

From Stdlib Require Import List ZArith NArith Bool Ascii String Lia.
From Stdlib Require SpecFloat.
Import ListNotations.
Local Open Scope Z_scope.

(** ** types.ts *)

Record AppSettings := {
  width : Z;
  height : Z;
  srtInUri : option string;
  outUri : option string;
  outScript : option string;
  delaySeconds : Z;
  restartSeconds : Z;
  bitrate : Z;
  encoder : string;
  x264Preset : string;
  x264PsyTune : string;
  x264Threads : Z;
  nvencPreset : string;
  pixelizeScale : Z;
  overlayImg : string;
  debug : option bool;
  inPipeline : option string;
  outPipeline : option string
}.

(** ** pipelineMachine.ts: data *)

(** [interface PipelineContext]. [startTime : number | null]. *)
Record PipelineContext := {
  startTime : option Z;
  settings : AppSettings
}.

(** [interface PipelineControlEvent]: what the machine sends to the engine. *)
Inductive PipelineControlEvent := RENDER_NORMAL | RENDER_CENSORED.

(** The state nodes of [createMachine({...})], in document order. *)
Inductive StateNode :=
| pipeline
| censorship | normal | censored | active | deactivating
| stream | stopped | restarting | running | waiting | started | error.

(** Event types: the declared ones, the two delayed events that xstate
    derives from the [after] blocks, and the error event that xstate sends
    to the parent when the invoked actor [pipelineActor] throws. *)
Inductive EventType :=
| START | STOP | CENSOR | UNCENSOR | NORMAL
| PIPELINE_ENDED | PIPELINE_STARTED
| xstate_after_STREAM_DELAY     (* xstate.after.STREAM_DELAY.pipeline.censorship.censored.deactivating *)
| xstate_after_RESTART_DELAY    (* xstate.after.RESTART_DELAY.pipeline.stream.restarting *)
| xstate_error_actor_pipelineActor.

Inductive DelayName := STREAM_DELAY | RESTART_DELAY.

Inductive Guard := isCensored | isNormal.

(** A reference to a spawned [runPipeline] actor.  Every [spawnChild]
    creates a new actor object; the serial number of the creation stands
    for the identity of that object. *)
Definition ActorRef := nat.

Inductive Action :=
| raise (e : EventType)
| raise_after (e : EventType) (d : DelayName)   (* raise(afterEvent, { id, delay }) *)
| cancel (id : EventType)
| assign_startTime_now                          (* assign({ startTime: () => Date.now() }) *)
| assign_startTime_null                         (* assign({ startTime: null }) *)
| sendTo_pipelineActor (c : PipelineControlEvent)
| spawnChild_runPipeline                        (* invoke: { id: 'pipelineActor', src: 'runPipeline' } *)
| stopChild_pipelineActor
| logError.

Record Transition := {
  t_source : StateNode;
  t_target : option StateNode;
  t_guard : option Guard;
  t_actions : list Action;
  t_reenter : bool
}.

Definition goto (src tgt : StateNode) : Transition :=
  {| t_source := src; t_target := Some tgt; t_guard := None;
     t_actions := []; t_reenter := false |}.

(** ** pipelineMachine.ts: the machine configuration *)

Module Config.

Inductive NodeType := parallel | compound (initial : StateNode) | atomic.

Definition type (n : StateNode) : NodeType :=
  match n with
  | pipeline => parallel
  | censorship => compound normal
  | censored => compound active
  | stream => compound stopped
  | running => compound waiting
  | _ => atomic
  end.

Definition parent (n : StateNode) : option StateNode :=
  match n with
  | pipeline => None
  | censorship | stream => Some pipeline
  | normal | censored => Some censorship
  | active | deactivating => Some censored
  | stopped | restarting | running | error => Some stream
  | waiting | started => Some running
  end.

(** [states:], the child state nodes. *)
Definition states (n : StateNode) : list StateNode :=
  match n with
  | pipeline => [censorship; stream]
  | censorship => [normal; censored]
  | censored => [active; deactivating]
  | stream => [stopped; restarting; running; error]
  | running => [waiting; started]
  | _ => []
  end.

Definition order (n : StateNode) : nat :=
  match n with
  | pipeline => 0 | censorship => 1 | normal => 2 | censored => 3
  | active => 4 | deactivating => 5 | stream => 6 | stopped => 7
  | restarting => 8 | running => 9 | waiting => 10 | started => 11
  | error => 12
  end%nat.

(** [on:] blocks, with the [after:] blocks turned into transitions on the
    delayed events as xstate does. *)
Definition on (n : StateNode) (e : EventType) : list Transition :=
  match n, e with
  | normal, CENSOR => [goto normal censored]
  | censored, UNCENSOR => [goto censored deactivating]
  | deactivating, xstate_after_STREAM_DELAY => [goto deactivating normal]
  | stream, START => [goto stream running]
  | stream, STOP => [goto stream stopped]
  | stream, PIPELINE_ENDED => [goto stream restarting]
  | restarting, xstate_after_RESTART_DELAY => [goto restarting running]
  | running, PIPELINE_STARTED => [goto running started]
  | running, START =>
      [{| t_source := running; t_target := None; t_guard := None;
          t_actions := []; t_reenter := false |}]
  | _, _ => []
  end.

Definition always (n : StateNode) : list Transition :=
  match n with
  | started =>
      [{| t_source := started; t_target := None; t_guard := Some isCensored;
          t_actions := [sendTo_pipelineActor RENDER_CENSORED];
          t_reenter := false |};
       {| t_source := started; t_target := None; t_guard := Some isNormal;
          t_actions := [sendTo_pipelineActor RENDER_NORMAL];
          t_reenter := false |}]
  | _ => []
  end.

(** [entry:] actions; an [after:] block adds the delayed raise. *)
Definition entry (n : StateNode) : list Action :=
  match n with
  | normal => [raise NORMAL]
  | censored => [raise CENSOR]
  | deactivating => [raise_after xstate_after_STREAM_DELAY STREAM_DELAY]
  | restarting => [raise_after xstate_after_RESTART_DELAY RESTART_DELAY]
  | started => [assign_startTime_now]
  | error => [logError]
  | _ => []
  end.

(** [exit:] actions; an [after:] block adds the cancellation. *)
Definition exit (n : StateNode) : list Action :=
  match n with
  | deactivating => [cancel xstate_after_STREAM_DELAY]
  | restarting => [cancel xstate_after_RESTART_DELAY]
  | started => [assign_startTime_null]
  | _ => []
  end.

Definition invoke (n : StateNode) : bool :=
  match n with running => true | _ => false end.

(** [delays:]; [context.settings] is an object, hence truthy. *)
Definition delays (d : DelayName) (ctx : PipelineContext) : Z :=
  match d with
  | STREAM_DELAY => 1000 * delaySeconds (settings ctx)
  | RESTART_DELAY => 1000 * restartSeconds (settings ctx)
  end.

End Config.

(** ** The state value *)

Inductive CensoredValue := Active | Deactivating.
Inductive CensorshipValue := Normal | Censored (sub : CensoredValue).
Inductive RunningValue := Waiting | Started.
Inductive StreamValue := Stopped | Restarting | Running (sub : RunningValue) | Error.

(** [snapshot.value]: [{ censorship: ..., stream: ... }]. *)
Record StateValue := {
  censorship_value : CensorshipValue;
  stream_value : StreamValue
}.

Inductive SnapshotStatus := status_active | status_error.

(** A machine snapshot.  [children] is [snapshot.children.pipelineActor].
    [oid] is the identity of the snapshot object: xstate builds every new
    snapshot with [cloneMachineSnapshot], which allocates a new object, and
    hands the old object on when nothing changed. *)
Record MachineSnapshot := {
  value : StateValue;
  context : PipelineContext;
  children : option ActorRef;
  status : SnapshotStatus;
  oid : nat
}.

(** What the actor system is asked to do once the step is over (xstate
    defers these through [actorScope.defer]); [LogError] is the custom
    action [logError]. *)
Inductive Effect :=
| Schedule (id : EventType) (delay : Z)
| Cancel (id : EventType)
| SendTo (target : ActorRef) (c : PipelineControlEvent)
| StartActor (a : ActorRef) (input : AppSettings)
| StopActor (a : ActorRef)
| LogError (e : EventType).

(** ** The statechart interpreter

    The algorithm of xstate v5 ([stateUtils.ts]: [macrostep], [microstep],
    [selectTransitions], [selectEventlessTransitions],
    [removeConflictingTransitions], [computeExitSet], [computeEntrySet],
    [exitStates], [enterStates], [resolveActionsAndContext]), for machines
    without history and final states, which this one is. *)

Module XState.
Import Config.

Definition node_eqb (a b : StateNode) : bool := Nat.eqb (order a) (order b).

Definition NodeSet := list StateNode.

Definition mem (n : StateNode) (s : NodeSet) : bool := existsb (node_eqb n) s.

Definition add (n : StateNode) (s : NodeSet) : NodeSet :=
  if mem n s then s else s ++ [n].

Definition del (n : StateNode) (s : NodeSet) : NodeSet :=
  filter (fun m => negb (node_eqb n m)) s.

Definition opt_node_eqb (a : option StateNode) (b : StateNode) : bool :=
  match a with Some a' => node_eqb a' b | None => false end.

(** [getProperAncestors(stateNode, toStateNode)]. *)
Fixpoint ancestors_upto (fuel : nat) (m : option StateNode) (to : option StateNode)
  : list StateNode :=
  match fuel, m with
  | S f, Some m' =>
      if opt_node_eqb to m' then [] else m' :: ancestors_upto f (parent m') to
  | _, _ => []
  end.

Definition depth_bound : nat := 13.

Definition getProperAncestors (n : StateNode) (to : option StateNode) : list StateNode :=
  if opt_node_eqb to n then [] else ancestors_upto depth_bound (parent n) to.

(** [isDescendant(child, parent)]: [p] is a proper ancestor of [c]. *)
Definition isDescendant (c p : StateNode) : bool := mem p (getProperAncestors c None).

Definition isAtomicStateNode (n : StateNode) : bool :=
  match type n with atomic => true | _ => false end.

(** The active state nodes [snapshot._nodes] of a state value. *)
Definition nodes_of (v : StateValue) : NodeSet :=
  [pipeline; censorship]
  ++ match censorship_value v with
     | Normal => [normal]
     | Censored Active => [censored; active]
     | Censored Deactivating => [censored; deactivating]
     end
  ++ [stream]
  ++ match stream_value v with
     | Stopped => [stopped]
     | Restarting => [restarting]
     | Running Waiting => [running; waiting]
     | Running Started => [running; started]
     | Error => [error]
     end.

(** [getStateValue(root, nodes)]. *)
Definition getStateValue (s : NodeSet) : StateValue :=
  {| censorship_value :=
       if mem censored s
       then Censored (if mem deactivating s then Deactivating else Active)
       else Normal;
     stream_value :=
       if mem running s then Running (if mem started s then Started else Waiting)
       else if mem restarting s then Restarting
       else if mem error s then Error
       else Stopped |}.

(** [stateIn('#pipeline.censorship.censored')] and
    [stateIn('#pipeline.censorship.normal')]. *)
Definition evaluateGuard (g : Guard) (s : MachineSnapshot) : bool :=
  match g with
  | isCensored => mem censored (nodes_of (value s))
  | isNormal => mem normal (nodes_of (value s))
  end.

Definition guardPassed (s : MachineSnapshot) (t : Transition) : bool :=
  match t_guard t with None => true | Some g => evaluateGuard g s end.

(** [stateNode.next(snapshot, event)]: the first candidate whose guard passes. *)
Definition next (s : MachineSnapshot) (candidates : list Transition) : option Transition :=
  find (guardPassed s) candidates.

(** The first state node, from an atomic state up to the root, that has an
    enabled transition. *)
Fixpoint first_enabled (s : MachineSnapshot) (cands : StateNode -> list Transition)
  (path : list StateNode) : list Transition :=
  match path with
  | [] => []
  | n :: rest =>
      match next s (cands n) with
      | Some t => [t]
      | None => first_enabled s cands rest
      end
  end.

(** A set of transitions holds each transition once; within one selection
    a transition is identified by its source (a state node contributes at
    most its first enabled transition). *)
Fixpoint dedupe (seen : NodeSet) (ts : list Transition) : list Transition :=
  match ts with
  | [] => []
  | t :: rest =>
      if mem (t_source t) seen then dedupe seen rest
      else t :: dedupe (t_source t :: seen) rest
  end.

(** The enabled transitions: for every active atomic state node, the one
    of the deepest state node on its path to the root that has one. *)
Definition select (s : MachineSnapshot) (cands : StateNode -> list Transition)
  : list Transition :=
  dedupe []
    (flat_map (fun n => first_enabled s cands (n :: getProperAncestors n None))
       (filter isAtomicStateNode (nodes_of (value s)))).

(** [getTransitionDomain]. *)
Definition findLeastCommonAncestor (head : StateNode) (tail : list StateNode)
  : option StateNode :=
  find (fun anc => forallb (fun sn => isDescendant sn anc) tail)
       (getProperAncestors head None).

Definition getTransitionDomain (t : Transition) : option StateNode :=
  match t_target t with
  | None => None
  | Some tgt =>
      if negb (t_reenter t)
         && (node_eqb tgt (t_source t) || isDescendant tgt (t_source t))
      then Some (t_source t)
      else match findLeastCommonAncestor tgt [t_source t] with
           | Some lca => Some lca
           | None => if t_reenter t then None else Some pipeline
           end
  end.

(** [computeExitSet]. *)
Definition computeExitSet (ts : list Transition) (nodes : NodeSet) : NodeSet :=
  fold_left
    (fun acc t =>
       match t_target t, getTransitionDomain t with
       | Some _, Some domain =>
           let acc :=
             if t_reenter t && node_eqb (t_source t) domain then add domain acc else acc in
           fold_left (fun acc n => if isDescendant n domain then add n acc else acc)
                     nodes acc
       | _, _ => acc
       end)
    ts [].

Definition hasIntersection (a b : NodeSet) : bool := existsb (fun n => mem n b) a.

Definition source_eqb (a b : Transition) : bool := node_eqb (t_source a) (t_source b).

(** [removeConflictingTransitions]. *)
Definition removeConflictingTransitions (enabled : list Transition) (nodes : NodeSet)
  : list Transition :=
  fold_left
    (fun filtered t1 =>
       let conflicting :=
         filter (fun t2 => hasIntersection (computeExitSet [t1] nodes)
                                           (computeExitSet [t2] nodes)) filtered in
       if forallb (fun t2 => isDescendant (t_source t1) (t_source t2)) conflicting
       then filter (fun t3 => negb (existsb (source_eqb t3) conflicting)) filtered ++ [t1]
       else filtered)
    enabled [].

(** [addDescendantStatesToEnter] and [addAncestorStatesToEnter]; the
    recursion follows the tree of state nodes, whose depth bounds it. *)
Fixpoint addDescendantStatesToEnter (fuel : nat) (n : StateNode) (acc : NodeSet)
  {struct fuel} : NodeSet :=
  match fuel with
  | O => acc
  | S f =>
      let enterChildren (p : StateNode) (acc : NodeSet) :=
        fold_left
          (fun acc child =>
             if existsb (fun s => isDescendant s child) acc then acc
             else addDescendantStatesToEnter f child (add child acc))
          (states p) acc in
      let enterAncestors (ancs : list StateNode) (acc : NodeSet) :=
        fold_left
          (fun acc anc =>
             let acc := add anc acc in
             match type anc with
             | parallel => enterChildren anc acc
             | _ => acc
             end)
          ancs acc in
      match type n with
      | compound initial =>
          enterAncestors (getProperAncestors initial (Some n))
            (addDescendantStatesToEnter f initial (add initial acc))
      | parallel => enterChildren n acc
      | atomic => acc
      end
  end.

Definition addAncestorStatesToEnter (ancs : list StateNode)
  (reentrancyDomain : option StateNode) (acc : NodeSet) : NodeSet :=
  fold_left
    (fun acc anc =>
       let acc :=
         match reentrancyDomain with
         | None => add anc acc
         | Some d => if isDescendant anc d then add anc acc else acc
         end in
       match type anc with
       | parallel =>
           fold_left
             (fun acc child =>
                if existsb (fun s => isDescendant s child) acc then acc
                else addDescendantStatesToEnter depth_bound child (add child acc))
             (states anc) acc
       | _ => acc
       end)
    ancs acc.

(** [computeEntrySet]. *)
Definition computeEntrySet (ts : list Transition) : NodeSet :=
  fold_left
    (fun acc t =>
       match t_target t with
       | None => acc
       | Some s =>
           let domain := getTransitionDomain t in
           let acc :=
             if negb (node_eqb (t_source t) s)
                || negb (opt_node_eqb domain (t_source t))
                || t_reenter t
             then add s acc else acc in
           let acc := addDescendantStatesToEnter depth_bound s acc in
           let ancs :=
             getProperAncestors s domain
             ++ match domain with
                | Some d => match type d with parallel => [d] | _ => [] end
                | None => []
                end in
           let isRoot := match parent (t_source t) with None => true | _ => false end in
           addAncestorStatesToEnter ancs
             (if isRoot && t_reenter t then None else domain) acc
       end)
    ts [].

Fixpoint insert_by_order (n : StateNode) (l : list StateNode) : list StateNode :=
  match l with
  | [] => [n]
  | m :: rest =>
      if Nat.leb (order n) (order m) then n :: l else m :: insert_by_order n rest
  end.

(** [sort((a, b) => a.order - b.order)]. *)
Definition sort_by_order (l : list StateNode) : list StateNode :=
  fold_right insert_by_order [] l.

(** The interpreter's state while one event is processed: the intermediate
    snapshot, the internal queue of raised events, the deferred effects, the
    serial number of the next actor object, whether an action threw, and
    the number of snapshot objects allocated so far (two intermediate
    snapshots are the same object exactly when none was allocated in
    between). *)
Record Interp := {
  snap : MachineSnapshot;
  internalQueue : list EventType;
  deferred : list Effect;
  nextRef : ActorRef;
  thrown : bool;
  allocated : nat
}.

(** [cloneMachineSnapshot]: a new snapshot object. *)
Definition cloneMachineSnapshot (s : MachineSnapshot) (v : StateValue)
  (c : PipelineContext) (ch : option ActorRef) (st : SnapshotStatus) : MachineSnapshot :=
  {| value := v; context := c; children := ch; status := st; oid := S (oid s) |}.

(** The intermediate snapshot becomes a clone with the given fields. *)
Definition clone_snap (st : Interp) (v : StateValue) (c : PipelineContext)
  (ch : option ActorRef) : Interp :=
  {| snap := cloneMachineSnapshot (snap st) v c ch (status (snap st));
     internalQueue := internalQueue st; deferred := deferred st;
     nextRef := nextRef st; thrown := thrown st; allocated := S (allocated st) |}.

Definition defer (st : Interp) (e : Effect) : Interp :=
  {| snap := snap st; internalQueue := internalQueue st;
     deferred := deferred st ++ [e]; nextRef := nextRef st; thrown := thrown st;
     allocated := allocated st |}.

(** The [resolve] function of each action ([resolveRaise], [resolveCancel],
    [resolveAssign], [resolveSendTo], [resolveSpawn], [resolveStop]);
    [now] is what [Date.now()] returns, [ev] the event being processed.
    [assign], [spawnChild] and [stopChild] return a clone of the snapshot,
    the others the snapshot they were given.  [sendTo] throws when the
    machine has no child [pipelineActor]. *)
Definition resolveAction (now : Z) (ev : EventType) (st : Interp) (a : Action) : Interp :=
  if thrown st then st else
  let s := snap st in
  match a with
  | raise e =>
      {| snap := s; internalQueue := internalQueue st ++ [e];
         deferred := deferred st; nextRef := nextRef st; thrown := false;
         allocated := allocated st |}
  | raise_after e d => defer st (Schedule e (delays d (context s)))
  | cancel id => defer st (Cancel id)
  | assign_startTime_now =>
      clone_snap st (value s)
        {| startTime := Some now; settings := settings (context s) |} (children s)
  | assign_startTime_null =>
      clone_snap st (value s)
        {| startTime := None; settings := settings (context s) |} (children s)
  | sendTo_pipelineActor c =>
      match children s with
      | Some r => defer st (SendTo r c)
      | None =>
          {| snap := s; internalQueue := internalQueue st; deferred := deferred st;
             nextRef := nextRef st; thrown := true; allocated := allocated st |}
      end
  | spawnChild_runPipeline =>
      let r := nextRef st in
      let st' := defer (clone_snap st (value s) (context s) (Some r))
                       (StartActor r (settings (context s))) in
      {| snap := snap st'; internalQueue := internalQueue st'; deferred := deferred st';
         nextRef := S r; thrown := false; allocated := allocated st' |}
  | stopChild_pipelineActor =>
      match children s with
      | Some r => defer (clone_snap st (value s) (context s) None) (StopActor r)
      | None => clone_snap st (value s) (context s) None
      end
  | logError => defer st (LogError ev)
  end.

Definition resolveActionsAndContext (now : Z) (ev : EventType) (st : Interp)
  (actions : list Action) : Interp :=
  fold_left (resolveAction now ev) actions st.

(** [exitStates]: innermost first; exit actions, then the invoked actor is
    stopped. *)
Definition exitStates (now : Z) (ev : EventType) (ts : list Transition)
  (st : Interp) (nodes : NodeSet) : Interp * NodeSet :=
  fold_left
    (fun '(st, nodes) n =>
       (resolveActionsAndContext now ev st
          (exit n ++ if invoke n then [stopChild_pipelineActor] else []),
        del n nodes))
    (rev (sort_by_order (computeExitSet ts nodes)))
    (st, nodes).

(** [enterStates]: outermost first; entry actions, then the invoked actor
    is spawned. *)
Definition enterStates (now : Z) (ev : EventType) (ts : list Transition)
  (st : Interp) (nodes : NodeSet) : Interp * NodeSet :=
  fold_left
    (fun '(st, nodes) n =>
       (resolveActionsAndContext now ev st
          (entry n ++ if invoke n then [spawnChild_runPipeline] else []),
        add n nodes))
    (sort_by_order (computeEntrySet ts))
    (st, nodes).

Definition areStateNodeCollectionsEqual (a b : NodeSet) : bool :=
  Nat.eqb (List.length a) (List.length b) && forallb (fun n => mem n b) a.

(** [microstep]. *)
Definition microstep (now : Z) (ts : list Transition) (ev : EventType) (st : Interp)
  : Interp :=
  match ts with
  | [] => st
  | _ =>
      let nodes := nodes_of (value (snap st)) in
      let filtered := removeConflictingTransitions ts nodes in
      let '(st1, nodes1) := exitStates now ev filtered st nodes in
      let st2 := resolveActionsAndContext now ev st1 (flat_map t_actions filtered) in
      let '(st3, nodes3) := enterStates now ev filtered st2 nodes1 in
      if areStateNodeCollectionsEqual nodes nodes3 then st3
      else
        let s := snap st3 in
        clone_snap st3 (getStateValue nodes3) (context s) (children s)
  end.

Definition selectTransitions (ev : EventType) (s : MachineSnapshot) : list Transition :=
  select s (fun n => on n ev).

Definition selectEventlessTransitions (s : MachineSnapshot) : list Transition :=
  removeConflictingTransitions (select s always) (nodes_of (value s)).

(** The loop of [macrostep]: eventless transitions are selected after every
    processed event, and again after an eventless microstep unless that
    microstep returned the very same snapshot object; then the next raised
    event is taken from the internal queue.  The loop runs while the
    snapshot is active. [None]: out of fuel. *)
Fixpoint macrostep_loop (fuel : nat) (now : Z) (shouldSelectEventless : bool)
  (nextEvent : EventType) (st : Interp) : option Interp :=
  match fuel with
  | O => None
  | S f =>
      if thrown st then Some st else
      match status (snap st) with
      | status_error => Some st
      | status_active =>
      let enabled :=
        if shouldSelectEventless then selectEventlessTransitions (snap st) else [] in
      match enabled with
      | _ :: _ =>
          let st' := microstep now enabled nextEvent st in
          macrostep_loop f now (negb (Nat.eqb (allocated st') (allocated st)))
            nextEvent st'
      | [] =>
          match internalQueue st with
          | [] => Some st
          | ev :: q =>
              let st0 := {| snap := snap st; internalQueue := q; deferred := deferred st;
                            nextRef := nextRef st; thrown := thrown st;
                            allocated := allocated st |} in
              macrostep_loop f now true ev
                (microstep now (selectTransitions ev (snap st0)) ev st0)
          end
      end
      end
  end.

Definition isErrorActorEvent (ev : EventType) : bool :=
  match ev with xstate_error_actor_pipelineActor => true | _ => false end.

Definition macrostep_fuel : nat := 16.

(** The outcome of processing one event: the next snapshot, the deferred
    effects in the order they were issued, and the next actor serial. *)
Record Outcome := {
  o_snapshot : MachineSnapshot;
  o_effects : list Effect;
  o_nextRef : ActorRef
}.

(** [machine.transition(snapshot, event)], that is [macrostep].  An error
    event of the invoked actor that no transition handles puts the machine
    itself in status [error]; so does an action that throws (the actor then
    keeps the snapshot it had and discards the deferred effects). *)
Definition macrostep (now : Z) (fresh : ActorRef) (s : MachineSnapshot) (ev : EventType)
  : option Outcome :=
  let failed :=
    {| o_snapshot := cloneMachineSnapshot s (value s) (context s) (children s) status_error;
       o_effects := []; o_nextRef := fresh |} in
  let ts := selectTransitions ev s in
  if isErrorActorEvent ev && (match ts with [] => true | _ => false end)
  then Some failed
  else
    let st0 := {| snap := s; internalQueue := []; deferred := [];
                  nextRef := fresh; thrown := false; allocated := 0 |} in
    match macrostep_loop macrostep_fuel now true ev (microstep now ts ev st0) with
    | None => None
    | Some st =>
        if thrown st then Some failed
        else Some {| o_snapshot := snap st; o_effects := deferred st;
                     o_nextRef := nextRef st |}
    end.

End XState.

(** ** pipelineMachine.ts: the actor [runPipeline] *)

(** JavaScript truthiness of an optional string. *)
Definition truthy (o : option string) : bool :=
  match o with
  | Some s => negb (String.eqb s EmptyString)
  | None => false
  end.

Definition startsWith (s : string) (p : string) : bool := String.prefix p s.

Inductive Constructed := Playing | Throws (message : string).

(** The synchronous part of the callback given to [fromCallback], as far
    as this program decides it: the checks of the output and of the
    encoder, which throw on settings the callback cannot build a pipeline
    from ([Throws]); past them ([Playing]) the callback hands the pipeline
    string to GStreamer, watches its bus and plays it.  What GStreamer
    makes of the string is not decided here. *)
Definition runPipeline (s : AppSettings) : Constructed :=
  let uri := match outUri s with Some u => u | None => EmptyString end in
  let outPipelineError :=
    if negb (truthy (outPipeline s)) then
      if negb (truthy (outUri s)) then Some "Missing outUri"%string
      else if startsWith uri "rtmp://" then None
      else if startsWith uri "srt://" then None
      else Some ("Unexpected output stream protocol: " ++ uri)%string
    else None in
  match outPipelineError with
  | Some message => Throws message
  | None =>
      if String.eqb (encoder s) "none" then Playing
      else if String.eqb (encoder s) "x264" then Playing
      else if String.eqb (encoder s) "nvenc" then Playing
      else Throws ("Unexpected encoder: " ++ encoder s)
  end.

(** ** pipelineMachine.ts: what [runPipeline] builds *)

(** [gstEscape(str)]: [str.replace(/\\/g, '\\\\')], every backslash (the
    character of code 92) doubled. *)
Definition backslash : ascii := ascii_of_nat 92.

Fixpoint gstEscape (str : string) : string :=
  match str with
  | EmptyString => EmptyString
  | String c rest =>
      if Ascii.eqb c backslash then String backslash (String backslash (gstEscape rest))
      else String c (gstEscape rest)
  end.

(** [const SEC = 1e9]; [delayNs = delaySeconds * SEC] is the
    [min-threshold-time] that the engine sets on its delay queues when the
    stream starts. *)
Definition SEC : Z := 1000000000.

Definition delayNs (s : AppSettings) : Z := delaySeconds s * SEC.

(** A JavaScript string as its UTF-16 code units, where the code looks at
    character classes, lengths or bytes. *)
Definition JSString := list N.

Definition LF : N := 10%N.
Definition HASH : N := 35%N.

(** The character class [\s] of a JavaScript regular expression: the white
    space and line terminator code units. *)
Definition is_space (c : N) : bool :=
  (((9 <=? c) && (c <=? 13)) || (c =? 32) || (c =? 160) || (c =? 5760)
   || ((8192 <=? c) && (c <=? 8202)) || (c =? 8232) || (c =? 8233) || (c =? 8239)
   || (c =? 8287) || (c =? 12288) || (c =? 65279))%N.

(** [s.split('\n')]: never empty. *)
Fixpoint split_newline (s : JSString) : list JSString :=
  match s with
  | [] => [[]]
  | c :: rest =>
      if (c =? LF)%N then [] :: split_newline rest
      else match split_newline rest with
           | line :: lines => (c :: line) :: lines
           | [] => [[c]]
           end
  end.

(** [lines.join('\n')]. *)
Fixpoint join_newline (lines : list JSString) : JSString :=
  match lines with
  | [] => []
  | line :: rest =>
      match rest with
      | [] => line
      | _ :: _ => line ++ LF :: join_newline rest
      end
  end.

(** [line.match(/^\s*#/)] finds a match. *)
Fixpoint is_comment (line : JSString) : bool :=
  match line with
  | [] => false
  | c :: rest =>
      if (c =? HASH)%N then true
      else if is_space c then is_comment rest
      else false
  end.

(** [pipelineSource.split('\n').filter((line) => !line.match(/^\s*#/)).join('\n')]. *)
Definition pipelineString (pipelineSource : JSString) : JSString :=
  join_newline (filter (fun line => negb (is_comment line)) (split_newline pipelineSource)).

(** The two elements that the handler given to [receive] sets: the
    ['active-pad'] of the output selector [vsel] and the ['volume'] of
    [vol].  Both elements are named in the pipeline source, outside any
    comment line. *)
Inductive Pad := src_0 | src_1.

Record Controls := {
  active_pad : Pad;
  volume : Z
}.

Definition setPad (p : Pad) (c : Controls) : Controls :=
  {| active_pad := p; volume := volume c |}.

Definition setVolume (v : Z) (c : Controls) : Controls :=
  {| active_pad := active_pad c; volume := v |}.

(** [receive((ev) => { ... })]. *)
Definition receive (ev : PipelineControlEvent) (c : Controls) : Controls :=
  match ev with
  | RENDER_NORMAL => setVolume 1 (setPad src_0 c)
  | RENDER_CENSORED => setVolume 0 (setPad src_1 c)
  end.

(** ** server.ts: the status broadcast *)

Record StatusResponse := {
  r_delaySeconds : Z;
  r_restartSeconds : Z;
  r_isCensored : bool;
  r_isStreamRunning : bool;
  r_startTime : option Z;
  r_state : StateValue
}.

(** [formatStatus(snapshot)]. *)
Definition formatStatus (argv : AppSettings) (snapshot : MachineSnapshot) : StatusResponse :=
  {| r_delaySeconds := delaySeconds argv;
     r_restartSeconds := restartSeconds argv;
     r_isCensored :=
       match censorship_value (value snapshot) with Censored _ => true | Normal => false end;
     r_isStreamRunning :=
       match stream_value (value snapshot) with Running _ => true | _ => false end;
     r_startTime := startTime (context snapshot);
     r_state := value snapshot |}.

(** The events the API sends to the machine. *)
Inductive ApiEvent := api_CENSOR | api_UNCENSOR | api_START | api_STOP.

Definition api_event (e : ApiEvent) : EventType :=
  match e with
  | api_CENSOR => CENSOR
  | api_UNCENSOR => UNCENSOR
  | api_START => START
  | api_STOP => STOP
  end.

Record PatchStateRequest := {
  isCensored_field : option bool;
  isStreamRunning_field : option bool
}.

(** [handlePatchState(patchState)]: the events it sends, in order. *)
Definition handlePatchState (p : PatchStateRequest) : list ApiEvent :=
  match isCensored_field p with
  | Some true => [api_CENSOR]
  | Some false => [api_UNCENSOR]
  | None => []
  end
  ++ match isStreamRunning_field p with
     | Some true => [api_START]
     | Some false => [api_STOP]
     | None => []
     end.

(** The subscriber of [initAPIServer]:
    [if (snapshot === lastSnapshot) return; lastSnapshot = snapshot; ...send].
    [===] on objects is identity ([same_object]). Returns the new
    [lastSnapshot] and the messages sent to the sockets. *)
Definition same_object (a b : MachineSnapshot) : bool := Nat.eqb (oid a) (oid b).

Definition subscriber (argv : AppSettings) (lastSnapshot : option MachineSnapshot)
  (snapshot : MachineSnapshot) : option MachineSnapshot * list StatusResponse :=
  match lastSnapshot with
  | Some l =>
      if same_object snapshot l then (lastSnapshot, [])
      else (Some snapshot, [formatStatus argv snapshot])
  | None => (Some snapshot, [formatStatus argv snapshot])
  end.

(** ** server.ts: the API key *)

(** [Buffer.from(str)]: the UTF-8 bytes of a string; a surrogate that is
    not part of a pair is encoded as U+FFFD. *)
Definition is_lead (c : N) : bool := ((55296 <=? c) && (c <=? 56319))%N.
Definition is_trail (c : N) : bool := ((56320 <=? c) && (c <=? 57343))%N.

Definition utf8_3 (c : N) : list N :=
  [224 + c / 4096; 128 + (c / 64) mod 64; 128 + c mod 64]%N.

Definition utf8_4 (cp : N) : list N :=
  [240 + cp / 262144; 128 + (cp / 4096) mod 64; 128 + (cp / 64) mod 64;
   128 + cp mod 64]%N.

Definition replacement : list N := [239; 191; 189]%N.

Fixpoint Buffer_from (str : JSString) : list N :=
  match str with
  | [] => []
  | c :: rest =>
      if (c <? 128)%N then c :: Buffer_from rest
      else if (c <? 2048)%N then
        (192 + c / 64)%N :: (128 + c mod 64)%N :: Buffer_from rest
      else if is_lead c then
        match rest with
        | d :: rest' =>
            if is_trail d then
              utf8_4 (65536 + (c - 55296) * 1024 + (d - 56320))%N ++ Buffer_from rest'
            else replacement ++ Buffer_from rest
        | [] => replacement
        end
      else if is_trail c then replacement ++ Buffer_from rest
      else utf8_3 c ++ Buffer_from rest
  end.

(** [crypto.timingSafeEqual(a, b)]: throws a [RangeError] when the byte
    lengths differ ([None]). *)
Definition timingSafeEqual (a b : list N) : option bool :=
  if Nat.eqb (List.length a) (List.length b)
  then Some (if list_eq_dec N.eq_dec a b then true else false)
  else None.

Inductive Reply :=
| reply_400_missing_api_key          (* { ok: false, error: 'missing api key' } *)
| reply_403_invalid_api_key          (* { ok: false, error: 'invalid api key' } *)
| throws_RangeError                  (* thrown by timingSafeEqual *)
| passes.                            (* the hook returns without a reply *)

(** [a || b] on optional strings: [undefined] and the empty string are
    falsy. *)
Definition js_or (a b : option JSString) : option JSString :=
  match a with
  | Some (_ :: _) => a
  | _ => b
  end.

Definition js_truthy (a : option JSString) : bool :=
  match a with
  | Some (_ :: _) => true
  | _ => false
  end.

(** The [preHandler] hook; [header] is
    [request.headers['streamdelay-api-key']], [query] is
    [request.query.key]. *)
Definition preHandler (apiKey : JSString) (header query : option JSString) : Reply :=
  let providedApiKey := js_or header query in
  if negb (js_truthy providedApiKey) then reply_400_missing_api_key
  else
    let provided := match providedApiKey with Some k => k | None => [] end in
    if negb (Nat.eqb (List.length provided) (List.length apiKey)) then
      reply_403_invalid_api_key
    else
      match timingSafeEqual (Buffer_from provided) (Buffer_from apiKey) with
      | None => throws_RangeError
      | Some true => passes
      | Some false => reply_403_invalid_api_key
      end.

(** ** server.ts: WebSocket messages *)

(** What [JSON.parse] returns; a number is a double. *)
#[warnings="-register-all"]
Inductive JSON :=
| JSON_null
| JSON_boolean (b : bool)
| JSON_number (x : SpecFloat.spec_float)
| JSON_string (s : JSString)
| JSON_array (items : list JSON)
| JSON_object (members : list (string * JSON)).

(** An own property of an object; [None] is [undefined]. *)
Fixpoint own_property (members : list (string * JSON)) (key : string) : option JSON :=
  match members with
  | [] => None
  | (k, v) :: rest => if String.eqb k key then Some v else own_property rest key
  end.

(** The result of a property access: a [TypeError], or a value or
    [undefined]. *)
Inductive Access := TypeError | got (v : option JSON).

(** [value[key]] for a key that no prototype defines. *)
Definition get (value : JSON) (key : string) : Access :=
  match value with
  | JSON_null => TypeError
  | JSON_object members => got (own_property members key)
  | _ => got None
  end.

(** [ToBoolean]. *)
Definition ToBoolean (v : JSON) : bool :=
  match v with
  | JSON_null => false
  | JSON_boolean b => b
  | JSON_number (SpecFloat.S754_zero _) | JSON_number SpecFloat.S754_nan => false
  | JSON_number _ => true
  | JSON_string [] => false
  | JSON_string (_ :: _) => true
  | JSON_array _ | JSON_object _ => true
  end.

(** [handlePatchState] on a value that no schema has validated: the events
    sent, and whether it threw. *)
Definition handlePatchState_unvalidated (patchState : JSON) : list ApiEvent * bool :=
  match get patchState "isCensored" with
  | TypeError => ([], true)
  | got wantCensored =>
      let censor :=
        match wantCensored with
        | Some v => [if ToBoolean v then api_CENSOR else api_UNCENSOR]
        | None => []
        end in
      match get patchState "isStreamRunning" with
      | TypeError => (censor, true)
      | got wantRunning =>
          (censor ++ match wantRunning with
                     | Some v => [if ToBoolean v then api_START else api_STOP]
                     | None => []
                     end, false)
      end
  end.

Inductive Console :=
| warn_unexpected_ws_data        (* console.warn('received unexpected ws data:', text) *)
| error_failed_to_handle.        (* console.error('failed to handle ws message:', text, err) *)

(** [ws.on('message', ...)]: [parsed] is what [JSON.parse(text)] returned,
    [None] when it threw.  The events sent to the machine and what is
    logged. *)
Definition on_message (parsed : option JSON) : list ApiEvent * list Console :=
  match parsed with
  | None => ([], [warn_unexpected_ws_data])
  | Some patchState =>
      let '(events, threw) := handlePatchState_unvalidated patchState in
      (events, if threw then [error_failed_to_handle] else [])
  end.

(** ** The running service

    [initPipeline] creates the machine actor; xstate's actor system runs
    it: it keeps the timers of the delayed events, starts and stops the
    invoked [runPipeline] actors, relays their [sendBack] events, and calls
    the subscribers after each processed event.  Events are processed one
    at a time, each to completion.  Time is what [Date.now()] returns, in
    milliseconds; it does not advance while one input is processed. *)

Module Service.
Import XState.

Inductive ActorStatus := not_created | actor_active | actor_stopped | actor_error.

Record System := {
  argv : AppSettings;
  machine : MachineSnapshot;                 (* pipelineService.getSnapshot() *)
  timers : EventType -> option Z;            (* due time of each scheduled delayed event *)
  actors : ActorRef -> ActorStatus;          (* the runPipeline actors created so far *)
  spawned : ActorRef;                        (* serial number of the next actor *)
  lastSnapshot : option MachineSnapshot      (* [let lastSnapshot] of initAPIServer *)
}.

Inductive Output :=
| Render (engine : ActorRef) (c : PipelineControlEvent)   (* the engine's [receive] handler got [c] *)
| Broadcast (status : StatusResponse)          (* sent to every socket *)
| Warn (e : EventType).                        (* console.warn(event) of logError *)

Inductive PipelineStatusEvent := status_PIPELINE_ENDED | status_PIPELINE_STARTED.

Definition status_event (e : PipelineStatusEvent) : EventType :=
  match e with
  | status_PIPELINE_ENDED => PIPELINE_ENDED
  | status_PIPELINE_STARTED => PIPELINE_STARTED
  end.

(** What can happen to the service: the API sends an event, an engine
    calls [sendBack], or the timeout of a scheduled event expires. *)
Inductive Input :=
| send (e : ApiEvent)
| sendBack (engine : ActorRef) (e : PipelineStatusEvent)
| timeout (d : DelayName).

(** The delayed event of an [after] block; its type is also its timer's id. *)
Definition after_event (d : DelayName) : EventType :=
  match d with
  | STREAM_DELAY => xstate_after_STREAM_DELAY
  | RESTART_DELAY => xstate_after_RESTART_DELAY
  end.

Definition event_eqb (a b : EventType) : bool :=
  match a, b with
  | START, START | STOP, STOP | CENSOR, CENSOR | UNCENSOR, UNCENSOR
  | NORMAL, NORMAL | PIPELINE_ENDED, PIPELINE_ENDED
  | PIPELINE_STARTED, PIPELINE_STARTED
  | xstate_after_STREAM_DELAY, xstate_after_STREAM_DELAY
  | xstate_after_RESTART_DELAY, xstate_after_RESTART_DELAY
  | xstate_error_actor_pipelineActor, xstate_error_actor_pipelineActor => true
  | _, _ => false
  end.

Definition set_timer (id : EventType) (due : option Z) (t : EventType -> option Z)
  : EventType -> option Z :=
  fun id' => if event_eqb id id' then due else t id'.

Definition ref_eqb (a b : ActorRef) : bool := Nat.eqb a b.

Definition set_actor (r : ActorRef) (st : ActorStatus) (a : ActorRef -> ActorStatus)
  : ActorRef -> ActorStatus :=
  fun r' => if ref_eqb r r' then st else a r'.

(** The actor system's part of the state while deferred effects run, with
    the outputs so far and the events relayed to the machine's mailbox. *)
Record Executing := {
  r_timers : EventType -> option Z;
  r_actors : ActorRef -> ActorStatus;
  r_outputs : list Output;
  r_mailbox : list EventType
}.

(** The delay after which a timer set by [setTimeout(fn, after)] fires:
    the runtime replaces a delay that is not within [1 .. TIMEOUT_MAX] by
    1 ms ([if (!(after >= 1 && after <= TIMEOUT_MAX)) after = 1]). *)
Definition TIMEOUT_MAX : Z := 2147483647.

Definition setTimeout (after : Z) : Z :=
  if (1 <=? after) && (after <=? TIMEOUT_MAX) then after else 1.

(** One deferred effect: [scheduler.schedule] (a [setTimeout] of [delay]
    ms, kept under the event's id), [scheduler.cancel], the relay of a
    [sendTo] event to the engine
    (a stopped actor drops it), [actorRef.start()] (which runs the callback
    of [runPipeline]; when that throws, the actor reports
    [xstate.error.actor.pipelineActor] to the machine), [stopChild] (which
    runs the cleanup function), and [logError]. *)
Definition execute (now : Z) (st : Executing) (e : Effect) : Executing :=
  match e with
  | Schedule id delay =>
      {| r_timers := set_timer id (Some (now + setTimeout delay)) (r_timers st);
         r_actors := r_actors st; r_outputs := r_outputs st; r_mailbox := r_mailbox st |}
  | Cancel id =>
      {| r_timers := set_timer id None (r_timers st);
         r_actors := r_actors st; r_outputs := r_outputs st; r_mailbox := r_mailbox st |}
  | SendTo r c =>
      match r_actors st r with
      | actor_active =>
          {| r_timers := r_timers st; r_actors := r_actors st;
             r_outputs := r_outputs st ++ [Render r c];
             r_mailbox := r_mailbox st |}
      | _ => st
      end
  | StartActor r input =>
      match r_actors st r with
      | actor_stopped => st
      | _ =>
          match runPipeline input with
          | Playing =>
              {| r_timers := r_timers st; r_actors := set_actor r actor_active (r_actors st);
                 r_outputs := r_outputs st; r_mailbox := r_mailbox st |}
          | Throws _ =>
              {| r_timers := r_timers st; r_actors := set_actor r actor_error (r_actors st);
                 r_outputs := r_outputs st;
                 r_mailbox := r_mailbox st ++ [xstate_error_actor_pipelineActor] |}
          end
      end
  | StopActor r =>
      {| r_timers := r_timers st; r_actors := set_actor r actor_stopped (r_actors st);
         r_outputs := r_outputs st; r_mailbox := r_mailbox st |}
  | LogError ev =>
      {| r_timers := r_timers st; r_actors := r_actors st;
         r_outputs := r_outputs st ++ [Warn ev]; r_mailbox := r_mailbox st |}
  end.

(** The machine actor processes one event of its mailbox: the transition,
    the deferred effects, then the subscribers (only while the snapshot is
    active; a machine in status [error] stops and its timers are
    cancelled).  A stopped machine drops the event.  Returns the events
    relayed to the mailbox meanwhile. *)
Definition process (now : Z) (sys : System) (ev : EventType)
  : option (System * list Output * list EventType) :=
  match status (machine sys) with
  | status_error => Some (sys, [], [])
  | status_active =>
      match macrostep now (spawned sys) (machine sys) ev with
      | None => None
      | Some o =>
          let st := fold_left (execute now) (o_effects o)
                      {| r_timers := timers sys; r_actors := actors sys;
                         r_outputs := []; r_mailbox := [] |} in
          match status (o_snapshot o) with
          | status_active =>
              let '(last, msgs) := subscriber (argv sys) (lastSnapshot sys) (o_snapshot o) in
              Some ({| argv := argv sys; machine := o_snapshot o;
                       timers := r_timers st; actors := r_actors st;
                       spawned := o_nextRef o; lastSnapshot := last |},
                    r_outputs st ++ map Broadcast msgs, r_mailbox st)
          | status_error =>
              Some ({| argv := argv sys; machine := o_snapshot o;
                       timers := fun _ => None; actors := r_actors st;
                       spawned := o_nextRef o; lastSnapshot := lastSnapshot sys |},
                    r_outputs st, [])
          end
      end
  end.

(** The mailbox is emptied before anything else happens. *)
Fixpoint flush (fuel : nat) (now : Z) (sys : System) (mailbox : list EventType)
  : option (System * list Output) :=
  match mailbox with
  | [] => Some (sys, [])
  | ev :: rest =>
      match fuel with
      | O => None
      | S f =>
          match process now sys ev with
          | None => None
          | Some (sys', outs, relayed) =>
              match flush f now sys' (rest ++ relayed) with
              | None => None
              | Some (sys'', outs') => Some (sys'', outs ++ outs')
              end
          end
      end
  end.

Definition flush_fuel : nat := 4.

(** What an input delivers to the machine's mailbox at time [now], and the
    system it is delivered in.  [sendBack] of a callback actor returns at
    once when the actor is stopped (and an actor that was never started or
    whose callback threw has no engine to call it).  A timeout fires only
    when it is scheduled and due, and its timer is then gone. *)
Definition delivered (now : Z) (sys : System) (i : Input) : option (System * EventType) :=
  match i with
  | send e => Some (sys, api_event e)
  | sendBack r e =>
      match actors sys r with
      | actor_active => Some (sys, status_event e)
      | _ => None
      end
  | timeout d =>
      match timers sys (after_event d) with
      | Some due =>
          if due <=? now then
            Some ({| argv := argv sys; machine := machine sys;
                     timers := set_timer (after_event d) None (timers sys);
                     actors := actors sys;
                     spawned := spawned sys; lastSnapshot := lastSnapshot sys |},
                  after_event d)
          else None
      | None => None
      end
  end.

(** One input at time [now]. [None]: out of fuel. *)
Definition step_opt (now : Z) (sys : System) (i : Input) : option (System * list Output) :=
  match delivered now sys i with
  | Some (sys0, ev) => flush flush_fuel now sys0 [ev]
  | None => Some (sys, [])
  end.

Definition step (now : Z) (sys : System) (i : Input) : System * list Output :=
  match step_opt now sys i with
  | Some r => r
  | None => (sys, [])
  end.

(** [initPipeline(argv)] followed by [initAPIServer(argv, pipelineService)]:
    the machine starts in [{ censorship: 'normal', stream: 'stopped' }] with
    [startTime: null]. *)
Definition init_snapshot (settings : AppSettings) : MachineSnapshot :=
  {| value := {| censorship_value := Normal; stream_value := Stopped |};
     context := {| startTime := None; settings := settings |};
     children := None; status := status_active; oid := 0 |}.

Definition init (settings : AppSettings) : System :=
  {| argv := settings; machine := init_snapshot settings;
     timers := fun _ => None; actors := fun _ => not_created;
     spawned := 0%nat; lastSnapshot := None |}.

(** A run: inputs with the time at which each happens. *)
Fixpoint run (sys : System) (trace : list (Z * Input)) : System * list (Z * Output) :=
  match trace with
  | [] => (sys, [])
  | (now, i) :: rest =>
      let '(sys', outs) := step now sys i in
      let '(sys'', outs') := run sys' rest in
      (sys'', map (pair now) outs ++ outs')
  end.

End Service.

(** ** index.ts *)


(** The [choices] of the option [encoder]. *)
Definition encoder_choices : list string := ["x264"; "nvenc"; "none"]%string.

(** ** index.ts and server.ts: the API server

    [main] creates the pipeline service and the server; the server keeps
    the set of open sockets, answers the routes [/ws] and [/status] behind
    the [preHandler] hook, and relays the subscriber's status messages to
    every open socket.  A request's body has passed the route's schema. *)

Module Server.
Import Service.

(** [type Arguments = AppSettings & { apiHostname, apiPort, apiKey, start }]. *)
Record Arguments := {
  app : AppSettings;
  apiHostname : string;
  apiPort : Z;
  apiKey : JSString;
  start : bool
}.

Definition WebSocket := nat.

Record State := {
  pipelineService : System;
  sockets : list WebSocket          (* [const sockets = new Set<WebSocket>()] *)
}.

(** [sockets.add(ws)] and [sockets.delete(ws)]. *)
Definition add (ws : WebSocket) (s : list WebSocket) : list WebSocket :=
  if existsb (Nat.eqb ws) s then s else s ++ [ws].

Definition delete (ws : WebSocket) (s : list WebSocket) : list WebSocket :=
  filter (fun ws' => negb (Nat.eqb ws ws')) s.

Inductive Route :=
| GET_ws (ws : WebSocket)                 (* the connection is [ws] *)
| GET_status
| PATCH_status (body : PatchStateRequest).

Inductive Event :=
| request (header query : option JSString) (route : Route)
| ws_close (ws : WebSocket)
| ws_message (ws : WebSocket) (parsed : option JSON)
| pipeline_input (i : Input).             (* an engine's [sendBack], a timeout *)

Inductive Output :=
| ws_send (ws : WebSocket) (status : StatusResponse)
| replied (status : StatusResponse)
| rejected (r : Reply)
| console (c : Console)
| pipeline_output (out : Service.Output).

(** The subscriber's loop [for (const ws of sockets) ws.send(...)]. *)
Definition relay (sockets : list WebSocket) (out : Service.Output) : list Output :=
  match out with
  | Broadcast status => map (fun ws => ws_send ws status) sockets
  | _ => [pipeline_output out]
  end.

(** [pipelineService.send(...)] for each event, one after the other. *)
Definition send_all (now : Z) (sys : System) (events : list ApiEvent)
  : System * list Service.Output :=
  let r := Service.run sys (map (fun e => (now, send e)) events) in
  (fst r, map snd (snd r)).

Definition step (args : Arguments) (now : Z) (st : State) (ev : Event)
  : State * list Output :=
  match ev with
  | request header query route =>
      match preHandler (apiKey args) header query with
      | passes =>
          match route with
          | GET_ws ws =>
              ({| pipelineService := pipelineService st; sockets := add ws (sockets st) |},
               [ws_send ws (formatStatus (app args) (machine (pipelineService st)))])
          | GET_status =>
              (st, [replied (formatStatus (app args) (machine (pipelineService st)))])
          | PATCH_status body =>
              let '(sys, outs) := send_all now (pipelineService st) (handlePatchState body) in
              ({| pipelineService := sys; sockets := sockets st |},
               flat_map (relay (sockets st)) outs
               ++ [replied (formatStatus (app args) (machine sys))])
          end
      | r => (st, [rejected r])
      end
  | ws_close ws =>
      ({| pipelineService := pipelineService st; sockets := delete ws (sockets st) |}, [])
  | ws_message ws parsed =>
      let '(events, logs) := on_message parsed in
      let '(sys, outs) := send_all now (pipelineService st) events in
      ({| pipelineService := sys; sockets := sockets st |},
       flat_map (relay (sockets st)) outs ++ map console logs)
  | pipeline_input i =>
      let '(sys, outs) := Service.step now (pipelineService st) i in
      ({| pipelineService := sys; sockets := sockets st |},
       flat_map (relay (sockets st)) outs)
  end.

(** [main()]: [initPipeline(argv)], [START] when [argv.start], then
    [initAPIServer(argv, pipelineService)], whose subscriber has seen no
    snapshot yet and whose set of sockets is empty. *)
Definition main (args : Arguments) (now : Z) : State :=
  let sys := if start args
             then fst (Service.step now (init (app args)) (send api_START))
             else init (app args) in
  {| pipelineService :=
       {| argv := argv sys; machine := machine sys; timers := timers sys;
          actors := actors sys; spawned := spawned sys; lastSnapshot := None |};
     sockets := [] |}.

Fixpoint run (args : Arguments) (st : State) (trace : list (Z * Event))
  : State * list Output :=
  match trace with
  | [] => (st, [])
  | (now, ev) :: rest =>
      let '(st', outs) := step args now st ev in
      let '(st'', outs') := run args st' rest in
      (st'', outs ++ outs')
  end.

End Server.

(** * Properties *)

Import XState.

(** The defaults of [parseArgs] in index.ts, with an RTMP output. *)
Definition default_settings : AppSettings :=
  {| width := 1920; height := 1080; srtInUri := Some "srt://localhost:9000"%string;
     outUri := Some "rtmp://localhost/live"%string; outScript := None;
     delaySeconds := 15; restartSeconds := 3; bitrate := 4500;
     encoder := "x264"; x264Preset := "slow"; x264PsyTune := "none";
     x264Threads := 0; nvencPreset := "low-latency-hq"; pixelizeScale := 20;
     overlayImg := "overlay.png"; debug := None; inPipeline := None;
     outPipeline := None |}.

(** The same without any output: neither [outUri] nor [outPipeline]. *)
Definition settings_without_output : AppSettings :=
  {| width := 1920; height := 1080; srtInUri := Some "srt://localhost:9000"%string;
     outUri := None; outScript := None;
     delaySeconds := 15; restartSeconds := 3; bitrate := 4500;
     encoder := "x264"; x264Preset := "slow"; x264PsyTune := "none";
     x264Threads := 0; nvencPreset := "low-latency-hq"; pixelizeScale := 20;
     overlayImg := "overlay.png"; debug := None; inPipeline := None;
     outPipeline := None |}.

(** A snapshot with the given state value, engine and [startTime]. *)
Definition snapshot_in (c : CensorshipValue) (st : StreamValue)
  (engine : option ActorRef) (t : option Z) : MachineSnapshot :=
  {| value := {| censorship_value := c; stream_value := st |};
     context := {| startTime := t; settings := default_settings |};
     children := engine; status := status_active; oid := 0 |}.

(** The render command that matches a censorship state. *)
Definition render_command (c : CensorshipValue) : PipelineControlEvent :=
  match c with
  | Normal => RENDER_NORMAL
  | Censored _ => RENDER_CENSORED
  end.

(** The render commands among the effects of a step, with their target. *)
Definition renders (effects : list Effect) : list (ActorRef * PipelineControlEvent) :=
  flat_map (fun e => match e with SendTo r c => [(r, c)] | _ => [] end) effects.

(** The timer operations among the effects of a step. *)
Definition timer_effects (effects : list Effect) : list Effect :=
  filter (fun e => match e with Schedule _ _ | Cancel _ => true | _ => false end) effects.

(** The engines created or torn down among the effects of a step. *)
Definition engine_effects (effects : list Effect) : list Effect :=
  filter (fun e => match e with StartActor _ _ | StopActor _ => true | _ => false end) effects.

Definition startTime_invariant (s : MachineSnapshot) : Prop :=
  startTime (context s) <> None <-> stream_value (value s) = Running Started.

(** Every snapshot the machine can be in while it runs an engine has that
    engine as its child. *)
Definition has_engine (s : MachineSnapshot) : Prop :=
  stream_value (value s) = Running Started -> children s <> None.

Ltac evaluate := cbv -[Z.mul Z.add Service.setTimeout Z.leb Z.le Z.lt Z.sub].

Ltac destruct_value c st :=
  destruct c as [|[|]]; destruct st as [| |[|]|].

Lemma outcome_elim : forall (m : option Outcome) (P : Outcome -> Prop),
  match m with Some o => P o | None => True end ->
  forall o, m = Some o -> P o.
Proof. intros m P H o ->. exact H. Qed.

(** Turn [forall o, m = Some o -> P o] into [P] of the value of [m]. *)
Ltac by_outcome :=
  match goal with
  | |- forall o, ?m = Some o -> @?P o => apply (outcome_elim m P)
  end.

(** [macrostep] never runs out of fuel. *)
Lemma macrostep_total : forall now fresh s e, macrostep now fresh s e <> None.
Proof.
  intros now fresh [[c st] ctx ch stat o] e.
  destruct_value c st; destruct ch, stat, e; evaluate; discriminate.
Qed.

(** The active state nodes after a step are those of a state value. *)
Lemma getStateValue_nodes_of : forall v, getStateValue (nodes_of v) = v.
Proof. intros [c st]; destruct_value c st; reflexivity. Qed.

(** The state nodes that are active after a microstep are those of a state
    value: [getStateValue] loses nothing. *)
Lemma microstep_nodes_well_formed :
  forall now c st ctx ch stat o fresh e,
    let s := {| value := {| censorship_value := c; stream_value := st |};
                context := ctx; children := ch; status := stat; oid := o |} in
    let st0 := {| snap := s; internalQueue := []; deferred := []; nextRef := fresh;
                  thrown := false; allocated := 0 |} in
    let ts := removeConflictingTransitions (selectTransitions e s) (nodes_of (value s)) in
    let exited := exitStates now e ts st0 (nodes_of (value s)) in
    let entered := enterStates now e ts (fst exited) (snd exited) in
    sort_by_order (snd entered) = nodes_of (getStateValue (snd entered)).
Proof.
  intros now c st ctx ch stat o fresh e.
  destruct_value c st; destruct ch, e; evaluate; reflexivity.
Qed.

(** Twice the fuel changes nothing: the loop has ended by itself. *)
Lemma macrostep_loop_enough_fuel :
  forall now c st ctx ch stat o fresh e,
    let st0 := {| snap := {| value := {| censorship_value := c; stream_value := st |};
                             context := ctx; children := ch; status := stat; oid := o |};
                  internalQueue := []; deferred := []; nextRef := fresh;
                  thrown := false; allocated := 0 |} in
    let first := microstep now (selectTransitions e (snap st0)) e st0 in
    macrostep_loop (2 * macrostep_fuel) now true e first
    = macrostep_loop macrostep_fuel now true e first.
Proof.
  intros now c st ctx ch stat o fresh e.
  destruct_value c st; destruct ch, stat, e; evaluate; reflexivity.
Qed.

(** ** The stream region and [startTime] *)

Lemma startTime_invariant_init : forall settings,
  startTime_invariant (Service.init_snapshot settings).
Proof. intros settings; split; intros H; [ now elim H | discriminate H ]. Qed.

(** Every processed event preserves the invariant, whatever the event and
    the time. *)
Lemma startTime_invariant_macrostep : forall now fresh s e,
  startTime_invariant s ->
  exists o, macrostep now fresh s e = Some o /\ startTime_invariant (o_snapshot o).
Proof.
  intros now fresh s e.
  destruct s as [[c st] [t cfg] ch stat o]. unfold startTime_invariant. cbn.
  intros H.
  assert (Ht : t = None \/ (exists z, t = Some z) /\ st = Running Started).
  { destruct t as [z|]; [ right | now left ].
    split; [ now exists z | apply H; discriminate ]. }
  destruct Ht as [-> | [[z ->] ->]].
  - assert (Hst : st <> Running Started) by (intros E; apply H in E; now elim E).
    destruct_value c st; try (now elim Hst);
      destruct ch, stat, e;
      (eexists; split; [ evaluate; reflexivity | cbn; split; congruence ]).
  - destruct c as [|[|]]; destruct ch, stat, e;
      (eexists; split; [ evaluate; reflexivity | cbn; split; congruence ]).
Qed.

(** C6. [startTime] is non-null exactly when the stream region is in
    [running.started]: this holds in the initial snapshot, where
    [startTime] is null, and every processed event preserves it, whatever
    the event and the time ([startTime] is assigned by the entry action of
    [started] and reset to null by its exit action). *)
Theorem C6_startTime_set_iff_started :
  forall settings now fresh s e,
    startTime (context (Service.init_snapshot settings)) = None
    /\ startTime_invariant (Service.init_snapshot settings)
    /\ (startTime_invariant s ->
        exists o, macrostep now fresh s e = Some o
                  /\ startTime_invariant (o_snapshot o)).
Proof.
  intros settings now fresh s e.
  split; [ reflexivity | split; [ apply startTime_invariant_init | ] ].
  apply startTime_invariant_macrostep.
Qed.

Lemma C6_witness :
  startTime_invariant (Service.init_snapshot default_settings)
  /\ exists o, macrostep 7 0%nat (Service.init_snapshot default_settings) START = Some o
               /\ startTime_invariant (o_snapshot o).
Proof.
  split.
  - apply startTime_invariant_init.
  - apply (C6_startTime_set_iff_started default_settings 7 0%nat).
    apply startTime_invariant_init.
Defined.

(** ** Render commands on entering [started] *)

(** C3. Whenever the stream region enters [running.started] (from another
    state, or again on [PIPELINE_STARTED]), the step that enters it sends
    exactly one render command, to the machine's engine, and it is the one
    that matches the censorship state, which that step does not change.
    [PIPELINE_STARTED] received in [running] is such a step. *)
Theorem C3_one_render_command_on_entering_started :
  forall now fresh s e engine,
    status s = status_active ->
    children s = Some engine ->
    exists o,
      macrostep now fresh s e = Some o
      /\ (stream_value (value (o_snapshot o)) = Running Started ->
          stream_value (value s) <> Running Started \/ e = PIPELINE_STARTED ->
          renders (o_effects o)
          = [(engine, render_command (censorship_value (value (o_snapshot o))))]
          /\ censorship_value (value (o_snapshot o)) = censorship_value (value s))
      /\ (forall sub, stream_value (value s) = Running sub -> e = PIPELINE_STARTED ->
                      stream_value (value (o_snapshot o)) = Running Started).
Proof.
  intros now fresh [[c st] ctx ch stat oi] e engine Hstat Hch.
  cbn in Hstat, Hch. subst stat ch.
  destruct_value c st; destruct e;
    (eexists; split; [ evaluate; reflexivity | ]);
    cbn; (split; [ intros Hafter Hentry | intros sub Hsub He ]);
    try discriminate Hafter; try discriminate Hsub; try discriminate He;
    try (destruct Hentry as [Hentry | Hentry]; [ now elim Hentry | discriminate Hentry ]);
    try (split; reflexivity); reflexivity.
Qed.

Lemma C3_witness :
  exists o,
    macrostep 5 1%nat
      (snapshot_in (Censored Deactivating) (Running Waiting) (Some 0%nat) None)
      PIPELINE_STARTED = Some o
    /\ stream_value (value (o_snapshot o)) = Running Started
    /\ renders (o_effects o) = [(0%nat, RENDER_CENSORED)].
Proof.
  destruct (C3_one_render_command_on_entering_started 5 1%nat
              (snapshot_in (Censored Deactivating) (Running Waiting) (Some 0%nat) None)
              PIPELINE_STARTED 0%nat eq_refl eq_refl) as (o & Hstep & Hone & Henters).
  exists o. split; [ exact Hstep | ].
  assert (Hstarted : stream_value (value (o_snapshot o)) = Running Started)
    by (apply (Henters Waiting); reflexivity).
  split; [ exact Hstarted | ].
  destruct (Hone Hstarted (or_intror eq_refl)) as (Hrenders & Hcens).
  rewrite Hrenders, Hcens. reflexivity.
Defined.

(** ** [CENSOR] while already censored *)

(** C7 as stated fails: a [CENSOR] event received in [censored.active]
    while the stream region is in [running.started] makes the machine send
    [RENDER_CENSORED] once more, because the eventless transition of
    [started] is taken after every processed event. *)
Lemma C7_CENSOR_repeats_the_render_command :
  censorship_value (value (snapshot_in (Censored Active) (Running Started)
                             (Some 0%nat) (Some 5)))
  = Censored Active
  /\ macrostep 9 1%nat
       (snapshot_in (Censored Active) (Running Started) (Some 0%nat) (Some 5)) CENSOR
     = Some {| o_snapshot := snapshot_in (Censored Active) (Running Started)
                               (Some 0%nat) (Some 5);
               o_effects := [SendTo 0%nat RENDER_CENSORED];
               o_nextRef := 1%nat |}.
Proof. split; vm_compute; reflexivity. Qed.

(** C7, amended. In [censored.active] a further [CENSOR] event leaves the
    snapshot untouched (it is the same object), creates and stops no
    engine, and schedules and cancels no timer; it sends no render
    command unless the stream region is in [running.started], where the
    current mode is sent again as one [RENDER_CENSORED]. *)
Theorem C7_CENSOR_while_censored_active :
  forall now fresh s,
    status s = status_active ->
    censorship_value (value s) = Censored Active ->
    has_engine s ->
    exists o, macrostep now fresh s CENSOR = Some o
              /\ o_snapshot o = s
              /\ o_nextRef o = fresh
              /\ timer_effects (o_effects o) = []
              /\ engine_effects (o_effects o) = []
              /\ o_effects o
                 = match stream_value (value s), children s with
                   | Running Started, Some engine => [SendTo engine RENDER_CENSORED]
                   | _, _ => []
                   end.
Proof.
  intros now fresh [[c st] ctx ch stat o] Hstat Hc Hengine.
  unfold has_engine in Hengine. cbn in Hstat, Hc, Hengine. subst stat c.
  destruct st as [| |[|]|]; destruct ch;
    try (now elim Hengine);
    (eexists; split; [ evaluate; reflexivity | cbn; repeat split ]).
Qed.

Lemma C7_witness :
  exists o, macrostep 9 1%nat
              (snapshot_in (Censored Active) (Running Waiting) (Some 0%nat) None) CENSOR
            = Some o
            /\ o_snapshot o = snapshot_in (Censored Active) (Running Waiting) (Some 0%nat) None
            /\ o_nextRef o = 1%nat
            /\ timer_effects (o_effects o) = []
            /\ engine_effects (o_effects o) = []
            /\ o_effects o = [].
Proof.
  apply (C7_CENSOR_while_censored_active 9 1%nat
           (snapshot_in (Censored Active) (Running Waiting) (Some 0%nat) None)).
  - reflexivity.
  - reflexivity.
  - unfold has_engine. simpl. discriminate.
Defined.

(** ** [START] while running *)

(** C9. A [START] event received while the stream region is in [running]
    (either substate) leaves the snapshot untouched; the step stops no
    engine and creates none (the serial number of the next engine is
    unchanged), and touches no timer.  In [started] the current render
    command is sent again to the running engine. *)
Theorem C9_START_while_running_is_a_no_op :
  forall now fresh s sub engine,
    status s = status_active ->
    stream_value (value s) = Running sub ->
    children s = Some engine ->
    exists o, macrostep now fresh s START = Some o
              /\ o_snapshot o = s
              /\ o_nextRef o = fresh
              /\ engine_effects (o_effects o) = []
              /\ timer_effects (o_effects o) = []
              /\ o_effects o
                 = match sub with
                   | Waiting => []
                   | Started =>
                       [SendTo engine (render_command (censorship_value (value s)))]
                   end.
Proof.
  intros now fresh [[c st] ctx ch stat o] sub engine Hstat Hst Hch.
  cbn in Hstat, Hst, Hch. subst stat st ch.
  destruct c as [|[|]]; destruct sub;
    (eexists; split; [ evaluate; reflexivity | cbn; repeat split ]).
Qed.

Lemma C9_witness :
  exists o, macrostep 9 1%nat
              (snapshot_in Normal (Running Started) (Some 0%nat) (Some 5)) START
            = Some o
            /\ o_snapshot o = snapshot_in Normal (Running Started) (Some 0%nat) (Some 5)
            /\ o_nextRef o = 1%nat
            /\ engine_effects (o_effects o) = []
            /\ timer_effects (o_effects o) = []
            /\ o_effects o = [SendTo 0%nat RENDER_NORMAL].
Proof.
  apply (C9_START_while_running_is_a_no_op 9 1%nat
           (snapshot_in Normal (Running Started) (Some 0%nat) (Some 5)) Started 0%nat);
    reflexivity.
Defined.

(** ** [PIPELINE_ENDED] outside [running] *)

(** C10. The transition on [PIPELINE_ENDED] belongs to the [stream] state
    node and has no guard.  Processed while the stream region is in
    [stopped] or [restarting], the event takes it to [restarting] and
    schedules the restart timer; when that timer's event is processed the
    region enters [running.waiting] and a new engine is created and
    started. *)
Theorem C10_PIPELINE_ENDED_restarts_from_stopped :
  forall now later fresh s,
    status s = status_active ->
    stream_value (value s) = Stopped \/ stream_value (value s) = Restarting ->
    Config.on stream PIPELINE_ENDED = [goto stream restarting]
    /\ t_guard (goto stream restarting) = None
    /\ exists o,
         macrostep now fresh s PIPELINE_ENDED = Some o
         /\ stream_value (value (o_snapshot o)) = Restarting
         /\ In (Schedule xstate_after_RESTART_DELAY
                  (1000 * restartSeconds (settings (context s)))) (o_effects o)
         /\ o_nextRef o = fresh
         /\ exists o',
              macrostep later fresh (o_snapshot o) xstate_after_RESTART_DELAY = Some o'
              /\ stream_value (value (o_snapshot o')) = Running Waiting
              /\ children (o_snapshot o') = Some fresh
              /\ In (StartActor fresh (settings (context s))) (o_effects o').
Proof.
  intros now later fresh [[c st] ctx ch stat o] Hstat Hst.
  cbn in Hstat, Hst. subst stat.
  split; [ reflexivity | split; [ reflexivity | ] ].
  destruct Hst as [-> | ->]; destruct c as [|[|]]; destruct ch;
    (eexists; split; [ evaluate; reflexivity | ]);
    evaluate; (split; [ reflexivity | ]);
    (split; [ auto | ]); (split; [ reflexivity | ]);
    (eexists; split; [ reflexivity | ]);
    auto.
Qed.

Lemma C10_witness :
  Config.on stream PIPELINE_ENDED = [goto stream restarting]
  /\ t_guard (goto stream restarting) = None
  /\ exists o,
       macrostep 0 0%nat (snapshot_in Normal Stopped None None) PIPELINE_ENDED = Some o
       /\ stream_value (value (o_snapshot o)) = Restarting
       /\ In (Schedule xstate_after_RESTART_DELAY (1000 * 3)) (o_effects o)
       /\ o_nextRef o = 0%nat
       /\ exists o',
            macrostep 3000 0%nat (o_snapshot o) xstate_after_RESTART_DELAY = Some o'
            /\ stream_value (value (o_snapshot o')) = Running Waiting
            /\ children (o_snapshot o') = Some 0%nat
            /\ In (StartActor 0%nat default_settings) (o_effects o').
Proof.
  apply (C10_PIPELINE_ENDED_restarts_from_stopped 0 3000 0%nat
           (snapshot_in Normal Stopped None None)).
  - reflexivity.
  - left. reflexivity.
Defined.

(** ** [CENSOR] while the release timer runs *)

(** C2, on the code. In [censored.deactivating] a [CENSOR] event selects no
    transition: [CENSOR] is handled by [normal] only.  The snapshot is
    untouched, the release timer is not cancelled, and when its event
    arrives the censorship region goes to [normal]. *)
Theorem C2_CENSOR_while_deactivating_is_dropped :
  forall now later fresh s,
    status s = status_active ->
    censorship_value (value s) = Censored Deactivating ->
    has_engine s ->
    selectTransitions CENSOR s = []
    /\ exists o,
         macrostep now fresh s CENSOR = Some o
         /\ o_snapshot o = s
         /\ timer_effects (o_effects o) = []
         /\ exists o',
              macrostep later fresh (o_snapshot o) xstate_after_STREAM_DELAY = Some o'
              /\ censorship_value (value (o_snapshot o')) = Normal.
Proof.
  intros now later fresh [[c st] ctx ch stat o] Hstat Hc Hengine.
  unfold has_engine in Hengine. cbn in Hstat, Hc, Hengine. subst stat c.
  destruct st as [| |[|]|]; destruct ch;
    try (now elim Hengine);
    (split; [ evaluate; reflexivity | ]);
    (eexists; split; [ evaluate; reflexivity | ]);
    evaluate; (split; [ reflexivity | ]); (split; [ reflexivity | ]);
    (eexists; split; [ reflexivity | reflexivity ]).
Qed.

Lemma C2_witness :
  selectTransitions CENSOR
    (snapshot_in (Censored Deactivating) (Running Started) (Some 0%nat) (Some 1)) = []
  /\ exists o,
       macrostep 10000 1%nat
         (snapshot_in (Censored Deactivating) (Running Started) (Some 0%nat) (Some 1)) CENSOR
       = Some o
       /\ o_snapshot o
          = snapshot_in (Censored Deactivating) (Running Started) (Some 0%nat) (Some 1)
       /\ timer_effects (o_effects o) = []
       /\ exists o',
            macrostep 15000 1%nat (o_snapshot o) xstate_after_STREAM_DELAY = Some o'
            /\ censorship_value (value (o_snapshot o')) = Normal.
Proof.
  apply (C2_CENSOR_while_deactivating_is_dropped 10000 15000 1%nat
           (snapshot_in (Censored Deactivating) (Running Started) (Some 0%nat) (Some 1))).
  - reflexivity.
  - reflexivity.
  - unfold has_engine. simpl. discriminate.
Defined.

(** ** The actor system: what a step does to timers, engines and outputs *)

Import Service.

(** The effect of one deferred effect on the timers alone. *)
Definition apply_timer (now : Z) (t : EventType -> option Z) (e : Effect)
  : EventType -> option Z :=
  match e with
  | Schedule id delay => set_timer id (Some (now + setTimeout delay)) t
  | Cancel id => set_timer id None t
  | _ => t
  end.

Definition is_start (e : Effect) : bool :=
  match e with StartActor _ _ => true | _ => false end.

Lemma execute_timers : forall now effs st,
  r_timers (fold_left (execute now) effs st)
  = fold_left (apply_timer now) effs (r_timers st).
Proof.
  intros now effs; induction effs as [|e effs IH]; intros st; [ reflexivity | ].
  cbn [fold_left]. rewrite IH. f_equal.
  destruct e as [id d|id|r c|r input|r|ev]; cbn; try reflexivity.
  - destruct (r_actors st r); reflexivity.
  - destruct (r_actors st r); try reflexivity; destruct (runPipeline input); reflexivity.
Qed.

(** Every output of a step comes from a [sendTo] or from [logError]. *)
Lemma execute_outputs : forall now effs st out,
  In out (r_outputs (fold_left (execute now) effs st)) ->
  In out (r_outputs st)
  \/ (exists r c, out = Render r c /\ In (SendTo r c) effs)
  \/ (exists ev, out = Warn ev /\ In (LogError ev) effs).
Proof.
  intros now effs; induction effs as [|e effs IH]; intros st out H; [ now left | ].
  cbn [fold_left] in H. apply IH in H.
  destruct H as [H | [(r & c & -> & H) | (ev & -> & H)]].
  - destruct e as [id d|id|r c|r input|r|ev]; cbn in H; auto.
    + destruct (r_actors st r); auto.
      cbn in H. apply in_app_or in H. destruct H as [H | [<- | []]]; auto.
      right; left. exists r, c. split; [ reflexivity | now left ].
    + destruct (r_actors st r); auto; destruct (runPipeline input); auto.
    + apply in_app_or in H. destruct H as [H | [<- | []]]; auto.
      right; right. exists ev. split; [ reflexivity | now left ].
  - right; left. exists r, c. split; [ reflexivity | now right ].
  - right; right. exists ev. split; [ reflexivity | now right ].
Qed.

(** The mailbox only receives error events of engines that were started. *)
Lemma execute_mailbox : forall now effs st,
  exists k, r_mailbox (fold_left (execute now) effs st)
            = r_mailbox st ++ repeat xstate_error_actor_pipelineActor k
            /\ (k <= List.length (filter is_start effs))%nat.
Proof.
  intros now effs; induction effs as [|e effs IH]; intros st.
  - exists 0%nat. cbn. rewrite app_nil_r. auto.
  - cbn [fold_left]. destruct (IH (execute now st e)) as (k & Hk & Hle). rewrite Hk.
    destruct e as [id d|id|r c|r input|r|ev]; cbn;
      try (exists k; split; [ reflexivity | exact Hle ]).
    + destruct (r_actors st r); exists k; split; try reflexivity; exact Hle.
    + destruct (r_actors st r);
        try (exists k; split; [ reflexivity | lia ]);
        destruct (runPipeline input); cbn;
        try (exists k; split; [ reflexivity | lia ]);
        (exists (S k); split; [ rewrite <- app_assoc; reflexivity | lia ]).
Qed.

(** A machine that has stopped with status [error]. *)
Definition halt (sys : System) : System :=
  {| argv := argv sys;
     machine := cloneMachineSnapshot (machine sys) (value (machine sys))
                  (context (machine sys)) (children (machine sys)) status_error;
     timers := fun _ => None; actors := actors sys; spawned := spawned sys;
     lastSnapshot := lastSnapshot sys |}.

(** No transition handles the error event of the engine. *)
Lemma macrostep_error_event : forall now fresh s,
  macrostep now fresh s xstate_error_actor_pipelineActor
  = Some {| o_snapshot := cloneMachineSnapshot s (value s) (context s) (children s)
                            status_error;
            o_effects := []; o_nextRef := fresh |}.
Proof.
  intros now fresh [[c st] ctx ch stat o].
  destruct_value c st; reflexivity.
Qed.

(** One step starts at most one engine. *)
Lemma macrostep_starts_at_most_one : forall now fresh s e o,
  macrostep now fresh s e = Some o ->
  (List.length (filter is_start (o_effects o)) <= 1)%nat.
Proof.
  intros now fresh [[c st] ctx ch stat oi] e o.
  destruct_value c st; destruct ch, stat, e; evaluate;
    intros H; injection H as <-; cbn; lia.
Qed.

(** The system once the machine has processed an event with outcome [o]
    and its mailbox is empty again: the deferred effects have run, the
    subscriber has been called, and an engine that failed to start has
    stopped the machine. *)
Definition settled (now : Z) (sys : System) (o : Outcome) : System * list Output :=
  let st := fold_left (execute now) (o_effects o)
              {| r_timers := timers sys; r_actors := actors sys;
                 r_outputs := []; r_mailbox := [] |} in
  match status (o_snapshot o) with
  | status_active =>
      let notified := subscriber (argv sys) (lastSnapshot sys) (o_snapshot o) in
      let sys1 := {| argv := argv sys; machine := o_snapshot o;
                     timers := r_timers st; actors := r_actors st;
                     spawned := o_nextRef o; lastSnapshot := fst notified |} in
      (match r_mailbox st with [] => sys1 | _ :: _ => halt sys1 end,
       r_outputs st ++ map Broadcast (snd notified))
  | status_error =>
      ({| argv := argv sys; machine := o_snapshot o;
          timers := fun _ => None; actors := r_actors st;
          spawned := o_nextRef o; lastSnapshot := lastSnapshot sys |},
       r_outputs st)
  end.

Lemma process_error_event : forall now sys,
  status (machine sys) = status_active ->
  process now sys xstate_error_actor_pipelineActor = Some (halt sys, [], []).
Proof.
  intros now sys H. unfold process. rewrite H, macrostep_error_event. reflexivity.
Qed.

Lemma flush_one : forall now sys ev o,
  status (machine sys) = status_active ->
  macrostep now (spawned sys) (machine sys) ev = Some o ->
  flush flush_fuel now sys [ev] = Some (settled now sys o).
Proof.
  intros now sys ev o Hactive Hstep.
  unfold flush_fuel. cbn [flush].
  replace (process now sys ev) with
    (let st := fold_left (execute now) (o_effects o)
                 {| r_timers := timers sys; r_actors := actors sys;
                    r_outputs := []; r_mailbox := [] |} in
     match status (o_snapshot o) with
     | status_active =>
         let '(last, msgs) := subscriber (argv sys) (lastSnapshot sys) (o_snapshot o) in
         Some ({| argv := argv sys; machine := o_snapshot o;
                  timers := r_timers st; actors := r_actors st;
                  spawned := o_nextRef o; lastSnapshot := last |},
               r_outputs st ++ map Broadcast msgs, r_mailbox st)
     | status_error =>
         Some ({| argv := argv sys; machine := o_snapshot o;
                  timers := fun _ => None; actors := r_actors st;
                  spawned := o_nextRef o; lastSnapshot := lastSnapshot sys |},
               r_outputs st, [])
     end)
    by (unfold process; rewrite Hactive, Hstep; reflexivity).
  unfold settled.
  pose proof (macrostep_starts_at_most_one _ _ _ _ _ Hstep) as Hone.
  destruct (execute_mailbox now (o_effects o)
              {| r_timers := timers sys; r_actors := actors sys;
                 r_outputs := []; r_mailbox := [] |}) as (k & Hk & Hle).
  set (st := fold_left (execute now) (o_effects o) _) in *.
  cbn [r_mailbox app] in Hk. cbv zeta.
  destruct (status (o_snapshot o)) eqn:Hstatus.
  - destruct (subscriber (argv sys) (lastSnapshot sys) (o_snapshot o)) as [last msgs].
    cbn [fst snd app]. rewrite Hk.
    assert (Hk1 : k = 0%nat \/ k = 1%nat) by lia.
    destruct Hk1 as [-> | ->]; cbn [repeat flush app].
    + rewrite app_nil_r. reflexivity.
    + rewrite process_error_event by exact Hstatus.
      cbn [app]. rewrite !app_nil_r. reflexivity.
  - cbn [flush app]. rewrite app_nil_r. reflexivity.
Qed.

(** What a step is, input by input: nothing when nothing is delivered or
    the machine has stopped, and otherwise the settled outcome of the
    machine's transition. *)
Lemma step_spec : forall now sys i,
  step now sys i
  = match delivered now sys i with
    | None => (sys, [])
    | Some (sys0, ev) =>
        match status (machine sys0) with
        | status_error => (sys0, [])
        | status_active =>
            match macrostep now (spawned sys0) (machine sys0) ev with
            | Some o => settled now sys0 o
            | None => (sys, [])
            end
        end
    end.
Proof.
  intros now sys i. unfold step, step_opt.
  destruct (delivered now sys i) as [[sys0 ev]|]; [ | reflexivity ].
  destruct (status (machine sys0)) eqn:Hstatus.
  - destruct (macrostep now (spawned sys0) (machine sys0) ev) as [o|] eqn:Hstep.
    + rewrite (flush_one _ _ _ _ Hstatus Hstep). reflexivity.
    + now elim (macrostep_total _ _ _ _ Hstep).
  - unfold flush_fuel. cbn [flush]. unfold process. rewrite Hstatus. reflexivity.
Qed.

(** A step never runs out of fuel. *)
Lemma step_opt_total : forall now sys i, step_opt now sys i = Some (step now sys i).
Proof.
  intros now sys i. unfold step.
  destruct (step_opt now sys i) as [r|] eqn:H; [ reflexivity | exfalso ].
  unfold step_opt in H.
  destruct (delivered now sys i) as [[sys0 ev]|]; [ | discriminate H ].
  destruct (status (machine sys0)) eqn:Hstatus.
  - destruct (macrostep now (spawned sys0) (machine sys0) ev) as [o|] eqn:Hstep.
    + rewrite (flush_one _ _ _ _ Hstatus Hstep) in H. discriminate H.
    + now elim (macrostep_total _ _ _ _ Hstep).
  - unfold flush_fuel in H. cbn [flush] in H. unfold process in H.
    rewrite Hstatus in H. discriminate H.
Qed.

(** Replace the machine's transition in the goal by its value. *)
Ltac run_macrostep :=
  match goal with
  | |- context [macrostep ?now ?fresh ?s ?e] =>
      let r := eval cbv -[Z.mul Z.add Service.setTimeout Z.leb Z.le Z.lt Z.sub]
                 in (macrostep now fresh s e) in
      change (macrostep now fresh s e) with r
  end.

(** ** Engine construction failure *)

(** No transition of the machine targets the [error] state node. *)
Lemma Error_has_no_incoming_transition : forall now fresh s e o,
  macrostep now fresh s e = Some o ->
  stream_value (value (o_snapshot o)) = Error ->
  stream_value (value s) = Error.
Proof.
  intros now fresh [[c st] ctx ch stat oi] e o.
  destruct_value c st; destruct ch, stat, e; evaluate;
    intros H; injection H as <-; cbn; congruence.
Qed.

(** C4, on the code. When the callback of [runPipeline] throws on the
    settings, the [START] that spawns the engine leaves the stream region
    in [running.waiting], not in [error]: the engine's error event is
    handled by no transition, so the machine itself stops with status
    [error].  From then on every input is dropped; nothing is retried, not
    even on an explicit [START]. *)
Theorem C4_construction_failure_stops_the_machine :
  forall cfg message now,
    runPipeline cfg = Throws message ->
    stream_value (value (machine (fst (step now (init cfg) (send api_START)))))
    = Running Waiting
    /\ status (machine (fst (step now (init cfg) (send api_START)))) = status_error
    /\ forall later i,
         step later (fst (step now (init cfg) (send api_START))) i
         = (fst (step now (init cfg) (send api_START)), []).
Proof.
  intros cfg message now H.
  assert (Hstep : exists last,
            fst (step now (init cfg) (send api_START))
            = halt {| argv := cfg;
                      machine := {| value := {| censorship_value := Normal;
                                                stream_value := Running Waiting |};
                                    context := {| startTime := None; settings := cfg |};
                                    children := Some 0%nat; status := status_active;
                                    oid := 2 |};
                      timers := fun _ => None;
                      actors := set_actor 0%nat actor_error (fun _ => not_created);
                      spawned := 1%nat; lastSnapshot := last |}).
  { rewrite step_spec. unfold delivered, init.
    cbn [machine status init_snapshot spawned api_event].
    run_macrostep. unfold settled.
    cbn [o_effects o_snapshot status fold_left execute r_actors r_mailbox r_timers
         r_outputs o_nextRef argv timers actors app fst snd lastSnapshot].
    rewrite H. cbn [r_mailbox app fst]. eexists. reflexivity. }
  destruct Hstep as (last & ->).
  split; [ reflexivity | split; [ reflexivity | ] ].
  intros later i. rewrite step_spec.
  destruct i as [e | r e | id]; cbn [delivered halt actors timers machine status
                                      cloneMachineSnapshot].
  - reflexivity.
  - unfold set_actor. destruct (ref_eqb 0%nat r); reflexivity.
  - reflexivity.
Qed.

Lemma C4_witness :
  stream_value (value (machine (fst (step 0 (init settings_without_output)
                                       (send api_START)))))
  = Running Waiting
  /\ status (machine (fst (step 0 (init settings_without_output) (send api_START))))
     = status_error
  /\ forall later i,
       step later (fst (step 0 (init settings_without_output) (send api_START))) i
       = (fst (step 0 (init settings_without_output) (send api_START)), []).
Proof.
  apply (C4_construction_failure_stops_the_machine settings_without_output
           "Missing outUri" 0).
  reflexivity.
Defined.

(** ** Engines and stale events *)

(** The effect of one deferred effect on the engines and the mailbox. *)
Definition apply_engine_mailbox (am : (ActorRef -> ActorStatus) * list EventType)
  (e : Effect) : (ActorRef -> ActorStatus) * list EventType :=
  match e with
  | StartActor r input =>
      match fst am r with
      | actor_stopped => am
      | _ =>
          match runPipeline input with
          | Playing => (set_actor r actor_active (fst am), snd am)
          | Throws _ =>
              (set_actor r actor_error (fst am),
               snd am ++ [xstate_error_actor_pipelineActor])
          end
      end
  | StopActor r => (set_actor r actor_stopped (fst am), snd am)
  | _ => am
  end.

Lemma execute_engines : forall now effs st,
  (r_actors (fold_left (execute now) effs st),
   r_mailbox (fold_left (execute now) effs st))
  = fold_left apply_engine_mailbox effs (r_actors st, r_mailbox st).
Proof.
  intros now effs; induction effs as [|e effs IH]; intros st; [ reflexivity | ].
  cbn [fold_left]. rewrite IH. f_equal.
  destruct e as [id d|id|r c|r input|r|ev]; cbn; try reflexivity.
  - destruct (r_actors st r); reflexivity.
  - destruct (r_actors st r); try reflexivity; destruct (runPipeline input); reflexivity.
Qed.

(** The machine has a child exactly while the stream region is [running]. *)
Definition child_iff_running (s : MachineSnapshot) : Prop :=
  children s <> None <-> exists sub, stream_value (value s) = Running sub.

(** What a step does to the engines: nothing, or it stops the machine's
    child on leaving [running], or it creates and starts a new child on
    entering [running]. *)
Lemma macrostep_engines : forall now fresh s e o,
  macrostep now fresh s e = Some o ->
  status s = status_active ->
  child_iff_running s ->
  status (o_snapshot o) = status_active ->
  child_iff_running (o_snapshot o)
  /\ ((children (o_snapshot o) = children s /\ o_nextRef o = fresh
       /\ forall am, fold_left apply_engine_mailbox (o_effects o) am = am)
      \/ (exists r, children s = Some r /\ children (o_snapshot o) = None
                    /\ o_nextRef o = fresh
                    /\ forall am, fold_left apply_engine_mailbox (o_effects o) am
                                  = (set_actor r actor_stopped (fst am), snd am))
      \/ (children s = None /\ children (o_snapshot o) = Some fresh
          /\ o_nextRef o = S fresh
          /\ forall am, fold_left apply_engine_mailbox (o_effects o) am
                        = apply_engine_mailbox am
                            (StartActor fresh (settings (context s))))).
Proof.
  intros now fresh [[c st] ctx ch stat oi] e o Hstep Hstat Hwf.
  unfold child_iff_running in *. cbn in Hstat, Hwf. subst stat.
  assert (Hch : match st with Running _ => ch <> None | _ => ch = None end).
  { destruct st as [| |sub|]; try (destruct ch as [r|]; [ | reflexivity ];
      exfalso; destruct Hwf as [Hwf _]; destruct Hwf as [sub' Hsub];
      [ discriminate | discriminate Hsub ]).
    apply Hwf. now exists sub. }
  clear Hwf. revert o Hstep.
  destruct_value c st; destruct ch as [r|]; try discriminate Hch; try (now elim Hch);
    clear Hch; destruct e; by_outcome;
    cbv -[Z.mul Z.add Service.setTimeout set_actor runPipeline];
    intros Hactive; try discriminate Hactive;
    (split;
     [ split; [ intros H; try (now elim H); eauto
              | intros [sub Hsub]; try discriminate Hsub; discriminate ]
     | first
         [ left; split; [ reflexivity | split; [ reflexivity | ] ];
           intros [a m]; reflexivity
         | right; left; eexists; split; [ reflexivity | ];
           split; [ reflexivity | split; [ reflexivity | ] ];
           intros [a m]; reflexivity
         | right; right; split; [ reflexivity | ];
           split; [ reflexivity | split; [ reflexivity | ] ];
           intros [a m]; reflexivity ] ]).
Qed.

Lemma ref_eqb_eq : forall a b, ref_eqb a b = true <-> a = b.
Proof. intros a b. unfold ref_eqb. apply Nat.eqb_eq. Qed.

Lemma set_actor_same : forall r st a, set_actor r st a r = st.
Proof.
  intros r st a. unfold set_actor.
  destruct (ref_eqb r r) eqn:E; [ reflexivity | ].
  assert (ref_eqb r r = true) by now apply ref_eqb_eq. congruence.
Qed.

Lemma set_actor_other : forall r r' st a, r <> r' -> set_actor r st a r' = a r'.
Proof.
  intros r r' st a Hne. unfold set_actor.
  destruct (ref_eqb r r') eqn:E; [ | reflexivity ].
  apply ref_eqb_eq in E. contradiction.
Qed.

(** An input is delivered in the system it arrives in, less the timer that
    fired. *)
Lemma delivered_same : forall now sys i sys0 ev,
  delivered now sys i = Some (sys0, ev) ->
  argv sys0 = argv sys /\ machine sys0 = machine sys /\ actors sys0 = actors sys
  /\ spawned sys0 = spawned sys /\ lastSnapshot sys0 = lastSnapshot sys.
Proof.
  intros now sys i sys0 ev H. destruct i as [e | r e | id]; cbn in H.
  - injection H as <- _. auto.
  - destruct (actors sys r); try discriminate H. injection H as <- _. auto.
  - destruct (timers sys (after_event id)) as [due|]; [ | discriminate H ].
    destruct (due <=? now); [ | discriminate H ]. injection H as <- _. cbn. auto.
Qed.

Lemma run_cons : forall sys now i rest,
  fst (run sys ((now, i) :: rest)) = fst (run (fst (step now sys i)) rest).
Proof.
  intros sys now i rest. cbn [run].
  destruct (step now sys i) as [sys' outs]. cbn [fst].
  destruct (run sys' rest) as [sys'' outs']. reflexivity.
Qed.

(** What every step preserves holds after every run. *)
Lemma run_invariant : forall (P : System -> Prop),
  (forall now sys i, P sys -> P (fst (step now sys i))) ->
  forall trace sys, P sys -> P (fst (run sys trace)).
Proof.
  intros P Hstep trace; induction trace as [|[now i] rest IH]; intros sys H.
  - exact H.
  - rewrite run_cons. apply IH, Hstep, H.
Qed.

(** While the machine runs: it has a child exactly in [running]; the
    child is the one engine that is active; engines not yet created are
    not known to the actor system. *)
Definition engines_consistent (sys : System) : Prop :=
  status (machine sys) = status_active ->
  child_iff_running (machine sys)
  /\ (forall r, actors sys r = actor_active <-> children (machine sys) = Some r)
  /\ (forall r, (spawned sys <= r)%nat -> actors sys r = not_created).

Lemma engines_consistent_init : forall cfg, engines_consistent (init cfg).
Proof.
  intros cfg _. split; [ | split ].
  - split; [ intros H; now elim H | intros [sub H]; discriminate H ].
  - intros r; split; discriminate.
  - reflexivity.
Qed.

Lemma engines_consistent_step : forall now sys i,
  engines_consistent sys -> engines_consistent (fst (step now sys i)).
Proof.
  intros now sys i H. rewrite step_spec.
  destruct (delivered now sys i) as [[sys0 ev]|] eqn:Hd; [ | exact H ].
  destruct (delivered_same _ _ _ _ _ Hd) as (_ & Hm & Ha & Hs & _).
  destruct (status (machine sys0)) eqn:Hstatus.
  2:{ intros Hactive. cbn in Hactive. congruence. }
  destruct (macrostep now (spawned sys0) (machine sys0) ev) as [o|] eqn:Hstep; [ | exact H ].
  unfold engines_consistent in H. rewrite <- Hm, <- Ha, <- Hs in H.
  destruct (H Hstatus) as (Hwf & Hact & Hnew). clear H.
  unfold settled.
  pose proof (execute_engines now (o_effects o)
                {| r_timers := timers sys0; r_actors := actors sys0;
                   r_outputs := []; r_mailbox := [] |}) as Hexec.
  set (st := fold_left (execute now) (o_effects o) _) in *.
  cbn [r_actors r_mailbox] in Hexec.
  destruct (status (o_snapshot o)) eqn:Hso.
  2:{ intros Hactive. cbn in Hactive. congruence. }
  destruct (macrostep_engines _ _ _ _ _ Hstep Hstatus Hwf Hso)
    as (Hwf' & [(Hch & Hn & Hfold) | [(r & Hch & Hch' & Hn & Hfold)
                                     | (Hch & Hch' & Hn & Hfold)]]);
    rewrite Hfold in Hexec; cbn [apply_engine_mailbox fst snd] in Hexec.
  - injection Hexec as Hra Hrm. rewrite Hrm. cbn [fst].
    intros _. cbn. rewrite Hra, Hch, Hn. auto.
  - injection Hexec as Hra Hrm. rewrite Hrm. cbn [fst].
    intros _. cbn. rewrite Hra, Hch', Hn.
    assert (Hr : actors sys0 r = actor_active) by now apply Hact.
    split; [ exact Hwf' | split ].
    + intros x; split; [ | discriminate ].
      destruct (Nat.eq_dec r x) as [<- | Hne].
      * rewrite set_actor_same. discriminate.
      * rewrite set_actor_other by exact Hne. intros Hx. apply Hact in Hx. congruence.
    + intros x Hx. rewrite set_actor_other; [ now apply Hnew | ].
      intros <-. rewrite (Hnew r Hx) in Hr. discriminate Hr.
  - rewrite (Hnew (spawned sys0)) in Hexec by lia.
    destruct (runPipeline (settings (context (machine sys0)))) eqn:Hrun;
      injection Hexec as Hra Hrm; rewrite Hrm; cbn [fst app].
    2:{ intros Hactive. cbn in Hactive. discriminate Hactive. }
    intros _. cbn. rewrite Hra, Hch', Hn.
    split; [ exact Hwf' | split ].
    + intros x; split.
      * destruct (Nat.eq_dec (spawned sys0) x) as [<- | Hne]; [ reflexivity | ].
        rewrite set_actor_other by exact Hne. intros Hx. apply Hact in Hx. congruence.
      * intros Hx. injection Hx as <-. apply set_actor_same.
    + intros x Hx. rewrite set_actor_other by lia. apply Hnew. lia.
Qed.

Lemma engines_consistent_run : forall cfg trace,
  engines_consistent (fst (run (init cfg) trace)).
Proof.
  intros cfg trace. apply run_invariant.
  - apply engines_consistent_step.
  - apply engines_consistent_init.
Qed.

(** [PIPELINE_ENDED] while [running]: the engine is stopped and the
    restart timer scheduled. *)
Lemma PIPELINE_ENDED_while_running : forall now fresh s sub r,
  status s = status_active ->
  stream_value (value s) = Running sub ->
  children s = Some r ->
  exists o, macrostep now fresh s PIPELINE_ENDED = Some o
            /\ status (o_snapshot o) = status_active
            /\ stream_value (value (o_snapshot o)) = Restarting
            /\ o_effects o
               = [StopActor r;
                  Schedule xstate_after_RESTART_DELAY
                    (1000 * restartSeconds (settings (context s)))].
Proof.
  intros now fresh [[c st] ctx ch stat o] sub r Hstat Hst Hch.
  cbn in Hstat, Hst, Hch. subst stat st ch.
  destruct c as [|[|]]; destruct sub;
    (eexists; split; [ evaluate; reflexivity | repeat split ]).
Qed.

(** The stream region leaves [running] for [restarting] on
    [PIPELINE_ENDED] only. *)
Lemma running_to_restarting_on_PIPELINE_ENDED_only : forall now fresh s e o sub,
  macrostep now fresh s e = Some o ->
  stream_value (value s) = Running sub ->
  stream_value (value (o_snapshot o)) = Restarting ->
  e = PIPELINE_ENDED.
Proof.
  intros now fresh [[c st] ctx ch stat oi] e o sub Hstep Hst.
  cbn in Hst. subst st. revert o Hstep.
  destruct c as [|[|]]; destruct sub, ch, stat, e; by_outcome;
    cbv -[Z.mul Z.add Service.setTimeout]; intros H; first [ reflexivity | discriminate H ].
Qed.

(** The machine after a step: as before, or as the transition on the
    delivered event leaves it. *)
Lemma step_machine : forall now sys i,
  machine (fst (step now sys i)) = machine sys
  \/ exists sys0 ev o,
       delivered now sys i = Some (sys0, ev)
       /\ status (machine sys) = status_active
       /\ macrostep now (spawned sys) (machine sys) ev = Some o
       /\ value (machine (fst (step now sys i))) = value (o_snapshot o).
Proof.
  intros now sys i. rewrite step_spec.
  destruct (delivered now sys i) as [[sys0 ev]|] eqn:Hd; [ | now left ].
  destruct (delivered_same _ _ _ _ _ Hd) as (_ & Hm & _ & Hs & _).
  destruct (status (machine sys0)) eqn:Hstatus; [ | now left ].
  destruct (macrostep now (spawned sys0) (machine sys0) ev) as [o|] eqn:Hstep;
    [ | now left ].
  right. exists sys0, ev, o. rewrite <- Hm, <- Hs.
  split; [ reflexivity | split; [ exact Hstatus | split; [ exact Hstep | ] ] ].
  unfold settled. destruct (status (o_snapshot o)); [ | reflexivity ].
  cbn [fst]. destruct (r_mailbox _); reflexivity.
Qed.

(** C5. In every state the service can reach, an event that an engine
    other than the machine's current child sends back is dropped: the
    system is unchanged and nothing is output; in particular it causes no
    transition out of [running].  (A torn-down engine is a stopped actor,
    and [sendBack] of a stopped actor does nothing.)  [PIPELINE_ENDED] from
    the current child takes the stream region to [restarting] and stops
    that engine, and no other input takes the region from [running] to
    [restarting]. *)
Theorem C5_stale_engine_events_are_dropped :
  forall cfg trace now r,
    (children (machine (fst (run (init cfg) trace))) <> Some r ->
     forall e, step now (fst (run (init cfg) trace)) (sendBack r e)
               = (fst (run (init cfg) trace), []))
    /\ (children (machine (fst (run (init cfg) trace))) = Some r ->
        status (machine (fst (run (init cfg) trace))) = status_active ->
        stream_value (value (machine
          (fst (step now (fst (run (init cfg) trace))
                  (sendBack r status_PIPELINE_ENDED))))) = Restarting
        /\ actors (fst (step now (fst (run (init cfg) trace))
                          (sendBack r status_PIPELINE_ENDED))) r = actor_stopped)
    /\ (forall i sub,
          stream_value (value (machine (fst (run (init cfg) trace)))) = Running sub ->
          stream_value (value (machine (fst (step now (fst (run (init cfg) trace)) i))))
          = Restarting ->
          exists engine,
            i = sendBack engine status_PIPELINE_ENDED
            /\ children (machine (fst (run (init cfg) trace))) = Some engine).
Proof.
  intros cfg trace now r.
  pose proof (engines_consistent_run cfg trace) as Hinv.
  set (sys := fst (run (init cfg) trace)) in *.
  split; [ | split ].
  - intros Hstale e. rewrite step_spec. cbn [delivered].
    destruct (actors sys r) eqn:Hr; try reflexivity.
    destruct (status (machine sys)) eqn:Hstatus; [ | reflexivity ].
    destruct (Hinv Hstatus) as (_ & Hact & _). apply Hact in Hr. contradiction.
  - intros Hchild Hstatus.
    destruct (Hinv Hstatus) as (Hwf & Hact & _).
    assert (Hr : actors sys r = actor_active) by now apply Hact.
    assert (Hrun : exists sub, stream_value (value (machine sys)) = Running sub)
      by (apply Hwf; congruence).
    destruct Hrun as [sub Hsub].
    destruct (PIPELINE_ENDED_while_running now (spawned sys) _ _ _ Hstatus Hsub Hchild)
      as (o & Hstep & Hso & Hstream & Heff).
    rewrite step_spec. cbn [delivered status_event]. rewrite Hr, Hstatus, Hstep.
    unfold settled. rewrite Hso, Heff.
    cbn [fold_left execute r_mailbox r_actors r_timers r_outputs fst machine actors].
    split; [ exact Hstream | apply set_actor_same ].
  - intros i sub Hsub Hafter.
    destruct (step_machine now sys i) as [Hsame | (sys0 & ev & o & Hd & Hstatus & Hstep & Hval)].
    + rewrite Hsame in Hafter. congruence.
    + rewrite Hval in Hafter.
      pose proof (running_to_restarting_on_PIPELINE_ENDED_only _ _ _ _ _ _ Hstep Hsub Hafter)
        as ->.
      destruct (Hinv Hstatus) as (_ & Hact & _).
      destruct i as [a | engine x | d]; cbn in Hd.
      * destruct a; discriminate Hd.
      * destruct (actors sys engine) eqn:Hengine; try discriminate Hd.
        exists engine. apply Hact in Hengine. destruct x; [ auto | discriminate Hd ].
      * destruct (timers sys (after_event d)); [ | discriminate Hd ].
        destruct (_ <=? _); [ | discriminate Hd ]. destruct d; discriminate Hd.
Qed.

Lemma C5_witness :
  step 9 (fst (run (init default_settings)
                 [(0, send api_START); (1, send api_STOP); (2, send api_START)]))
    (sendBack 0%nat status_PIPELINE_ENDED)
  = (fst (run (init default_settings)
            [(0, send api_START); (1, send api_STOP); (2, send api_START)]), [])
  /\ stream_value (value (machine
       (fst (step 9 (fst (run (init default_settings)
                            [(0, send api_START); (1, send api_STOP);
                             (2, send api_START)]))
               (sendBack 1%nat status_PIPELINE_ENDED))))) = Restarting.
Proof.
  split.
  - apply (C5_stale_engine_events_are_dropped default_settings
             [(0, send api_START); (1, send api_STOP); (2, send api_START)] 9 0%nat).
    vm_compute. discriminate.
  - apply (C5_stale_engine_events_are_dropped default_settings
             [(0, send api_START); (1, send api_STOP); (2, send api_START)] 9 1%nat).
    + vm_compute. reflexivity.
    + vm_compute. reflexivity.
Defined.

(** ** The release delay *)

(** What the interpreter makes of the censorship region, event by event
    (Lemma [censorship_region_step]): [CENSOR] is handled in [normal] only,
    [UNCENSOR] in [censored] (both substates), and the release timer's
    event in [censored.deactivating]. *)
Definition censor_next (c : CensorshipValue) (e : EventType) : CensorshipValue :=
  match c, e with
  | Normal, CENSOR => Censored Active
  | Censored _, UNCENSOR => Censored Deactivating
  | Censored Deactivating, xstate_after_STREAM_DELAY => Normal
  | _, _ => c
  end.

(** And of the release timer (same lemma): (re)started by [UNCENSOR] in
    [censored], cancelled on leaving [censored.deactivating]. *)
Definition release_timer_next (now : Z) (c : CensorshipValue) (e : EventType)
  (delay : Z) (t : option Z) : option Z :=
  match c, e with
  | Censored _, UNCENSOR => Some (now + setTimeout delay)
  | Censored Deactivating, xstate_after_STREAM_DELAY => None
  | _, _ => t
  end.

Lemma censorship_region_step : forall now fresh s e o,
  macrostep now fresh s e = Some o ->
  status s = status_active ->
  status (o_snapshot o) = status_active ->
  settings (context (o_snapshot o)) = settings (context s)
  /\ censorship_value (value (o_snapshot o)) = censor_next (censorship_value (value s)) e
  /\ (forall tm,
        fold_left (apply_timer now) (o_effects o) tm xstate_after_STREAM_DELAY
        = release_timer_next now (censorship_value (value s)) e
            (1000 * delaySeconds (settings (context s)))
            (tm xstate_after_STREAM_DELAY))
  /\ (forall r, In (SendTo r RENDER_NORMAL) (o_effects o) ->
                censorship_value (value (o_snapshot o)) = Normal).
Proof.
  intros now fresh [[c st] ctx ch stat oi] e o Hstep Hstat.
  cbn in Hstat. subst stat. revert o Hstep.
  destruct_value c st; destruct ch, e; by_outcome;
    cbv -[Z.mul Z.add Service.setTimeout]; intros Hactive; try discriminate Hactive;
    (split; [ reflexivity | split; [ reflexivity | split; [ reflexivity | ] ] ]);
    intros r Hin;
    repeat (destruct Hin as [Hin | Hin]; [ try discriminate Hin | ]);
    try contradiction; reflexivity.
Qed.

(** A step that stops the machine has no effect. *)
Lemma failed_step_has_no_effect : forall now fresh s e o,
  macrostep now fresh s e = Some o ->
  status s = status_active ->
  status (o_snapshot o) = status_error ->
  o_effects o = [] /\ value (o_snapshot o) = value s.
Proof.
  intros now fresh [[c st] ctx ch stat oi] e o Hstep Hstat.
  cbn in Hstat. subst stat. revert o Hstep.
  destruct_value c st; destruct ch, e; by_outcome;

      cbv -[Z.mul Z.add Service.setTimeout]; intros Herror; try discriminate Herror; split; reflexivity.
Qed.

(** What a step does to the censorship region, the release timer and the
    render commands.  Either the step changes nothing there and outputs
    nothing (no event was delivered, or the machine has stopped or stops),
    or the machine processed the delivered event. *)
Lemma step_censorship : forall now sys i,
  (snd (step now sys i) = []
   /\ value (machine (fst (step now sys i))) = value (machine sys)
   /\ (status (machine (fst (step now sys i))) = status_active ->
       delivered now sys i = None
       /\ status (machine sys) = status_active
       /\ settings (context (machine (fst (step now sys i))))
          = settings (context (machine sys))
       /\ timers (fst (step now sys i)) xstate_after_STREAM_DELAY
          = timers sys xstate_after_STREAM_DELAY))
  \/ (exists sys0 ev,
        delivered now sys i = Some (sys0, ev)
        /\ status (machine sys) = status_active
        /\ censorship_value (value (machine (fst (step now sys i))))
           = censor_next (censorship_value (value (machine sys))) ev
        /\ (forall r, In (Render r RENDER_NORMAL) (snd (step now sys i)) ->
                      censorship_value (value (machine (fst (step now sys i)))) = Normal)
        /\ (status (machine (fst (step now sys i))) = status_active ->
            settings (context (machine (fst (step now sys i))))
            = settings (context (machine sys))
            /\ timers (fst (step now sys i)) xstate_after_STREAM_DELAY
               = release_timer_next now (censorship_value (value (machine sys))) ev
                   (1000 * delaySeconds (settings (context (machine sys))))
                   (timers sys0 xstate_after_STREAM_DELAY))).
Proof.
  intros now sys i. rewrite step_spec.
  destruct (delivered now sys i) as [[sys0 ev]|] eqn:Hd.
  2:{ left. cbn. repeat split; auto. }
  destruct (delivered_same _ _ _ _ _ Hd) as (_ & Hm & _ & Hs & _).
  destruct (status (machine sys0)) eqn:Hstatus.
  2:{ left. cbn. rewrite Hm. split; [ reflexivity | split; [ reflexivity | ] ].
      rewrite <- Hm. intros H. congruence. }
  destruct (macrostep now (spawned sys0) (machine sys0) ev) as [o|] eqn:Hstep.
  2:{ now elim (macrostep_total _ _ _ _ Hstep). }
  unfold settled.
  pose proof (execute_timers now (o_effects o)
                {| r_timers := timers sys0; r_actors := actors sys0;
                   r_outputs := []; r_mailbox := [] |}) as Htimers.
  pose proof (execute_outputs now (o_effects o)
                {| r_timers := timers sys0; r_actors := actors sys0;
                   r_outputs := []; r_mailbox := [] |}) as Houts.
  set (st := fold_left (execute now) (o_effects o) _) in *.
  cbn [r_timers r_outputs] in Htimers, Houts.
  destruct (status (o_snapshot o)) eqn:Hso.
  - right. exists sys0, ev.
    destruct (censorship_region_step _ _ _ _ _ Hstep Hstatus Hso)
      as (Hset & Hcens & Htm & Hrender).
    rewrite <- Hm. split; [ reflexivity | split; [ exact Hstatus | ] ].
    assert (Hvalue : value (machine (match r_mailbox st with
                                     | [] => {| argv := argv sys0; machine := o_snapshot o;
                                                timers := r_timers st; actors := r_actors st;
                                                spawned := o_nextRef o;
                                                lastSnapshot :=
                                                  fst (subscriber (argv sys0)
                                                         (lastSnapshot sys0) (o_snapshot o)) |}
                                     | _ :: _ =>
                                         halt {| argv := argv sys0; machine := o_snapshot o;
                                                 timers := r_timers st; actors := r_actors st;
                                                 spawned := o_nextRef o;
                                                 lastSnapshot :=
                                                   fst (subscriber (argv sys0)
                                                          (lastSnapshot sys0) (o_snapshot o)) |}
                                     end))
                     = value (o_snapshot o))
      by (destruct (r_mailbox st); reflexivity).
    cbn [fst snd]. rewrite Hvalue.
    split; [ exact Hcens | split ].
    + intros r Hin. apply in_app_or in Hin. destruct Hin as [Hin | Hin].
      * apply Houts in Hin.
        destruct Hin as [[] | [(r' & c & Heq & Hin) | (ev' & Heq & _)]];
          [ | discriminate Heq ].
        injection Heq as <- <-. exact (Hrender _ Hin).
      * apply in_map_iff in Hin. destruct Hin as (x & Hx & _). discriminate Hx.
    + destruct (r_mailbox st); cbn; [ | discriminate ].
      intros _. split; [ exact Hset | ]. rewrite Htimers. apply Htm.
  - left. destruct (failed_step_has_no_effect _ _ _ _ _ Hstep Hstatus Hso) as (Heff & Hval).
    subst st. rewrite Heff. cbn. rewrite Hso, Hval, Hm.
    split; [ reflexivity | split; [ reflexivity | discriminate ] ].
Qed.

(** One step of a run, with the time [s_last_uncensor] that a given way of
    keeping track of the last [UNCENSOR] reports after the step's input. *)
Record Step := {
  s_time : Z;
  s_input : Input;
  s_before : System;
  s_after : System;
  s_outputs : list Output;
  s_last_uncensor : option Z
}.

Fixpoint history (track : Z -> System -> Input -> option Z -> option Z)
  (sys : System) (last : option Z) (trace : list (Z * Input)) : list Step :=
  match trace with
  | [] => []
  | (now, i) :: rest =>
      {| s_time := now; s_input := i; s_before := sys;
         s_after := fst (step now sys i); s_outputs := snd (step now sys i);
         s_last_uncensor := track now sys i last |}
      :: history track (fst (step now sys i)) (track now sys i last) rest
  end.

(** The time of the last [UNCENSOR] that no [CENSOR] followed. *)
Definition last_UNCENSOR (now : Z) (sys : System) (i : Input) (last : option Z)
  : option Z :=
  match i with
  | send api_UNCENSOR => Some now
  | send api_CENSOR => None
  | _ => last
  end.

(** The same, counting an [UNCENSOR] only when it is received while the
    censorship region is censored. *)
Definition last_UNCENSOR_while_censored (now : Z) (sys : System) (i : Input)
  (last : option Z) : option Z :=
  match i with
  | send api_UNCENSOR =>
      match censorship_value (value (machine sys)) with
      | Censored _ => Some now
      | Normal => last
      end
  | send api_CENSOR => None
  | _ => last
  end.

Fixpoint nondecreasing_from (t0 : Z) (trace : list (Z * Input)) : Prop :=
  match trace with
  | [] => True
  | (now, _) :: rest => t0 <= now /\ nondecreasing_from now rest
  end.

(** Time does not run backwards along a trace. *)
Definition nondecreasing (trace : list (Z * Input)) : Prop :=
  match trace with
  | [] => True
  | (now, _) :: rest => nondecreasing_from now rest
  end.

(** The delay property of one step: a [RENDER_NORMAL] reaches an engine
    only in a step that ends in [normal], and no earlier after the reported
    [UNCENSOR] than the release timer runs (the [setTimeout] of
    [1000 * delaySeconds]); and the censorship region goes from [censored]
    to [normal] only when the release timer fires, which it does no earlier
    than it is due. *)
Definition delay_respected (cfg : AppSettings) (st : Step) : Prop :=
  (forall r, In (Render r RENDER_NORMAL) (s_outputs st) ->
     censorship_value (value (machine (s_after st))) = Normal
     /\ forall T, s_last_uncensor st = Some T ->
                  T + setTimeout (1000 * delaySeconds cfg) <= s_time st)
  /\ (censorship_value (value (machine (s_before st))) <> Normal ->
      censorship_value (value (machine (s_after st))) = Normal ->
      s_input st = timeout STREAM_DELAY
      /\ exists due, timers (s_before st) xstate_after_STREAM_DELAY = Some due
                     /\ due <= s_time st).

(** C1 as stated fails: an [UNCENSOR] received in [normal] changes nothing
    and starts no delay.  With the default 15 seconds, [UNCENSOR] at 0 ms,
    [START] at 1 ms and the engine's [PIPELINE_STARTED] at 2 ms, the engine
    gets [RENDER_NORMAL] at 2 ms, although the last [UNCENSOR] was at 0 and
    no [CENSOR] followed it. *)
Lemma C1_UNCENSOR_while_normal_starts_no_delay :
  nondecreasing [(0, send api_UNCENSOR); (1, send api_START);
                 (2, sendBack 0%nat status_PIPELINE_STARTED)]
  /\ exists st,
       In st (history last_UNCENSOR (init default_settings) None
                [(0, send api_UNCENSOR); (1, send api_START);
                 (2, sendBack 0%nat status_PIPELINE_STARTED)])
       /\ In (Render 0%nat RENDER_NORMAL) (s_outputs st)
       /\ s_last_uncensor st = Some 0
       /\ s_time st = 2
       /\ ~ (0 + 1000 * delaySeconds default_settings <= s_time st).
Proof.
  split; [ cbn; lia | ].
  eexists. split; [ cbn [history]; right; right; left; reflexivity | ].
  cbn [s_outputs s_last_uncensor s_time last_UNCENSOR].
  split; [ vm_compute; left; reflexivity | ].
  split; [ reflexivity | split; [ reflexivity | cbn; lia ] ].
Qed.

(** What holds between steps while the machine runs, [t0] being the time
    of the last step and [last] the time of the last [UNCENSOR] received
    while censored and not followed by a [CENSOR]: in [normal] the delay
    since [last] is over; in [censored.active] there is no such [UNCENSOR];
    in [censored.deactivating] the release timer is not due before the
    delay since [last] is over. *)
Definition delay_invariant (cfg : AppSettings) (t0 : Z) (sys : System)
  (last : option Z) : Prop :=
  status (machine sys) = status_active ->
  settings (context (machine sys)) = cfg
  /\ match censorship_value (value (machine sys)) with
     | Normal => forall T, last = Some T -> T + setTimeout (1000 * delaySeconds cfg) <= t0
     | Censored Active => last = None
     | Censored Deactivating =>
         forall T due,
           last = Some T ->
           timers sys xstate_after_STREAM_DELAY = Some due ->
           T + setTimeout (1000 * delaySeconds cfg) <= due
     end.

Lemma delay_invariant_step : forall cfg t0 now sys last i,
  t0 <= now ->
  delay_invariant cfg t0 sys last ->
  delay_invariant cfg now (fst (step now sys i))
    (last_UNCENSOR_while_censored now sys i last)
  /\ delay_respected cfg
       {| s_time := now; s_input := i; s_before := sys;
          s_after := fst (step now sys i); s_outputs := snd (step now sys i);
          s_last_uncensor := last_UNCENSOR_while_censored now sys i last |}.
Proof.
  intros cfg t0 now sys last i Hle Hinv.
  unfold delay_respected, delay_invariant in *.
  cbn [s_time s_input s_before s_after s_outputs s_last_uncensor].
  destruct (step_censorship now sys i)
    as [(Hout & Hval & Hact)
       | (sys0 & ev & Hd & Hstatus & Hcens & Hrender & Hact)].
  - (* nothing delivered, or the machine has stopped *)
    rewrite Hout, Hval. split; [ | split; [ intros r [] | intros H1 H2; now elim H1 ] ].
    intros Hactive. destruct (Hact Hactive) as (Hnone & Hstatus & Hset & Htm).
    destruct (Hinv Hstatus) as (Hcfg & Hc). rewrite Hset, Htm.
    split; [ exact Hcfg | ].
    assert (Hlast : last_UNCENSOR_while_censored now sys i last = last)
      by (destruct i as [e | r e | d]; [ discriminate Hnone | reflexivity | reflexivity ]).
    rewrite Hlast.
    destruct (censorship_value (value (machine sys))) as [|[|]]; auto.
    intros T HT. specialize (Hc T HT). lia.
  - (* the machine processed [ev] *)
    destruct (Hinv Hstatus) as (Hcfg & Hc). rewrite Hcfg in Hact.
    assert (Hlink :
              (exists a, i = send a /\ ev = api_event a /\ sys0 = sys)
              \/ (exists r x, i = sendBack r x /\ ev = status_event x /\ sys0 = sys)
              \/ (exists d due, i = timeout d /\ ev = after_event d
                                /\ timers sys (after_event d) = Some due /\ due <= now
                                /\ timers sys0 = set_timer (after_event d) None (timers sys))).
    { destruct i as [a | r x | d]; cbn in Hd.
      - left. exists a. injection Hd as <- <-. auto.
      - right; left. exists r, x. destruct (actors sys r); try discriminate Hd.
        injection Hd as <- <-. auto.
      - right; right. destruct (timers sys (after_event d)) as [due|] eqn:Hdue;
          [ | discriminate Hd ].
        destruct (due <=? now) eqn:Hdue'; [ | discriminate Hd ].
        apply Z.leb_le in Hdue'. exists d, due. injection Hd as <- <-. cbn. auto. }
    rewrite Hcens in Hrender |- *. clear Hd Hinv Hcens.
    destruct Hlink as [(a & -> & -> & ->)
                      | [(r & x & -> & -> & ->)
                        | (d & due & -> & -> & Hdue & Hdue' & Htm0)]].
    + (* an event of the API *)
      destruct a; destruct (censorship_value (value (machine sys))) as [|[|]] eqn:Hcv;
        cbn [api_event censor_next release_timer_next last_UNCENSOR_while_censored] in *;
        rewrite ?Hcv in *;
        (split; [ intros Hactive; destruct (Hact Hactive) as (Hset & Htm);
                  split; [ exact Hset | ]; rewrite ?Htm;
                  first [ reflexivity | exact Hc
                        | intros T HT; specialize (Hc T HT); lia
                        | intros T due HT Hd;
                          assert (now = T) by congruence;
                          assert (now + setTimeout (1000 * delaySeconds cfg) = due) by congruence;
                          lia
                        | discriminate ]
                | split;
                  [ intros r Hin; specialize (Hrender r Hin);
                    first [ discriminate Hrender
                          | split; [ reflexivity
                                   | intros T HT; specialize (Hc T HT); lia ] ]
                  | intros H1 H2; first [ now elim H1 | discriminate H2 ] ] ]).
    + (* an event of the engine *)
      destruct x; destruct (censorship_value (value (machine sys))) as [|[|]] eqn:Hcv;
        cbn [status_event censor_next release_timer_next last_UNCENSOR_while_censored] in *;
        (split; [ intros Hactive; destruct (Hact Hactive) as (Hset & Htm);
                  split; [ exact Hset | ]; rewrite ?Htm;
                  first [ exact Hc | intros T HT; specialize (Hc T HT); lia ]
                | split;
                  [ intros r' Hin; specialize (Hrender r' Hin);
                    first [ discriminate Hrender
                          | split; [ reflexivity
                                   | intros T HT; specialize (Hc T HT); lia ] ]
                  | intros H1 H2; first [ now elim H1 | discriminate H2 ] ] ]).
    + (* a timer *)
      rewrite Htm0 in Hact.
      destruct d; destruct (censorship_value (value (machine sys))) as [|[|]] eqn:Hcv;
        cbn [after_event censor_next release_timer_next last_UNCENSOR_while_censored
             set_timer event_eqb] in *;
        (split; [ intros Hactive; destruct (Hact Hactive) as (Hset & Htm);
                  split; [ exact Hset | ]; rewrite ?Htm;
                  first [ exact Hc
                        | intros T HT; specialize (Hc T HT); lia
                        | intros T HT; specialize (Hc T due HT Hdue); lia
                        | intros T due' HT Hd; discriminate Hd ]
                | split;
                  [ intros r Hin; specialize (Hrender r Hin);
                    first [ discriminate Hrender
                          | split; [ reflexivity | intros T HT ];
                            first [ specialize (Hc T HT); lia
                                  | specialize (Hc T due HT Hdue); lia ] ]
                  | intros H1 H2;
                    first [ now elim H1 | discriminate H2
                          | split; [ reflexivity | exists due; auto ] ] ] ]).
Qed.

Lemma delay_respected_history : forall cfg trace t0 sys last st,
  nondecreasing_from t0 trace ->
  delay_invariant cfg t0 sys last ->
  In st (history last_UNCENSOR_while_censored sys last trace) ->
  delay_respected cfg st.
Proof.
  intros cfg trace; induction trace as [|[now i] rest IH];
    intros t0 sys last st Htrace Hinv Hin; [ now elim Hin | ].
  destruct Htrace as (Hle & Hrest).
  destruct (delay_invariant_step cfg t0 now sys last i Hle Hinv) as (Hinv' & Hstep).
  cbn [history] in Hin. destruct Hin as [<- | Hin]; [ exact Hstep | ].
  exact (IH now _ _ st Hrest Hinv' Hin).
Qed.

Lemma delay_invariant_init : forall cfg t0, delay_invariant cfg t0 (init cfg) None.
Proof. intros cfg t0 _. split; [ reflexivity | cbn; discriminate ]. Qed.

(** Within its range [setTimeout] delays by what it is given, and it never
    delays by less than a delay that is not above [TIMEOUT_MAX]. *)
Lemma setTimeout_in_range : forall after,
  1 <= after <= TIMEOUT_MAX -> setTimeout after = after.
Proof.
  intros after H. unfold setTimeout.
  destruct (1 <=? after) eqn:H1; destruct (after <=? TIMEOUT_MAX) eqn:H2; cbn [andb];
    try reflexivity; lia.
Qed.

Lemma setTimeout_out_of_range : forall after,
  after < 1 \/ TIMEOUT_MAX < after -> setTimeout after = 1.
Proof.
  intros after H. unfold setTimeout.
  destruct (1 <=? after) eqn:H1; destruct (after <=? TIMEOUT_MAX) eqn:H2; cbn [andb];
    try reflexivity; lia.
Qed.

Lemma setTimeout_ge : forall after, after <= TIMEOUT_MAX -> after <= setTimeout after.
Proof.
  intros after H. destruct (Z_lt_le_dec after 1) as [Hlt | Hge].
  - rewrite setTimeout_out_of_range by (left; exact Hlt). lia.
  - rewrite setTimeout_in_range by (split; assumption). lia.
Qed.

(** The delay property in terms of the configured delay. *)
Definition release_delay_respected (cfg : AppSettings) (st : Step) : Prop :=
  (forall r, In (Render r RENDER_NORMAL) (s_outputs st) ->
     censorship_value (value (machine (s_after st))) = Normal
     /\ forall T, s_last_uncensor st = Some T ->
                  T + 1000 * delaySeconds cfg <= s_time st)
  /\ (censorship_value (value (machine (s_before st))) <> Normal ->
      censorship_value (value (machine (s_after st))) = Normal ->
      s_input st = timeout STREAM_DELAY
      /\ exists due, timers (s_before st) xstate_after_STREAM_DELAY = Some due
                     /\ due <= s_time st).

(** C1, amended. Along every run of the service from its start, with time
    not running backwards, and a delay of [1000 * delaySeconds] ms that is
    not above [TIMEOUT_MAX], the longest delay of [setTimeout]: the engine
    receives [RENDER_NORMAL] only in a step that leaves the censorship
    region in [normal], and then at least [delaySeconds] have passed since
    the last [UNCENSOR] that was received while the region was censored and
    that no [CENSOR] followed; the region goes from [censored] to [normal]
    only in the step of the release timer firing, which it does no earlier
    than it is due. *)
Theorem C1_release_delay :
  forall cfg trace st,
    1000 * delaySeconds cfg <= TIMEOUT_MAX ->
    nondecreasing trace ->
    In st (history last_UNCENSOR_while_censored (init cfg) None trace) ->
    (forall r, In (Render r RENDER_NORMAL) (s_outputs st) ->
       censorship_value (value (machine (s_after st))) = Normal
       /\ forall T, s_last_uncensor st = Some T ->
                    T + 1000 * delaySeconds cfg <= s_time st)
    /\ (censorship_value (value (machine (s_before st))) <> Normal ->
        censorship_value (value (machine (s_after st))) = Normal ->
        s_input st = timeout STREAM_DELAY
        /\ exists due, timers (s_before st) xstate_after_STREAM_DELAY = Some due
                       /\ due <= s_time st).
Proof.
  intros cfg trace st Hmax Htrace Hin.
  destruct trace as [|[now i] rest]; [ now elim Hin | ].
  assert (H : delay_respected cfg st).
  { apply (delay_respected_history cfg ((now, i) :: rest) now (init cfg) None st).
    - split; [ lia | exact Htrace ].
    - apply delay_invariant_init.
    - exact Hin. }
  destruct H as (Hrender & Hrelease). split; [ | exact Hrelease ].
  intros r Hr. destruct (Hrender r Hr) as (Hnormal & Hdelay).
  split; [ exact Hnormal | ].
  intros T HT. specialize (Hdelay T HT).
  pose proof (setTimeout_ge _ Hmax). lia.
Qed.

(** The scenario of a censored stretch: the engine starts, [CENSOR] and
    [UNCENSOR] at 0 ms, the release timer fires at 15000 ms. *)
Definition censored_stretch : list (Z * Input) :=
  [(0, send api_START); (0, sendBack 0%nat status_PIPELINE_STARTED);
   (0, send api_CENSOR); (0, send api_UNCENSOR); (15000, timeout STREAM_DELAY)].

Lemma C1_witness :
  1000 * delaySeconds default_settings <= TIMEOUT_MAX
  /\ nondecreasing censored_stretch
  /\ Forall (release_delay_respected default_settings)
       (history last_UNCENSOR_while_censored (init default_settings) None censored_stretch).
Proof.
  split; [ vm_compute; discriminate | split; [ cbn; lia | ] ].
  unfold censored_stretch at 1. cbn [history].
  repeat apply Forall_cons; try apply Forall_nil;
    (apply (C1_release_delay default_settings censored_stretch);
     [ vm_compute; discriminate
     | cbn; lia
     | unfold censored_stretch; cbn [history In];
       repeat first [ left; reflexivity | right ] ]).
Defined.

(** The bound on the delay is needed.  With [delaySeconds = 2147484] the
    delay of 2147484000 ms is above [TIMEOUT_MAX], the release timer is set
    to 1 ms, and the engine is told to render normally 1 ms after the
    [UNCENSOR]. *)
Definition settings_with_long_delay : AppSettings :=
  {| width := 1920; height := 1080; srtInUri := Some "srt://localhost:9000"%string;
     outUri := Some "rtmp://localhost/live"%string; outScript := None;
     delaySeconds := 2147484; restartSeconds := 3; bitrate := 4500;
     encoder := "x264"; x264Preset := "slow"; x264PsyTune := "none";
     x264Threads := 0; nvencPreset := "low-latency-hq"; pixelizeScale := 20;
     overlayImg := "overlay.png"; debug := None; inPipeline := None;
     outPipeline := None |}.

Example release_delay_above_TIMEOUT_MAX :
  TIMEOUT_MAX < 1000 * delaySeconds settings_with_long_delay
  /\ timers (fst (run (init settings_with_long_delay) (firstn 4 censored_stretch)))
       xstate_after_STREAM_DELAY = Some 1
  /\ snd (step 1 (fst (run (init settings_with_long_delay) (firstn 4 censored_stretch)))
            (timeout STREAM_DELAY))
     = [Render 0%nat RENDER_NORMAL; Render 0%nat RENDER_NORMAL;
        Broadcast (formatStatus settings_with_long_delay
                     (machine (fst (step 1 (fst (run (init settings_with_long_delay)
                                                   (firstn 4 censored_stretch)))
                                      (timeout STREAM_DELAY)))))]
  /\ censorship_value (value (machine
       (fst (step 1 (fst (run (init settings_with_long_delay) (firstn 4 censored_stretch)))
               (timeout STREAM_DELAY))))) = Normal.
Proof. vm_compute. repeat split; reflexivity. Qed.

(** In that scenario the engine is told to render normally at 15000 ms. *)
Example censored_stretch_outputs :
  map (fun st => (s_time st, s_outputs st))
      (history last_UNCENSOR_while_censored (init default_settings) None censored_stretch)
  = [(0, [Broadcast (formatStatus default_settings
                       (machine (fst (run (init default_settings)
                                        [(0, send api_START)]))))]);
     (0, [Render 0%nat RENDER_NORMAL;
          Broadcast (formatStatus default_settings
                       (machine (fst (run (init default_settings)
                                        (firstn 2 censored_stretch)))))]);
     (0, [Render 0%nat RENDER_CENSORED; Render 0%nat RENDER_CENSORED;
          Broadcast (formatStatus default_settings
                       (machine (fst (run (init default_settings)
                                        (firstn 3 censored_stretch)))))]);
     (0, [Render 0%nat RENDER_CENSORED;
          Broadcast (formatStatus default_settings
                       (machine (fst (run (init default_settings)
                                        (firstn 4 censored_stretch)))))]);
     (15000, [Render 0%nat RENDER_NORMAL; Render 0%nat RENDER_NORMAL;
              Broadcast (formatStatus default_settings
                           (machine (fst (run (init default_settings)
                                            censored_stretch))))])].
Proof. vm_compute. reflexivity. Qed.

(** ** The status broadcast *)

(** The status messages among the outputs of a step. *)
Definition broadcasts (outs : list Output) : list StatusResponse :=
  flat_map (fun out => match out with Broadcast st => [st] | _ => [] end) outs.

Lemma broadcasts_app : forall a b, broadcasts (a ++ b) = broadcasts a ++ broadcasts b.
Proof. intros a b. unfold broadcasts. apply flat_map_app. Qed.

Lemma broadcasts_map : forall msgs, broadcasts (map Broadcast msgs) = msgs.
Proof.
  induction msgs as [|m msgs IH]; [ reflexivity | ].
  cbn. unfold broadcasts in IH. rewrite IH. reflexivity.
Qed.

Lemma execute_broadcasts : forall now effs st,
  broadcasts (r_outputs (fold_left (execute now) effs st)) = broadcasts (r_outputs st).
Proof.
  intros now effs; induction effs as [|e effs IH]; intros st; [ reflexivity | ].
  cbn [fold_left]. rewrite IH.
  destruct e as [id d|id|r c|r input|r|ev]; cbn; try reflexivity.
  - destruct (r_actors st r); try reflexivity.
    cbn. rewrite broadcasts_app. cbn. apply app_nil_r.
  - destruct (r_actors st r); try reflexivity; destruct (runPipeline input); reflexivity.
  - rewrite broadcasts_app. cbn. apply app_nil_r.
Qed.

(** The snapshot after a step is the same object as before only when the
    step changed nothing. *)
Lemma same_object_same_snapshot : forall now fresh s e o,
  macrostep now fresh s e = Some o ->
  same_object (o_snapshot o) s = true ->
  o_snapshot o = s.
Proof.
  intros now fresh [[c st] ctx ch stat oi] e o Hstep. revert o Hstep.
  destruct_value c st; destruct ch, stat, e; by_outcome;
    cbv -[Z.mul Z.add Service.setTimeout same_object]; intros Hsame;
    try reflexivity;
    unfold same_object in Hsame; cbn [oid] in Hsame;
    apply Nat.eqb_eq in Hsame; lia.
Qed.

(** C8 as stated fails: two consecutive snapshots can be equal in every
    field that a status shows and still be two objects.  When the engine reports
    [PIPELINE_STARTED] twice within one millisecond, [started] is left and
    entered again with the same [startTime].  The second status message is
    then sent although it equals the first. *)
Definition service_started : System :=
  fst (run (init default_settings)
         [(0, send api_START); (5, sendBack 0%nat status_PIPELINE_STARTED)]).

Lemma C8_equal_snapshots_are_both_broadcast :
  lastSnapshot service_started = Some (machine service_started)
  /\ value (machine (fst (step 5 service_started
                            (sendBack 0%nat status_PIPELINE_STARTED))))
     = value (machine service_started)
  /\ context (machine (fst (step 5 service_started
                              (sendBack 0%nat status_PIPELINE_STARTED))))
     = context (machine service_started)
  /\ formatStatus default_settings
       (machine (fst (step 5 service_started (sendBack 0%nat status_PIPELINE_STARTED))))
     = formatStatus default_settings (machine service_started)
  /\ broadcasts (snd (step 5 service_started (sendBack 0%nat status_PIPELINE_STARTED)))
     = [formatStatus default_settings (machine service_started)].
Proof. vm_compute. repeat split; reflexivity. Qed.

Lemma same_object_refl : forall s, same_object s s = true.
Proof. intros s. unfold same_object. apply Nat.eqb_refl. Qed.

(** A [CENSOR] sent again while the release timer runs is lost: with
    [CENSOR] and [UNCENSOR] at 0 ms and [CENSOR] again at 10000 ms, the
    timer still fires at 15000 ms and the engine is told to render
    normally. *)
Example recensoring_while_deactivating_is_lost :
  map (fun st => (s_time st, censorship_value (value (machine (s_after st))),
                  flat_map (fun out => match out with Render _ c => [c] | _ => [] end)
                           (s_outputs st)))
      (history last_UNCENSOR (init default_settings) None
         [(0, send api_START); (0, sendBack 0%nat status_PIPELINE_STARTED);
          (0, send api_CENSOR); (0, send api_UNCENSOR);
          (10000, send api_CENSOR); (15000, timeout STREAM_DELAY)])
  = [(0, Normal, []);
     (0, Normal, [RENDER_NORMAL]);
     (0, Censored Active, [RENDER_CENSORED; RENDER_CENSORED]);
     (0, Censored Deactivating, [RENDER_CENSORED]);
     (10000, Censored Deactivating, [RENDER_CENSORED]);
     (15000, Normal, [RENDER_NORMAL; RENDER_NORMAL])].
Proof. vm_compute. reflexivity. Qed.

(** ** Along every run *)

(** A property of the machine's snapshot that every transition preserves,
    and that does not depend on the status, holds along every run. *)
Lemma step_preserves : forall (P : MachineSnapshot -> Prop),
  (forall now fresh s e o, P s -> macrostep now fresh s e = Some o -> P (o_snapshot o)) ->
  (forall s, P s ->
             P (cloneMachineSnapshot s (value s) (context s) (children s) status_error)) ->
  forall now sys i, P (machine sys) -> P (machine (fst (step now sys i))).
Proof.
  intros P Hstep Hhalt now sys i H. rewrite step_spec.
  destruct (delivered now sys i) as [[sys0 ev]|] eqn:Hd; [ | exact H ].
  destruct (delivered_same _ _ _ _ _ Hd) as (_ & Hm & _).
  rewrite <- Hm in H.
  destruct (status (machine sys0)); [ | exact H ].
  destruct (macrostep now (spawned sys0) (machine sys0) ev) as [o|] eqn:Ho;
    [ | cbn [fst]; rewrite <- Hm; exact H ].
  pose proof (Hstep _ _ _ _ _ H Ho) as H'.
  unfold settled. destruct (status (o_snapshot o)); [ | exact H' ].
  cbn [fst]. destruct (r_mailbox _); [ exact H' | ].
  cbn [halt machine]. apply Hhalt, H'.
Qed.

(** [startTime] is set exactly in [running.started], in every state the
    service reaches. *)
Lemma startTime_invariant_run : forall cfg trace,
  startTime_invariant (machine (fst (run (init cfg) trace))).
Proof.
  intros cfg trace.
  apply (run_invariant (fun sys => startTime_invariant (machine sys))).
  - intros now sys i H. apply step_preserves; [ | auto | exact H ].
    intros now' fresh s e o Hs Ho.
    destruct (startTime_invariant_macrostep now' fresh s e Hs) as (o' & Ho' & Hinv).
    congruence.
  - apply startTime_invariant_init.
Qed.

(** The stream region never is in [error]. *)
Lemma Error_is_never_entered : forall cfg trace,
  stream_value (value (machine (fst (run (init cfg) trace)))) <> Error.
Proof.
  intros cfg trace.
  apply (run_invariant (fun sys => stream_value (value (machine sys)) <> Error)).
  - intros now sys i H. apply step_preserves; [ | auto | exact H ].
    intros now' fresh s e o Hs Ho Herr.
    apply Hs. exact (Error_has_no_incoming_transition _ _ _ _ _ Ho Herr).
  - discriminate.
Qed.

(** ** The timers

    xstate keeps one timer per event id.  The delayed event of an [after]
    block is scheduled on entering its state node and cancelled on leaving
    it, so a timer is pending only while its state node is active, and an
    id is never scheduled while its timer is pending. *)

Definition timers_follow (v : StateValue) (tm : EventType -> option Z) : Prop :=
  (tm xstate_after_STREAM_DELAY <> None -> censorship_value v = Censored Deactivating)
  /\ (tm xstate_after_RESTART_DELAY <> None -> stream_value v = Restarting).

(** No [Schedule] among the effects finds its timer pending. *)
Fixpoint schedules_fresh (now : Z) (effs : list Effect) (tm : EventType -> option Z)
  : Prop :=
  match effs with
  | [] => True
  | e :: rest =>
      match e with Schedule id _ => tm id = None | _ => True end
      /\ schedules_fresh now rest (apply_timer now tm e)
  end.

(** The timer of a delayed event is gone when the event is delivered. *)
Definition fired (e : EventType) (tm : EventType -> option Z) : Prop :=
  match e with
  | xstate_after_STREAM_DELAY => tm xstate_after_STREAM_DELAY = None
  | xstate_after_RESTART_DELAY => tm xstate_after_RESTART_DELAY = None
  | _ => True
  end.

Lemma macrostep_timers : forall now fresh s e o,
  macrostep now fresh s e = Some o ->
  status s = status_active ->
  status (o_snapshot o) = status_active ->
  forall tm,
    timers_follow (value s) tm ->
    fired e tm ->
    schedules_fresh now (o_effects o) tm
    /\ timers_follow (value (o_snapshot o)) (fold_left (apply_timer now) (o_effects o) tm).
Proof.
  intros now fresh [[c st] ctx ch stat oi] e o Hstep Hstat.
  cbn in Hstat. subst stat. revert o Hstep. unfold timers_follow, fired.
  destruct_value c st; destruct ch, e; by_outcome;
    cbv -[Z.mul Z.add Service.setTimeout]; intros Hactive tm [Hs Hr] Hfired;
    try discriminate Hactive;
    destruct (tm xstate_after_STREAM_DELAY) as [ds|] eqn:Hds;
    destruct (tm xstate_after_RESTART_DELAY) as [dr|] eqn:Hdr;
    try discriminate Hfired;
    try (assert (Hc : False)
           by (first [ discriminate Hs; discriminate
                     | discriminate Hr; discriminate ]); now elim Hc);
    repeat split; intros; try reflexivity; try congruence.
Qed.

Definition timers_consistent (sys : System) : Prop :=
  status (machine sys) = status_active ->
  timers_follow (value (machine sys)) (timers sys).

Lemma delivered_timers : forall now sys i sys0 ev,
  delivered now sys i = Some (sys0, ev) ->
  timers_follow (value (machine sys)) (timers sys) ->
  timers_follow (value (machine sys0)) (timers sys0) /\ fired ev (timers sys0).
Proof.
  intros now sys i sys0 ev Hd Hfollow. destruct i as [a | r x | d]; cbn in Hd.
  - injection Hd as <- <-. split; [ exact Hfollow | destruct a; exact I ].
  - destruct (actors sys r); try discriminate Hd. injection Hd as <- <-.
    split; [ exact Hfollow | destruct x; exact I ].
  - destruct (timers sys (after_event d)) as [due|]; [ | discriminate Hd ].
    destruct (due <=? now); [ | discriminate Hd ]. injection Hd as <- <-.
    destruct Hfollow as (Hs & Hr). unfold timers_follow.
    destruct d; cbn; (split; [ split; intros H; auto; now elim H | reflexivity ]).
Qed.

Lemma timers_consistent_step : forall now sys i,
  timers_consistent sys -> timers_consistent (fst (step now sys i)).
Proof.
  intros now sys i H. rewrite step_spec.
  destruct (delivered now sys i) as [[sys0 ev]|] eqn:Hd; [ | exact H ].
  destruct (delivered_same _ _ _ _ _ Hd) as (_ & Hm & _).
  destruct (status (machine sys0)) eqn:Hstatus.
  2:{ intros Hactive. cbn in Hactive. congruence. }
  destruct (macrostep now (spawned sys0) (machine sys0) ev) as [o|] eqn:Hstep; [ | exact H ].
  assert (Hsys : status (machine sys) = status_active) by congruence.
  destruct (delivered_timers _ _ _ _ _ Hd (H Hsys)) as (Hfollow & Hfired).
  unfold settled.
  pose proof (execute_timers now (o_effects o)
                {| r_timers := timers sys0; r_actors := actors sys0;
                   r_outputs := []; r_mailbox := [] |}) as Htimers.
  set (st := fold_left (execute now) (o_effects o) _) in *.
  cbn [r_timers] in Htimers.
  destruct (status (o_snapshot o)) eqn:Hso.
  2:{ intros Hactive. cbn in Hactive. congruence. }
  destruct (macrostep_timers _ _ _ _ _ Hstep Hstatus Hso _ Hfollow Hfired) as (_ & Hafter).
  destruct (r_mailbox st); cbn [fst].
  - intros _. cbn. rewrite Htimers. exact Hafter.
  - intros Hactive. cbn in Hactive. discriminate Hactive.
Qed.

Lemma timers_consistent_run : forall cfg trace,
  timers_consistent (fst (run (init cfg) trace)).
Proof.
  intros cfg trace. apply run_invariant.
  - apply timers_consistent_step.
  - intros _. split; intros H; now elim H.
Qed.

(** In every state the service reaches, the step on a delivered event
    schedules no timer that is still pending. *)
Lemma schedule_never_overwrites : forall cfg trace now i sys0 ev o,
  delivered now (fst (run (init cfg) trace)) i = Some (sys0, ev) ->
  status (machine sys0) = status_active ->
  macrostep now (spawned sys0) (machine sys0) ev = Some o ->
  schedules_fresh now (o_effects o) (timers sys0).
Proof.
  intros cfg trace now i sys0 ev o Hd Hstatus Hstep.
  destruct (delivered_same _ _ _ _ _ Hd) as (_ & Hm & _).
  assert (Hsys : status (machine (fst (run (init cfg) trace))) = status_active)
    by congruence.
  destruct (delivered_timers _ _ _ _ _ Hd (timers_consistent_run cfg trace Hsys))
    as (Hfollow & Hfired).
  destruct (status (o_snapshot o)) eqn:Hso.
  - exact (proj1 (macrostep_timers _ _ _ _ _ Hstep Hstatus Hso _ Hfollow Hfired)).
  - destruct (failed_step_has_no_effect _ _ _ _ _ Hstep Hstatus Hso) as (-> & _).
    exact I.
Qed.

(** * Along every run: the two regions, the timers and the engine *)

(** The state that the service reaches from its start by a run. *)
Definition reached (cfg : AppSettings) (trace : list (Z * Input)) : System :=
  fst (run (init cfg) trace).

(** Effects that create or stop no engine leave the engines and the
    mailbox alone. *)
Lemma no_engine_effects : forall effs am,
  engine_effects effs = [] -> fold_left apply_engine_mailbox effs am = am.
Proof.
  induction effs as [|e effs IH]; intros am H; [ reflexivity | ].
  destruct e; cbn in H; try discriminate H; cbn [fold_left apply_engine_mailbox]; auto.
Qed.

(** The events of the censorship region leave the stream region, the
    engine, the context and the restart timer as they are. *)
Lemma censorship_events_leave_stream : forall now fresh s e o,
  macrostep now fresh s e = Some o ->
  status s = status_active ->
  has_engine s ->
  e = CENSOR \/ e = UNCENSOR \/ e = NORMAL \/ e = xstate_after_STREAM_DELAY ->
  stream_value (value (o_snapshot o)) = stream_value (value s)
  /\ children (o_snapshot o) = children s
  /\ context (o_snapshot o) = context s
  /\ status (o_snapshot o) = status_active
  /\ o_nextRef o = fresh
  /\ engine_effects (o_effects o) = []
  /\ forall tm, fold_left (apply_timer now) (o_effects o) tm xstate_after_RESTART_DELAY
                = tm xstate_after_RESTART_DELAY.
Proof.
  intros now fresh [[c st] [t cfg] ch stat oi] e o Hstep Hstat Hengine He.
  unfold has_engine in Hengine. cbn in Hstat, Hengine. subst stat. revert o Hstep.
  destruct He as [-> | [-> | [-> | ->]]];
    destruct_value c st; destruct ch; try (now elim Hengine); by_outcome;
      cbv -[Z.mul Z.add Service.setTimeout]; repeat split; intros; reflexivity.
Qed.

(** The events of the stream region leave the censorship region as it is. *)
Lemma stream_events_leave_censorship : forall now fresh s e o,
  macrostep now fresh s e = Some o ->
  e = START \/ e = STOP \/ e = PIPELINE_ENDED \/ e = PIPELINE_STARTED
  \/ e = xstate_after_RESTART_DELAY \/ e = xstate_error_actor_pipelineActor ->
  censorship_value (value (o_snapshot o)) = censorship_value (value s).
Proof.
  intros now fresh [[c st] [t cfg] ch stat oi] e o Hstep He.
  revert o Hstep.
  destruct He as [-> | [-> | [-> | [-> | [-> | ->]]]]];
    destruct_value c st; destruct ch, stat; by_outcome;
      cbv -[Z.mul Z.add Service.setTimeout]; reflexivity.
Qed.

Lemma has_engine_of_child_iff_running : forall s, child_iff_running s -> has_engine s.
Proof.
  intros s H Hst. apply H. eexists. exact Hst.
Qed.

(** A machine that has a child is in [running]; elsewhere it has none. *)
Lemma child_of_running : forall s,
  child_iff_running s ->
  match stream_value (value s) with
  | Running _ => children s <> None
  | _ => children s = None
  end.
Proof.
  intros s Hwf. destruct (stream_value (value s)) as [| |sub|] eqn:Hst;
    try (destruct (children s) as [r|] eqn:Hr; [ | reflexivity ];
         assert (Hc : children s <> None) by congruence;
         apply Hwf in Hc; destruct Hc as [sub' Hsub]; congruence).
  apply Hwf. now exists sub.
Qed.

(** The system after a step that creates and stops no engine. *)
Lemma settled_without_engine_effects : forall now sys o,
  status (o_snapshot o) = status_active ->
  engine_effects (o_effects o) = [] ->
  machine (fst (settled now sys o)) = o_snapshot o
  /\ actors (fst (settled now sys o)) = actors sys
  /\ spawned (fst (settled now sys o)) = o_nextRef o
  /\ timers (fst (settled now sys o))
     = fold_left (apply_timer now) (o_effects o) (timers sys)
  /\ argv (fst (settled now sys o)) = argv sys.
Proof.
  intros now sys o Hso Heff. unfold settled.
  pose proof (execute_engines now (o_effects o)
                {| r_timers := timers sys; r_actors := actors sys;
                   r_outputs := []; r_mailbox := [] |}) as Hexec.
  pose proof (execute_timers now (o_effects o)
                {| r_timers := timers sys; r_actors := actors sys;
                   r_outputs := []; r_mailbox := [] |}) as Htimers.
  set (st := fold_left (execute now) (o_effects o) _) in *.
  rewrite (no_engine_effects _ _ Heff) in Hexec. cbn [r_actors r_mailbox r_timers] in *.
  injection Hexec as Hra Hrm. rewrite Hso, Hrm. cbn. auto.
Qed.

(** A machine that has stopped stays as it is. *)
Lemma status_error_stays : forall now sys i,
  status (machine sys) = status_error ->
  machine (fst (step now sys i)) = machine sys.
Proof.
  intros now sys i H. rewrite step_spec.
  destruct (delivered now sys i) as [[sys0 ev]|] eqn:Hd; [ | reflexivity ].
  destruct (delivered_same _ _ _ _ _ Hd) as (_ & Hm & _).
  rewrite Hm, H. cbn. exact Hm.
Qed.

Lemma status_active_before : forall now sys i,
  status (machine (fst (step now sys i))) = status_active ->
  status (machine sys) = status_active.
Proof.
  intros now sys i H. destruct (status (machine sys)) eqn:Hs; [ reflexivity | ].
  rewrite (status_error_stays now sys i Hs) in H. congruence.
Qed.

Lemma run_app : forall a b sys,
  fst (run sys (a ++ b)) = fst (run (fst (run sys a)) b).
Proof.
  induction a as [|[now i] a IH]; intros b sys; [ reflexivity | ].
  cbn [app]. rewrite !run_cons. apply IH.
Qed.

Lemma status_active_before_run : forall trace sys,
  status (machine (fst (run sys trace))) = status_active ->
  status (machine sys) = status_active.
Proof.
  induction trace as [|[now i] rest IH]; intros sys H; [ exact H | ].
  rewrite run_cons in H. apply IH in H. exact (status_active_before _ _ _ H).
Qed.

(** The step on a delivered event, while the machine runs. *)
Lemma step_delivered : forall now sys i sys0 ev,
  delivered now sys i = Some (sys0, ev) ->
  status (machine sys) = status_active ->
  exists o, macrostep now (spawned sys) (machine sys) ev = Some o
            /\ step now sys i = settled now sys0 o
            /\ value (machine (fst (step now sys i))) = value (o_snapshot o)
            /\ context (machine (fst (step now sys i))) = context (o_snapshot o)
            /\ children (machine (fst (step now sys i))) = children (o_snapshot o).
Proof.
  intros now sys i sys0 ev Hd Hstatus. rewrite step_spec, Hd.
  destruct (delivered_same _ _ _ _ _ Hd) as (_ & Hm & _ & Hs & _).
  rewrite Hm, Hs, Hstatus.
  destruct (macrostep now (spawned sys) (machine sys) ev) as [o|] eqn:Hstep;
    [ | now elim (macrostep_total _ _ _ _ Hstep) ].
  exists o. split; [ reflexivity | split; [ reflexivity | ] ].
  unfold settled. destruct (status (o_snapshot o)); [ | auto ].
  cbn [fst]. destruct (r_mailbox _); auto.
Qed.

(** The event that an input delivers. *)
Lemma delivered_event : forall now sys i sys0 ev,
  delivered now sys i = Some (sys0, ev) ->
  match i with
  | send a => ev = api_event a
  | sendBack r x => ev = status_event x /\ actors sys r = actor_active
  | timeout d => ev = after_event d
  end.
Proof.
  intros now sys i sys0 ev Hd. destruct i as [a | r x | d]; cbn in Hd.
  - injection Hd as _ <-. reflexivity.
  - destruct (actors sys r); try discriminate Hd. injection Hd as _ <-. auto.
  - destruct (timers sys (after_event d)); [ | discriminate Hd ].
    destruct (_ <=? _); [ | discriminate Hd ]. injection Hd as _ <-. reflexivity.
Qed.

Lemma censorship_inputs_leave_the_stream : forall cfg trace now i,
  i = send api_CENSOR \/ i = send api_UNCENSOR \/ i = timeout STREAM_DELAY ->
  stream_value (value (machine (fst (step now (reached cfg trace) i))))
  = stream_value (value (machine (reached cfg trace)))
  /\ children (machine (fst (step now (reached cfg trace) i)))
     = children (machine (reached cfg trace))
  /\ context (machine (fst (step now (reached cfg trace) i)))
     = context (machine (reached cfg trace))
  /\ actors (fst (step now (reached cfg trace) i)) = actors (reached cfg trace)
  /\ spawned (fst (step now (reached cfg trace) i)) = spawned (reached cfg trace)
  /\ timers (fst (step now (reached cfg trace) i)) xstate_after_RESTART_DELAY
     = timers (reached cfg trace) xstate_after_RESTART_DELAY.
Proof.
  intros cfg trace now i Hi. unfold reached.
  pose proof (engines_consistent_run cfg trace) as Hinv.
  set (sys := fst (run (init cfg) trace)) in *.
  rewrite step_spec.
  destruct (delivered now sys i) as [[sys0 ev]|] eqn:Hd; [ | repeat split ].
  destruct (delivered_same _ _ _ _ _ Hd) as (_ & Hm & Ha & Hs & _).
  assert (Hev : (ev = CENSOR \/ ev = UNCENSOR \/ ev = NORMAL \/ ev = xstate_after_STREAM_DELAY)
                /\ timers sys0 xstate_after_RESTART_DELAY
                   = timers sys xstate_after_RESTART_DELAY).
  { destruct Hi as [-> | [-> | ->]]; cbn in Hd.
    - injection Hd as <- <-. auto.
    - injection Hd as <- <-. auto.
    - destruct (timers sys xstate_after_STREAM_DELAY) as [due|]; [ | discriminate Hd ].
      destruct (due <=? now); [ | discriminate Hd ]. injection Hd as <- <-.
      split; [ auto | reflexivity ]. }
  destruct Hev as (Hev & Htm).
  destruct (status (machine sys0)) eqn:Hstatus.
  2:{ cbn [fst]. rewrite Hm, Ha, Hs, Htm. repeat split. }
  destruct (macrostep now (spawned sys0) (machine sys0) ev) as [o|] eqn:Hstep.
  2:{ now elim (macrostep_total _ _ _ _ Hstep). }
  assert (Hengine : has_engine (machine sys0)).
  { rewrite Hm. apply has_engine_of_child_iff_running. apply Hinv. congruence. }
  destruct (censorship_events_leave_stream _ _ _ _ _ Hstep Hstatus Hengine Hev)
    as (Hst & Hch & Hctx & Hso & Hn & Heff & Hrt).
  destruct (settled_without_engine_effects now sys0 o Hso Heff)
    as (Hm' & Ha' & Hs' & Ht' & _).
  rewrite Hm', Ha', Hs', Ht', Hst, Hch, Hctx, Hn, Hrt, Hm, Ha, Hs, Htm. repeat split.
Qed.

Lemma stream_inputs_leave_the_censorship : forall now sys i,
  i <> send api_CENSOR -> i <> send api_UNCENSOR -> i <> timeout STREAM_DELAY ->
  censorship_value (value (machine (fst (step now sys i))))
  = censorship_value (value (machine sys)).
Proof.
  intros now sys i H1 H2 H3.
  destruct (step_machine now sys i) as [-> | (sys0 & ev & o & Hd & Hstatus & Hstep & ->)];
    [ reflexivity | ].
  apply (stream_events_leave_censorship _ _ _ _ _ Hstep).
  pose proof (delivered_event _ _ _ _ _ Hd) as Hev.
  destruct i as [[| | |] | r x | [|]]; try congruence.
  - subst ev. cbn. auto.
  - subst ev. cbn. auto.
  - destruct Hev as [-> _]. destruct x; cbn; auto 6.
  - subst ev. cbn. auto 6.
Qed.

(** X1. The two regions of the machine are independent.  In every state
    the service reaches, a [CENSOR] or [UNCENSOR] request and the release
    timer leave the stream region, the engine (the machine's child, the
    actors, the serial number of the next one), the context with its
    [startTime], and the restart timer as they are; and every other input
    (a [START] or [STOP] request, an event of an engine, the restart timer)
    leaves the censorship region as it is, in any state. *)
Theorem X1_regions_are_independent : forall cfg trace now i,
  (i = send api_CENSOR \/ i = send api_UNCENSOR \/ i = timeout STREAM_DELAY ->
   stream_value (value (machine (fst (step now (reached cfg trace) i))))
   = stream_value (value (machine (reached cfg trace)))
   /\ children (machine (fst (step now (reached cfg trace) i)))
      = children (machine (reached cfg trace))
   /\ context (machine (fst (step now (reached cfg trace) i)))
      = context (machine (reached cfg trace))
   /\ actors (fst (step now (reached cfg trace) i)) = actors (reached cfg trace)
   /\ spawned (fst (step now (reached cfg trace) i)) = spawned (reached cfg trace)
   /\ timers (fst (step now (reached cfg trace) i)) xstate_after_RESTART_DELAY
      = timers (reached cfg trace) xstate_after_RESTART_DELAY)
  /\ (i <> send api_CENSOR -> i <> send api_UNCENSOR -> i <> timeout STREAM_DELAY ->
      forall sys,
        censorship_value (value (machine (fst (step now sys i))))
        = censorship_value (value (machine sys))).
Proof.
  intros cfg trace now i. split.
  - apply censorship_inputs_leave_the_stream.
  - intros H1 H2 H3 sys. now apply stream_inputs_leave_the_censorship.
Qed.

(** The engine has started. *)
Definition run_started : list (Z * Input) :=
  [(0, send api_START); (5, sendBack 0%nat status_PIPELINE_STARTED)].

(** Then [CENSOR] at 10 ms. *)
Definition run_censored : list (Z * Input) := run_started ++ [(10, send api_CENSOR)].

(** Then [UNCENSOR] at 20 ms. *)
Definition run_deactivating : list (Z * Input) := run_censored ++ [(20, send api_UNCENSOR)].

(** The engine has started and ended at 7 ms. *)
Definition run_restarting : list (Z * Input) :=
  run_started ++ [(7, sendBack 0%nat status_PIPELINE_ENDED)].

Lemma X1_witness :
  stream_value (value (machine (fst (step 10 (reached default_settings run_started)
                                       (send api_CENSOR)))))
  = stream_value (value (machine (reached default_settings run_started)))
  /\ censorship_value (value (machine (fst (step 7 (reached default_settings run_censored)
                                              (sendBack 0%nat status_PIPELINE_ENDED)))))
     = censorship_value (value (machine (reached default_settings run_censored))).
Proof.
  split.
  - apply (X1_regions_are_independent default_settings run_started 10 (send api_CENSOR)).
    left. reflexivity.
  - apply (X1_regions_are_independent default_settings run_censored 7
             (sendBack 0%nat status_PIPELINE_ENDED)); discriminate.
Defined.

(** ** [STOP] *)

(** [STOP] takes the stream region to [stopped] from every state. *)
Lemma STOP_stops : forall now fresh s o,
  macrostep now fresh s STOP = Some o ->
  status s = status_active ->
  stream_value (value (o_snapshot o)) = Stopped.
Proof.
  intros now fresh [[c st] [t cfg] ch stat oi] o Hstep Hstat.
  cbn in Hstat. subst stat. revert o Hstep.
  destruct_value c st; destruct ch; by_outcome; cbv -[Z.mul Z.add Service.setTimeout]; reflexivity.
Qed.

(** Only [START] and [PIPELINE_ENDED] take the stream region out of
    [stopped]. *)
Lemma stopped_stays : forall now fresh s e o,
  macrostep now fresh s e = Some o ->
  stream_value (value s) = Stopped ->
  e <> START -> e <> PIPELINE_ENDED ->
  stream_value (value (o_snapshot o)) = Stopped.
Proof.
  intros now fresh [[c st] [t cfg] ch stat oi] e o Hstep Hst H1 H2.
  cbn in Hst. subst st. revert o Hstep.
  destruct c as [|[|]]; destruct ch, stat, e; try (now elim H1); try (now elim H2);
    by_outcome; cbv -[Z.mul Z.add Service.setTimeout]; reflexivity.
Qed.

Lemma stopped_until_START : forall rest sys,
  engines_consistent sys ->
  stream_value (value (machine sys)) = Stopped ->
  (forall x, In x rest -> snd x <> send api_START) ->
  stream_value (value (machine (fst (run sys rest)))) = Stopped.
Proof.
  induction rest as [|[now i] rest IH]; intros sys Hinv Hst Hno; [ exact Hst | ].
  rewrite run_cons. apply IH.
  - apply engines_consistent_step, Hinv.
  - destruct (step_machine now sys i) as [-> | (sys0 & ev & o & Hd & Hstatus & Hstep & ->)];
      [ exact Hst | ].
    assert (Hi : i <> send api_START) by (apply (Hno (now, i)); now left).
    destruct (Hinv Hstatus) as (Hwf & Hact & _).
    pose proof (delivered_event _ _ _ _ _ Hd) as Hev.
    assert (Hevent : ev <> START /\ ev <> PIPELINE_ENDED).
    { destruct i as [[| | |] | r x | [|]]; try congruence;
        try (subst ev; split; discriminate).
      exfalso. destruct Hev as [_ Hr]. apply Hact in Hr.
      pose proof (child_of_running _ Hwf) as Hch. rewrite Hst in Hch. congruence. }
    destruct Hevent as (He1 & He2).
    exact (stopped_stays _ _ _ _ _ Hstep Hst He1 He2).
  - intros x Hx. apply Hno. now right.
Qed.

(** X2. [STOP] is final until the next [START].  In a run of the service
    from its start in which a [STOP] request is followed by inputs none of
    which is a [START] request, and at whose end the machine still runs:
    the stream region is in [stopped], the machine has no child and no
    [startTime], no engine is active, and no restart is pending (whatever
    the engines that were torn down, the timers and the censorship requests
    do in between). *)
Theorem X2_STOP_is_final : forall cfg before t rest,
  (forall x, In x rest -> snd x <> send api_START) ->
  status (machine (reached cfg (before ++ (t, send api_STOP) :: rest))) = status_active ->
  stream_value (value (machine (reached cfg (before ++ (t, send api_STOP) :: rest))))
  = Stopped
  /\ children (machine (reached cfg (before ++ (t, send api_STOP) :: rest))) = None
  /\ startTime (context (machine (reached cfg (before ++ (t, send api_STOP) :: rest))))
     = None
  /\ (forall r, actors (reached cfg (before ++ (t, send api_STOP) :: rest)) r
                <> actor_active)
  /\ timers (reached cfg (before ++ (t, send api_STOP) :: rest))
       xstate_after_RESTART_DELAY = None.
Proof.
  intros cfg before t rest Hno Hactive. unfold reached in *.
  pose proof (engines_consistent_run cfg (before ++ (t, send api_STOP) :: rest)) as Hinv.
  pose proof (timers_consistent_run cfg (before ++ (t, send api_STOP) :: rest)) as Htm.
  pose proof (startTime_invariant_run cfg (before ++ (t, send api_STOP) :: rest)) as Hstart.
  assert (Hst : stream_value (value (machine
                  (fst (run (init cfg) (before ++ (t, send api_STOP) :: rest))))) = Stopped).
  { rewrite run_app, run_cons in Hactive |- *.
    set (sys1 := fst (run (init cfg) before)) in *.
    apply stopped_until_START; [ | | exact Hno ].
    - apply engines_consistent_step. apply engines_consistent_run.
    - apply status_active_before_run in Hactive.
      pose proof (status_active_before _ _ _ Hactive) as H1.
      destruct (step_delivered t sys1 (send api_STOP) sys1 STOP eq_refl H1)
        as (o & Hstep & _ & -> & _).
      exact (STOP_stops _ _ _ _ Hstep H1). }
  set (sys := fst (run (init cfg) (before ++ (t, send api_STOP) :: rest))) in *.
  destruct (Hinv Hactive) as (Hwf & Hact & _).
  pose proof (child_of_running _ Hwf) as Hch. rewrite Hst in Hch.
  split; [ exact Hst | split; [ exact Hch | split; [ | split ] ] ].
  - destruct (startTime (context (machine sys))) as [z|] eqn:Hz; [ | reflexivity ].
    assert (Hc : stream_value (value (machine sys)) = Running Started)
      by (apply Hstart; congruence).
    congruence.
  - intros r Hr. apply Hact in Hr. congruence.
  - destruct (timers sys xstate_after_RESTART_DELAY) as [due|] eqn:Hdue; [ | reflexivity ].
    destruct (Htm Hactive) as (_ & Hr). rewrite Hdue in Hr.
    assert (Hc : stream_value (value (machine sys)) = Restarting) by (apply Hr; discriminate).
    congruence.
Qed.

(** After the engine has started: [STOP], then what the torn-down engine
    and the timers may still try, and the censorship requests. *)
Definition run_stopped_rest : list (Z * Input) :=
  [(30, sendBack 0%nat status_PIPELINE_ENDED); (40, timeout RESTART_DELAY);
   (50, send api_CENSOR); (60, send api_UNCENSOR); (20000, timeout STREAM_DELAY)].

Lemma X2_witness :
  stream_value (value (machine (reached default_settings
                                  (run_started ++ (20, send api_STOP) :: run_stopped_rest))))
  = Stopped
  /\ children (machine (reached default_settings
                          (run_started ++ (20, send api_STOP) :: run_stopped_rest))) = None
  /\ startTime (context (machine (reached default_settings
                                    (run_started ++ (20, send api_STOP) :: run_stopped_rest))))
     = None
  /\ (forall r, actors (reached default_settings
                          (run_started ++ (20, send api_STOP) :: run_stopped_rest)) r
                <> actor_active)
  /\ timers (reached default_settings
               (run_started ++ (20, send api_STOP) :: run_stopped_rest))
       xstate_after_RESTART_DELAY = None.
Proof.
  apply (X2_STOP_is_final default_settings run_started 20 run_stopped_rest).
  - intros x Hx. cbn in Hx.
    repeat (destruct Hx as [<- | Hx]; [ discriminate | ]). now elim Hx.
  - vm_compute. reflexivity.
Defined.

(** ** What the engine renders *)

(** The commands that the engine [r] received among the outputs. *)
Definition received (r : ActorRef) (outs : list Output) : list PipelineControlEvent :=
  flat_map (fun out => match out with
                       | Render r' c => if ref_eqb r r' then [c] else []
                       | _ => []
                       end) outs.

(** The controls of the engine [r] after the outputs of a run, from the
    controls [c0] that it was built with. *)
Definition engine_controls (r : ActorRef) (outs : list (Z * Output)) (c0 : Controls)
  : Controls :=
  fold_left (fun c ev => receive ev c) (received r (map snd outs)) c0.

(** What each censorship state is to look like: the passthrough pad at
    full volume, or the pixelized pad, muted. *)
Definition shown (c : CensorshipValue) : Controls :=
  match c with
  | Normal => {| active_pad := src_0; volume := 1 |}
  | Censored _ => {| active_pad := src_1; volume := 0 |}
  end.

Lemma received_app : forall r a b, received r (a ++ b) = received r a ++ received r b.
Proof. intros r a b. unfold received. apply flat_map_app. Qed.

Lemma received_broadcasts : forall r msgs, received r (map Broadcast msgs) = [].
Proof. intros r msgs. induction msgs as [|m msgs IH]; [ reflexivity | exact IH ]. Qed.

Lemma ref_eqb_refl : forall r, ref_eqb r r = true.
Proof. intros r. now apply ref_eqb_eq. Qed.

(** The render commands of a step that creates and stops no engine all
    reach the engine [r], when they are sent to it and it is active. *)
Lemma execute_renders : forall now r effs st,
  engine_effects effs = [] ->
  Forall (fun p => fst p = r) (renders effs) ->
  r_actors st r = actor_active ->
  received r (r_outputs (fold_left (execute now) effs st))
  = received r (r_outputs st) ++ map snd (renders effs).
Proof.
  intros now r effs; induction effs as [|e effs IH]; intros st Heff Hall Hr.
  - cbn. now rewrite app_nil_r.
  - cbn [fold_left].
    destruct e as [id d|id|r' c|r' input|r'|ev]; cbn in Heff; try discriminate Heff;
      cbn [renders flat_map app] in Hall |- *.
    + rewrite IH; auto.
    + rewrite IH; auto.
    + apply Forall_cons_iff in Hall. destruct Hall as [Hp Hrest]. cbn in Hp. subst r'.
      cbn [execute]. rewrite Hr. rewrite IH; auto.
      cbn [r_outputs]. rewrite received_app. cbn [received flat_map].
      rewrite ref_eqb_refl. cbn. now rewrite <- app_assoc.
    + rewrite IH; auto. cbn [execute r_outputs]. rewrite received_app. cbn.
      now rewrite app_nil_r.
Qed.

(** A step that ends in [running.started] tells the engine what to render,
    and the last command matches the censorship state. *)
Lemma started_step_renders : forall now fresh s e o,
  macrostep now fresh s e = Some o ->
  status s = status_active ->
  child_iff_running s ->
  status (o_snapshot o) = status_active ->
  stream_value (value (o_snapshot o)) = Running Started ->
  exists r, children s = Some r /\ children (o_snapshot o) = Some r
            /\ engine_effects (o_effects o) = []
            /\ Forall (fun p => fst p = r) (renders (o_effects o))
            /\ forall c0, fold_left (fun c ev => receive ev c)
                            (map snd (renders (o_effects o))) c0
                          = shown (censorship_value (value (o_snapshot o))).
Proof.
  intros now fresh [[c st] ctx ch stat oi] e o Hstep Hstat Hwf.
  pose proof (child_of_running _ Hwf) as Hch.
  cbn in Hstat, Hch. subst stat. clear Hwf. revert o Hstep.
  destruct_value c st; destruct ch as [r|]; try discriminate Hch; try (now elim Hch);
    clear Hch; destruct e; by_outcome;
    cbv -[Z.mul Z.add Service.setTimeout];
    intros Hactive Hstarted; try discriminate Hactive; try discriminate Hstarted;
    exists r;
    (split; [ reflexivity | ]); (split; [ reflexivity | ]); (split; [ reflexivity | ]);
    (split; [ repeat constructor | intros c0; reflexivity ]).
Qed.

(** Between steps: the engine of a started stream renders what the
    censorship state asks for. *)
Definition renders_censorship (sys : System) (outs : list Output) : Prop :=
  status (machine sys) = status_active ->
  stream_value (value (machine sys)) = Running Started ->
  forall r c0,
    children (machine sys) = Some r ->
    fold_left (fun c ev => receive ev c) (received r outs) c0
    = shown (censorship_value (value (machine sys))).

Lemma renders_censorship_step : forall now sys i prev,
  engines_consistent sys ->
  renders_censorship sys prev ->
  renders_censorship (fst (step now sys i)) (prev ++ snd (step now sys i)).
Proof.
  intros now sys i prev Hinv H. rewrite step_spec.
  destruct (delivered now sys i) as [[sys0 ev]|] eqn:Hd.
  2:{ cbn [fst snd]. rewrite app_nil_r. exact H. }
  destruct (delivered_same _ _ _ _ _ Hd) as (_ & Hm & Ha & _).
  destruct (status (machine sys0)) eqn:Hstatus.
  2:{ intros Hactive. cbn in Hactive. congruence. }
  destruct (macrostep now (spawned sys0) (machine sys0) ev) as [o|] eqn:Hstep.
  2:{ cbn [fst snd]. rewrite app_nil_r. exact H. }
  unfold engines_consistent in Hinv. rewrite <- Hm, <- Ha in Hinv.
  destruct (Hinv Hstatus) as (Hwf & Hact & _).
  unfold settled.
  pose proof (execute_renders now) as Hexec.
  set (st := fold_left (execute now) (o_effects o) _) in *.
  destruct (status (o_snapshot o)) eqn:Hso.
  2:{ intros Hactive. cbn in Hactive. congruence. }
  cbn [fst snd].
  intros Hactive Hstarted r c0 Hchild.
  assert (Hmail : r_mailbox st = []) by (destruct (r_mailbox st); [ reflexivity | discriminate Hactive ]).
  rewrite Hmail in Hstarted, Hchild |- *. cbn [machine] in Hstarted, Hchild |- *.
  clear Hactive.
  destruct (started_step_renders _ _ _ _ _ Hstep Hstatus Hwf Hso Hstarted)
    as (r' & Hch & Hch' & Heff & Hall & Hfold).
  assert (Hr : r' = r) by congruence. subst r'.
  rewrite !received_app, received_broadcasts, app_nil_r.
  subst st. rewrite (Hexec r (o_effects o) _ Heff Hall) by (apply Hact; exact Hch).
  cbn [r_outputs received flat_map app]. rewrite fold_left_app. apply Hfold.
Qed.

Lemma run_outputs_cons : forall sys now i rest,
  map snd (snd (run sys ((now, i) :: rest)))
  = snd (step now sys i) ++ map snd (snd (run (fst (step now sys i)) rest)).
Proof.
  intros sys now i rest. cbn [run].
  destruct (step now sys i) as [sys' outs]. cbn [fst snd].
  destruct (run sys' rest) as [sys'' outs']. cbn [snd].
  rewrite map_app, map_map. cbn [snd]. now rewrite map_id.
Qed.

Lemma renders_censorship_run : forall trace sys prev,
  engines_consistent sys ->
  renders_censorship sys prev ->
  renders_censorship (fst (run sys trace)) (prev ++ map snd (snd (run sys trace))).
Proof.
  induction trace as [|[now i] rest IH]; intros sys prev Hinv H.
  - cbn. rewrite app_nil_r. exact H.
  - rewrite run_cons, run_outputs_cons, app_assoc.
    apply IH.
    + apply engines_consistent_step, Hinv.
    + apply renders_censorship_step; assumption.
Qed.

(** X3. The engine of a started stream renders the censorship state.  At
    the end of every run of the service from its start, if the machine
    runs, the stream region is in [running.started] and [r] is its engine,
    then the commands that [r] has received have left its controls as the
    censorship state asks: the passthrough pad [src_0] at volume 1 in
    [normal], the pixelized pad [src_1] at volume 0 in [censored] (also
    while the release delay runs), whatever the controls were at first. *)
Theorem X3_started_engine_renders_the_censorship_state : forall cfg trace r c0,
  status (machine (reached cfg trace)) = status_active ->
  stream_value (value (machine (reached cfg trace))) = Running Started ->
  children (machine (reached cfg trace)) = Some r ->
  engine_controls r (snd (run (init cfg) trace)) c0
  = match censorship_value (value (machine (reached cfg trace))) with
    | Normal => {| active_pad := src_0; volume := 1 |}
    | Censored _ => {| active_pad := src_1; volume := 0 |}
    end.
Proof.
  intros cfg trace r c0 Hactive Hstarted Hchild. unfold reached in *.
  pose proof (renders_censorship_run trace (init cfg) [] (engines_consistent_init cfg)) as H.
  cbn [app] in H. unfold engine_controls.
  apply H; auto.
  intros _ Hst. discriminate Hst.
Qed.

Lemma X3_witness :
  censorship_value (value (machine (reached default_settings run_deactivating)))
  = Censored Deactivating
  /\ engine_controls 0%nat (snd (run (init default_settings) run_deactivating))
       {| active_pad := src_0; volume := 1 |}
     = match censorship_value (value (machine (reached default_settings run_deactivating)))
       with
       | Normal => {| active_pad := src_0; volume := 1 |}
       | Censored _ => {| active_pad := src_1; volume := 0 |}
       end.
Proof.
  split; [ vm_compute; reflexivity | ].
  apply (X3_started_engine_renders_the_censorship_state default_settings run_deactivating
           0%nat); vm_compute; reflexivity.
Defined.

(** ** The timers, both ways *)

(** The state nodes with an [after] block have their timer pending. *)
Definition timers_pending (v : StateValue) (tm : EventType -> option Z) : Prop :=
  (censorship_value v = Censored Deactivating -> tm xstate_after_STREAM_DELAY <> None)
  /\ (stream_value v = Restarting -> tm xstate_after_RESTART_DELAY <> None).

(** The same, but for the timer whose event is being delivered. *)
Definition timers_pending_but (e : EventType) (v : StateValue) (tm : EventType -> option Z)
  : Prop :=
  (censorship_value v = Censored Deactivating -> e <> xstate_after_STREAM_DELAY ->
   tm xstate_after_STREAM_DELAY <> None)
  /\ (stream_value v = Restarting -> e <> xstate_after_RESTART_DELAY ->
      tm xstate_after_RESTART_DELAY <> None).

Lemma macrostep_timers_pending : forall now fresh s e o,
  macrostep now fresh s e = Some o ->
  status s = status_active ->
  status (o_snapshot o) = status_active ->
  forall tm,
    timers_pending_but e (value s) tm ->
    timers_pending (value (o_snapshot o)) (fold_left (apply_timer now) (o_effects o) tm).
Proof.
  intros now fresh [[c st] ctx ch stat oi] e o Hstep Hstat.
  cbn in Hstat. subst stat. revert o Hstep. unfold timers_pending, timers_pending_but.
  destruct_value c st; destruct ch, e; by_outcome;
    cbv -[Z.mul Z.add Service.setTimeout]; intros Hactive tm [Hs Hr];
    try discriminate Hactive;
    (split; intros H; try discriminate H; try discriminate;
     first [ apply Hs; [ reflexivity | discriminate ]
           | apply Hr; [ reflexivity | discriminate ] ]).
Qed.

Definition timers_present (sys : System) : Prop :=
  status (machine sys) = status_active ->
  timers_pending (value (machine sys)) (timers sys).

Lemma delivered_timers_pending : forall now sys i sys0 ev,
  delivered now sys i = Some (sys0, ev) ->
  timers_pending (value (machine sys)) (timers sys) ->
  timers_pending_but ev (value (machine sys0)) (timers sys0).
Proof.
  intros now sys i sys0 ev Hd [Hs Hr]. destruct i as [a | r x | d]; cbn in Hd.
  - injection Hd as <- <-. split; auto.
  - destruct (actors sys r); try discriminate Hd. injection Hd as <- <-. split; auto.
  - destruct (timers sys (after_event d)) as [due|]; [ | discriminate Hd ].
    destruct (due <=? now); [ | discriminate Hd ]. injection Hd as <- <-.
    destruct d; cbn; (split; intros H1 H2; auto; now elim H2).
Qed.

Lemma timers_present_step : forall now sys i,
  timers_present sys -> timers_present (fst (step now sys i)).
Proof.
  intros now sys i H. rewrite step_spec.
  destruct (delivered now sys i) as [[sys0 ev]|] eqn:Hd; [ | exact H ].
  destruct (delivered_same _ _ _ _ _ Hd) as (_ & Hm & _).
  destruct (status (machine sys0)) eqn:Hstatus.
  2:{ intros Hactive. cbn in Hactive. congruence. }
  destruct (macrostep now (spawned sys0) (machine sys0) ev) as [o|] eqn:Hstep; [ | exact H ].
  assert (Hsys : status (machine sys) = status_active) by congruence.
  pose proof (delivered_timers_pending _ _ _ _ _ Hd (H Hsys)) as Hbut.
  unfold settled.
  pose proof (execute_timers now (o_effects o)
                {| r_timers := timers sys0; r_actors := actors sys0;
                   r_outputs := []; r_mailbox := [] |}) as Htimers.
  set (st := fold_left (execute now) (o_effects o) _) in *.
  cbn [r_timers] in Htimers.
  destruct (status (o_snapshot o)) eqn:Hso.
  2:{ intros Hactive. cbn in Hactive. congruence. }
  pose proof (macrostep_timers_pending _ _ _ _ _ Hstep Hstatus Hso _ Hbut) as Hafter.
  destruct (r_mailbox st); cbn [fst].
  - intros _. cbn. rewrite Htimers. exact Hafter.
  - intros Hactive. cbn in Hactive. discriminate Hactive.
Qed.

Lemma timers_present_run : forall cfg trace,
  timers_present (fst (run (init cfg) trace)).
Proof.
  intros cfg trace. apply run_invariant.
  - apply timers_present_step.
  - intros _. split; discriminate.
Qed.

(** X4. A timer is pending exactly while its state node is active.  In
    every state that the service reaches and in which the machine runs,
    the release timer is pending if and only if the censorship region is in
    [censored.deactivating], and the restart timer is pending if and only
    if the stream region is in [restarting]. *)
Theorem X4_timer_pending_iff_state_active : forall cfg trace,
  status (machine (reached cfg trace)) = status_active ->
  (timers (reached cfg trace) xstate_after_STREAM_DELAY <> None
   <-> censorship_value (value (machine (reached cfg trace))) = Censored Deactivating)
  /\ (timers (reached cfg trace) xstate_after_RESTART_DELAY <> None
      <-> stream_value (value (machine (reached cfg trace))) = Restarting).
Proof.
  intros cfg trace Hactive. unfold reached in *.
  destruct (timers_consistent_run cfg trace Hactive) as (H1 & H2).
  destruct (timers_present_run cfg trace Hactive) as (H3 & H4).
  repeat split; assumption.
Qed.

Lemma X4_witness :
  (timers (reached default_settings run_deactivating) xstate_after_STREAM_DELAY <> None
   <-> censorship_value (value (machine (reached default_settings run_deactivating)))
       = Censored Deactivating)
  /\ (timers (reached default_settings run_deactivating) xstate_after_RESTART_DELAY <> None
      <-> stream_value (value (machine (reached default_settings run_deactivating)))
          = Restarting).
Proof.
  apply (X4_timer_pending_iff_state_active default_settings run_deactivating).
  vm_compute. reflexivity.
Defined.

(** The settings never change. *)
Lemma settings_macrostep : forall now fresh s e o,
  macrostep now fresh s e = Some o ->
  settings (context (o_snapshot o)) = settings (context s).
Proof.
  intros now fresh [[c st] [t cfg] ch stat oi] e o. revert o.
  destruct_value c st; destruct ch, stat, e; by_outcome;
    cbv -[Z.mul Z.add Service.setTimeout]; reflexivity.
Qed.

Lemma argv_step : forall now sys i, argv (fst (step now sys i)) = argv sys.
Proof.
  intros now sys i. rewrite step_spec.
  destruct (delivered now sys i) as [[sys0 ev]|] eqn:Hd; [ | reflexivity ].
  destruct (delivered_same _ _ _ _ _ Hd) as (Hargv & _).
  destruct (status (machine sys0)); [ | exact Hargv ].
  destruct (macrostep _ _ _ _) as [o|]; [ | reflexivity ].
  unfold settled. destruct (status (o_snapshot o)); [ | exact Hargv ].
  cbn [fst]. destruct (r_mailbox _); exact Hargv.
Qed.

Lemma settings_run : forall cfg trace,
  settings (context (machine (fst (run (init cfg) trace)))) = cfg
  /\ argv (fst (run (init cfg) trace)) = cfg.
Proof.
  intros cfg trace.
  apply (run_invariant (fun sys => settings (context (machine sys)) = cfg /\ argv sys = cfg)).
  - intros now sys i [H1 H2]. split.
    + apply (step_preserves (fun s => settings (context s) = cfg)); auto.
      intros now' fresh s e o Hs Ho. rewrite (settings_macrostep _ _ _ _ _ Ho). exact Hs.
    + rewrite argv_step. exact H2.
  - split; reflexivity.
Qed.

(** The release timer's event in [censored.deactivating]. *)
Lemma release_event : forall now fresh s,
  status s = status_active ->
  child_iff_running s ->
  censorship_value (value s) = Censored Deactivating ->
  exists o, macrostep now fresh s xstate_after_STREAM_DELAY = Some o
            /\ status (o_snapshot o) = status_active
            /\ censorship_value (value (o_snapshot o)) = Normal
            /\ engine_effects (o_effects o) = []
            /\ (forall r, children s = Some r ->
                          Forall (fun p => fst p = r) (renders (o_effects o)))
            /\ (stream_value (value s) = Running Started ->
                map snd (renders (o_effects o)) = [RENDER_NORMAL; RENDER_NORMAL]).
Proof.
  intros now fresh [[c st] ctx ch stat oi] Hstat Hwf Hc.
  pose proof (child_of_running _ Hwf) as Hch.
  cbn in Hstat, Hch, Hc. subst stat c. clear Hwf.
  destruct st as [| |[|]|]; destruct ch as [r|]; try discriminate Hch; try (now elim Hch);
    (eexists; split; [ evaluate; reflexivity | ]);
    cbv -[Z.mul Z.add Service.setTimeout];
    (split; [ reflexivity | split; [ reflexivity | split; [ reflexivity | ] ] ]);
    (split; [ intros r' Hr'; try discriminate Hr'; injection Hr' as <-; repeat constructor
            | intros H; first [ reflexivity | discriminate H ] ]).
Qed.

(** X5. The release delay always ends.  In every state that the service
    reaches, in which the machine runs and the censorship region is in
    [censored.deactivating], the release timer is pending, and when it
    fires, at or after the time it is due, the region goes to [normal]; if
    the stream is started, its engine then receives [RENDER_NORMAL] (twice:
    on the timer's event and on the [NORMAL] event that entering [normal]
    raises) and nothing else. *)
Theorem X5_release_timer_ends_deactivating : forall cfg trace,
  status (machine (reached cfg trace)) = status_active ->
  censorship_value (value (machine (reached cfg trace))) = Censored Deactivating ->
  exists due,
    timers (reached cfg trace) xstate_after_STREAM_DELAY = Some due
    /\ forall now, due <= now ->
         censorship_value (value (machine
           (fst (step now (reached cfg trace) (timeout STREAM_DELAY))))) = Normal
         /\ forall r,
              stream_value (value (machine (reached cfg trace))) = Running Started ->
              children (machine (reached cfg trace)) = Some r ->
              received r (snd (step now (reached cfg trace) (timeout STREAM_DELAY)))
              = [RENDER_NORMAL; RENDER_NORMAL].
Proof.
  intros cfg trace Hactive Hc. unfold reached in *.
  pose proof (timers_present_run cfg trace Hactive) as (Hpending & _).
  pose proof (engines_consistent_run cfg trace Hactive) as (Hwf & Hact & _).
  set (sys := fst (run (init cfg) trace)) in *.
  destruct (timers sys xstate_after_STREAM_DELAY) as [due|] eqn:Hdue;
    [ | now elim (Hpending Hc) ].
  exists due. split; [ reflexivity | ]. intros now Hnow.
  destruct (release_event now (spawned sys) (machine sys) Hactive Hwf Hc)
    as (o & Hstep & Hso & Hnormal & Heff & Hall & Hstarted).
  rewrite step_spec. cbn [delivered after_event]. rewrite Hdue.
  apply Z.leb_le in Hnow. rewrite Hnow. cbn [machine spawned]. rewrite Hactive, Hstep.
  destruct (settled_without_engine_effects now
              {| argv := argv sys; machine := machine sys;
                 timers := set_timer xstate_after_STREAM_DELAY None (timers sys);
                 actors := actors sys; spawned := spawned sys;
                 lastSnapshot := lastSnapshot sys |} o Hso Heff) as (Hm & _).
  rewrite Hm. split; [ exact Hnormal | ].
  intros r Hst Hchild. unfold settled. rewrite Hso. cbn [snd actors timers].
  rewrite received_app, received_broadcasts, app_nil_r.
  rewrite (execute_renders now r (o_effects o) _ Heff (Hall r Hchild))
    by (apply Hact; exact Hchild).
  cbn [r_outputs received flat_map app]. apply Hstarted, Hst.
Qed.

Lemma X5_witness :
  exists due,
    timers (reached default_settings run_deactivating) xstate_after_STREAM_DELAY = Some due
    /\ forall now, due <= now ->
         censorship_value (value (machine
           (fst (step now (reached default_settings run_deactivating)
                   (timeout STREAM_DELAY))))) = Normal
         /\ forall r,
              stream_value (value (machine (reached default_settings run_deactivating)))
              = Running Started ->
              children (machine (reached default_settings run_deactivating)) = Some r ->
              received r (snd (step now (reached default_settings run_deactivating)
                                 (timeout STREAM_DELAY)))
              = [RENDER_NORMAL; RENDER_NORMAL].
Proof.
  apply (X5_release_timer_ends_deactivating default_settings run_deactivating);
    vm_compute; reflexivity.
Defined.

(** X6. Every [UNCENSOR] received while censored starts the release delay
    anew.  In every state that the service reaches, in which the machine
    runs and the censorship region is in [censored] (either substate), an
    [UNCENSOR] request at time [now] leaves the region in
    [censored.deactivating] with the release timer set anew, whatever was
    pending before: due at [now + 1000 * delaySeconds] when that delay is
    within the range [1 .. TIMEOUT_MAX] of [setTimeout], and at [now + 1]
    when it is not. *)
Theorem X6_UNCENSOR_restarts_the_release_delay : forall cfg trace now sub,
  status (machine (reached cfg trace)) = status_active ->
  censorship_value (value (machine (reached cfg trace))) = Censored sub ->
  status (machine (fst (step now (reached cfg trace) (send api_UNCENSOR)))) = status_active
  /\ censorship_value (value (machine
       (fst (step now (reached cfg trace) (send api_UNCENSOR)))))
     = Censored Deactivating
  /\ timers (fst (step now (reached cfg trace) (send api_UNCENSOR)))
       xstate_after_STREAM_DELAY
     = Some (now + setTimeout (1000 * delaySeconds cfg))
  /\ (1 <= 1000 * delaySeconds cfg <= TIMEOUT_MAX ->
      timers (fst (step now (reached cfg trace) (send api_UNCENSOR)))
        xstate_after_STREAM_DELAY
      = Some (now + 1000 * delaySeconds cfg))
  /\ (1000 * delaySeconds cfg < 1 \/ TIMEOUT_MAX < 1000 * delaySeconds cfg ->
      timers (fst (step now (reached cfg trace) (send api_UNCENSOR)))
        xstate_after_STREAM_DELAY
      = Some (now + 1)).
Proof.
  intros cfg trace now sub Hactive Hc. unfold reached in *.
  pose proof (engines_consistent_run cfg trace Hactive) as (Hwf & _).
  destruct (settings_run cfg trace) as (Hcfg & _).
  set (sys := fst (run (init cfg) trace)) in *.
  destruct (step_delivered now sys (send api_UNCENSOR) sys UNCENSOR eq_refl Hactive)
    as (o & Hstep & -> & _).
  destruct (censorship_events_leave_stream _ _ _ _ _ Hstep Hactive
              (has_engine_of_child_iff_running _ Hwf) (or_intror (or_introl eq_refl)))
    as (_ & _ & _ & Hso & _ & Heff & _).
  destruct (censorship_region_step _ _ _ _ _ Hstep Hactive Hso) as (_ & Hcens & Htm & _).
  destruct (settled_without_engine_effects now sys o Hso Heff) as (-> & _ & _ & -> & _).
  rewrite Hso, Hcens, Htm, Hc, Hcfg.
  assert (Hdue : release_timer_next now (Censored sub) UNCENSOR (1000 * delaySeconds cfg)
                   (timers sys xstate_after_STREAM_DELAY)
                 = Some (now + setTimeout (1000 * delaySeconds cfg)))
    by (destruct sub; reflexivity).
  rewrite Hdue.
  split; [ reflexivity | split; [ destruct sub; reflexivity | split; [ reflexivity | ] ] ].
  split; intros Hrange.
  - rewrite (setTimeout_in_range _ Hrange). reflexivity.
  - rewrite (setTimeout_out_of_range _ Hrange). reflexivity.
Qed.

Lemma X6_witness :
  timers (reached default_settings run_deactivating) xstate_after_STREAM_DELAY
  = Some 15020
  /\ timers (fst (step 9000 (reached default_settings run_deactivating)
                    (send api_UNCENSOR)))
       xstate_after_STREAM_DELAY
     = Some (9000 + 1000 * delaySeconds default_settings).
Proof.
  split; [ vm_compute; reflexivity | ].
  destruct (X6_UNCENSOR_restarts_the_release_delay default_settings run_deactivating 9000
              Deactivating) as (_ & _ & _ & H & _);
    [ vm_compute; reflexivity | vm_compute; reflexivity | ].
  apply H. vm_compute. split; discriminate.
Defined.

(** ** The restart *)

(** The restart timer's event in [restarting]: the region enters
    [running.waiting] and a new engine is created and started. *)
Lemma restart_event : forall now fresh s,
  status s = status_active ->
  stream_value (value s) = Restarting ->
  children s = None ->
  exists o, macrostep now fresh s xstate_after_RESTART_DELAY = Some o
            /\ status (o_snapshot o) = status_active
            /\ stream_value (value (o_snapshot o)) = Running Waiting
            /\ children (o_snapshot o) = Some fresh
            /\ o_nextRef o = S fresh
            /\ forall am, fold_left apply_engine_mailbox (o_effects o) am
                          = apply_engine_mailbox am (StartActor fresh (settings (context s))).
Proof.
  intros now fresh [[c st] [t cfg] ch stat oi] Hstat Hst Hch.
  cbn in Hstat, Hst, Hch. subst stat st ch.
  destruct c as [|[|]];
    (eexists; split; [ evaluate; reflexivity | ]);

      cbv -[Z.mul Z.add Service.setTimeout set_actor runPipeline]; repeat split; intros [a m]; reflexivity.
Qed.

(** X7. The end of the pipeline schedules the restart.  In every state
    that the service reaches and in which the machine runs, a
    [PIPELINE_ENDED] that the machine's engine sends back at time [now]
    takes the stream region to [restarting] and leaves no engine active;
    the restart timer is due at [now + 1000 * restartSeconds] when that
    delay is within the range [1 .. TIMEOUT_MAX] of [setTimeout], and at
    [now + 1] when it is not. *)
Theorem X7_PIPELINE_ENDED_schedules_the_restart : forall cfg trace now r,
  status (machine (reached cfg trace)) = status_active ->
  children (machine (reached cfg trace)) = Some r ->
  status (machine (fst (step now (reached cfg trace) (sendBack r status_PIPELINE_ENDED))))
  = status_active
  /\ stream_value (value (machine
       (fst (step now (reached cfg trace) (sendBack r status_PIPELINE_ENDED)))))
     = Restarting
  /\ timers (fst (step now (reached cfg trace) (sendBack r status_PIPELINE_ENDED)))
       xstate_after_RESTART_DELAY
     = Some (now + setTimeout (1000 * restartSeconds cfg))
  /\ (1 <= 1000 * restartSeconds cfg <= TIMEOUT_MAX ->
      timers (fst (step now (reached cfg trace) (sendBack r status_PIPELINE_ENDED)))
        xstate_after_RESTART_DELAY
      = Some (now + 1000 * restartSeconds cfg))
  /\ (1000 * restartSeconds cfg < 1 \/ TIMEOUT_MAX < 1000 * restartSeconds cfg ->
      timers (fst (step now (reached cfg trace) (sendBack r status_PIPELINE_ENDED)))
        xstate_after_RESTART_DELAY
      = Some (now + 1))
  /\ (forall r', actors (fst (step now (reached cfg trace)
                                (sendBack r status_PIPELINE_ENDED))) r'
                 <> actor_active).
Proof.
  intros cfg trace now r Hactive Hchild. unfold reached in *.
  pose proof (engines_consistent_run cfg trace Hactive) as (Hwf & Hact & _).
  destruct (settings_run cfg trace) as (Hcfg & _).
  set (sys := fst (run (init cfg) trace)) in *.
  assert (Hr : actors sys r = actor_active) by now apply Hact.
  assert (Hrun : exists sub, stream_value (value (machine sys)) = Running sub)
    by (apply Hwf; congruence).
  destruct Hrun as [sub Hsub].
  destruct (PIPELINE_ENDED_while_running now (spawned sys) _ _ _ Hactive Hsub Hchild)
    as (o & Hstep & Hso & Hstream & Heff).
  rewrite step_spec. cbn [delivered status_event]. rewrite Hr, Hactive, Hstep.
  unfold settled. rewrite Hso, Heff, Hcfg.
  cbn [fold_left execute r_mailbox r_actors r_timers r_outputs fst machine actors timers].
  split; [ exact Hso | split; [ exact Hstream | split; [ reflexivity | ] ] ].
  split; [ intros Hrange; rewrite (setTimeout_in_range _ Hrange); reflexivity | ].
  split; [ intros Hrange; rewrite (setTimeout_out_of_range _ Hrange); reflexivity | ].
  intros r' Hr'. destruct (Nat.eq_dec r r') as [<- | Hne].
  - rewrite set_actor_same in Hr'. discriminate Hr'.
  - rewrite set_actor_other in Hr' by exact Hne. apply Hact in Hr'. congruence.
Qed.

Lemma X7_witness :
  stream_value (value (machine
    (fst (step 7 (reached default_settings run_started)
            (sendBack 0%nat status_PIPELINE_ENDED)))))
  = Restarting
  /\ timers (fst (step 7 (reached default_settings run_started)
                    (sendBack 0%nat status_PIPELINE_ENDED)))
       xstate_after_RESTART_DELAY
     = Some (7 + 1000 * restartSeconds default_settings).
Proof.
  destruct (X7_PIPELINE_ENDED_schedules_the_restart default_settings run_started 7 0%nat)
    as (_ & H1 & _ & H2 & _); [ vm_compute; reflexivity | vm_compute; reflexivity | ].
  split; [ exact H1 | ]. apply H2. vm_compute. split; discriminate.
Defined.

(** X8. The restart timer starts a new engine.  In every state that the
    service reaches, in which the machine runs and the stream region is in
    [restarting], the restart timer is pending; before it is due its
    timeout does nothing; when it fires, at or after the time it is due,
    and the settings are such that [runPipeline] does not throw, the
    region enters [running.waiting] and the machine's child is an engine
    that did not exist before and is now active. *)
Theorem X8_restart_timer_starts_a_new_engine : forall cfg trace,
  status (machine (reached cfg trace)) = status_active ->
  stream_value (value (machine (reached cfg trace))) = Restarting ->
  exists due,
    timers (reached cfg trace) xstate_after_RESTART_DELAY = Some due
    /\ (forall now, now < due ->
          step now (reached cfg trace) (timeout RESTART_DELAY) = (reached cfg trace, []))
    /\ (forall now, due <= now -> runPipeline cfg = Playing ->
          status (machine (fst (step now (reached cfg trace) (timeout RESTART_DELAY))))
          = status_active
          /\ stream_value (value (machine
               (fst (step now (reached cfg trace) (timeout RESTART_DELAY)))))
             = Running Waiting
          /\ children (machine (fst (step now (reached cfg trace) (timeout RESTART_DELAY))))
             = Some (spawned (reached cfg trace))
          /\ actors (reached cfg trace) (spawned (reached cfg trace)) = not_created
          /\ actors (fst (step now (reached cfg trace) (timeout RESTART_DELAY)))
               (spawned (reached cfg trace))
             = actor_active).
Proof.
  intros cfg trace Hactive Hst. unfold reached in *.
  pose proof (timers_present_run cfg trace Hactive) as (_ & Hpending).
  pose proof (engines_consistent_run cfg trace Hactive) as (Hwf & Hact & Hnew).
  destruct (settings_run cfg trace) as (Hcfg & _).
  set (sys := fst (run (init cfg) trace)) in *.
  destruct (timers sys xstate_after_RESTART_DELAY) as [due|] eqn:Hdue;
    [ | now elim (Hpending Hst) ].
  exists due. split; [ reflexivity | split ].
  - intros now Hnow. rewrite step_spec. cbn [delivered after_event]. rewrite Hdue.
    apply Z.leb_gt in Hnow. rewrite Hnow. reflexivity.
  - intros now Hnow Hplay.
    pose proof (child_of_running _ Hwf) as Hch. rewrite Hst in Hch.
    destruct (restart_event now (spawned sys) (machine sys) Hactive Hst Hch)
      as (o & Hstep & Hso & Hwaiting & Hchild & Hnext & Hfold).
    rewrite step_spec. cbn [delivered after_event]. rewrite Hdue.
    apply Z.leb_le in Hnow. rewrite Hnow. cbn [machine spawned]. rewrite Hactive, Hstep.
    unfold settled.
    pose proof (execute_engines now (o_effects o)
                  {| r_timers := set_timer xstate_after_RESTART_DELAY None (timers sys);
                     r_actors := actors sys; r_outputs := []; r_mailbox := [] |}) as Hexec.
    cbn [timers actors] in *.
    set (st := fold_left (execute now) (o_effects o) _) in *.
    rewrite Hfold in Hexec. cbn [r_actors r_mailbox apply_engine_mailbox fst snd] in Hexec.
    rewrite (Hnew (spawned sys)) in Hexec by lia. rewrite Hcfg, Hplay in Hexec.
    injection Hexec as Hra Hrm. rewrite Hso, Hrm. cbn [fst machine actors].
    rewrite Hra, set_actor_same.
    repeat split; auto.
Qed.

Lemma X8_witness :
  exists due,
    timers (reached default_settings run_restarting) xstate_after_RESTART_DELAY = Some due
    /\ (forall now, now < due ->
          step now (reached default_settings run_restarting) (timeout RESTART_DELAY)
          = (reached default_settings run_restarting, []))
    /\ (forall now, due <= now -> runPipeline default_settings = Playing ->
          status (machine (fst (step now (reached default_settings run_restarting)
                                  (timeout RESTART_DELAY))))
          = status_active
          /\ stream_value (value (machine
               (fst (step now (reached default_settings run_restarting)
                       (timeout RESTART_DELAY)))))
             = Running Waiting
          /\ children (machine (fst (step now (reached default_settings run_restarting)
                                       (timeout RESTART_DELAY))))
             = Some (spawned (reached default_settings run_restarting))
          /\ actors (reached default_settings run_restarting)
               (spawned (reached default_settings run_restarting)) = not_created
          /\ actors (fst (step now (reached default_settings run_restarting)
                            (timeout RESTART_DELAY)))
               (spawned (reached default_settings run_restarting))
             = actor_active).
Proof.
  apply (X8_restart_timer_starts_a_new_engine default_settings run_restarting);
    vm_compute; reflexivity.
Defined.

(** X9. At most one engine is active.  In every state that the service
    reaches and in which the machine runs, an active engine is the
    machine's child, so two active engines are the same one; and an engine
    is active only while the stream region is in [running]. *)
Theorem X9_at_most_one_engine_is_active : forall cfg trace r r',
  status (machine (reached cfg trace)) = status_active ->
  actors (reached cfg trace) r = actor_active ->
  actors (reached cfg trace) r' = actor_active ->
  r = r'
  /\ children (machine (reached cfg trace)) = Some r
  /\ exists sub, stream_value (value (machine (reached cfg trace))) = Running sub.
Proof.
  intros cfg trace r r' Hactive Hr Hr'. unfold reached in *.
  destruct (engines_consistent_run cfg trace Hactive) as (Hwf & Hact & _).
  apply Hact in Hr. apply Hact in Hr'.
  split; [ congruence | split; [ exact Hr | ] ].
  apply Hwf. congruence.
Qed.

Lemma X9_witness :
  0%nat = 0%nat
  /\ children (machine (reached default_settings run_started)) = Some 0%nat
  /\ exists sub,
       stream_value (value (machine (reached default_settings run_started))) = Running sub.
Proof.
  apply (X9_at_most_one_engine_is_active default_settings run_started 0%nat 0%nat);
    vm_compute; reflexivity.
Defined.

(** ** [startTime] *)

(** [PIPELINE_STARTED] while [running] sets [startTime] to the time of the
    event. *)
Lemma PIPELINE_STARTED_sets_startTime : forall now fresh s sub r,
  status s = status_active ->
  stream_value (value s) = Running sub ->
  children s = Some r ->
  exists o, macrostep now fresh s PIPELINE_STARTED = Some o
            /\ status (o_snapshot o) = status_active
            /\ stream_value (value (o_snapshot o)) = Running Started
            /\ startTime (context (o_snapshot o)) = Some now.
Proof.
  intros now fresh [[c st] [t cfg] ch stat oi] sub r Hstat Hst Hch.
  cbn in Hstat, Hst, Hch. subst stat st ch.
  destruct c as [|[|]]; destruct sub;
    (eexists; split; [ evaluate; reflexivity | repeat split ]).
Qed.

(** No other event sets [startTime]. *)
Lemma startTime_kept_or_reset : forall now fresh s e o,
  macrostep now fresh s e = Some o ->
  e <> PIPELINE_STARTED ->
  startTime (context (o_snapshot o)) = startTime (context s)
  \/ startTime (context (o_snapshot o)) = None.
Proof.
  intros now fresh [[c st] [t cfg] ch stat oi] e o Hstep He. revert o Hstep.
  destruct_value c st; destruct ch, stat, e; try (now elim He); by_outcome;
    cbv -[Z.mul Z.add Service.setTimeout]; auto.
Qed.

(** X10. [startTime] is the time of the last [PIPELINE_STARTED].  In every
    state that the service reaches: a [PIPELINE_STARTED] that the machine's
    engine sends back at time [now], while the machine runs, leaves the
    stream region in [running.started] with [startTime = now], also when
    it was started already; and every other input leaves [startTime] as it
    was or resets it to null. *)
Theorem X10_startTime_is_the_time_of_PIPELINE_STARTED : forall cfg trace now,
  (forall r,
     status (machine (reached cfg trace)) = status_active ->
     children (machine (reached cfg trace)) = Some r ->
     stream_value (value (machine (fst (step now (reached cfg trace)
                                          (sendBack r status_PIPELINE_STARTED)))))
     = Running Started
     /\ startTime (context (machine (fst (step now (reached cfg trace)
                                            (sendBack r status_PIPELINE_STARTED)))))
        = Some now)
  /\ (forall i,
        (forall r, i <> sendBack r status_PIPELINE_STARTED) ->
        startTime (context (machine (fst (step now (reached cfg trace) i))))
        = startTime (context (machine (reached cfg trace)))
        \/ startTime (context (machine (fst (step now (reached cfg trace) i)))) = None).
Proof.
  intros cfg trace now. unfold reached.
  pose proof (engines_consistent_run cfg trace) as Hinv.
  set (sys := fst (run (init cfg) trace)) in *.
  split.
  - intros r Hactive Hchild.
    destruct (Hinv Hactive) as (Hwf & Hact & _).
    assert (Hr : actors sys r = actor_active) by (apply Hact; exact Hchild).
    assert (Hrun : exists sub, stream_value (value (machine sys)) = Running sub)
      by (apply Hwf; congruence).
    destruct Hrun as [sub Hsub].
    destruct (PIPELINE_STARTED_sets_startTime now (spawned sys) _ _ _ Hactive Hsub Hchild)
      as (o & Hstep & Hso & Hst & Htime).
    assert (Hd : delivered now sys (sendBack r status_PIPELINE_STARTED)
                 = Some (sys, PIPELINE_STARTED)) by (cbn; rewrite Hr; reflexivity).
    destruct (step_delivered _ _ _ _ _ Hd Hactive) as (o' & Hstep' & _ & -> & -> & _).
    assert (o' = o) by congruence. subst o'. auto.
  - intros i Hi.
    destruct (status (machine sys)) eqn:Hactive.
    2:{ left. rewrite (status_error_stays now sys i Hactive). reflexivity. }
    destruct (delivered now sys i) as [[sys0 ev]|] eqn:Hd.
    2:{ left. rewrite step_spec, Hd. reflexivity. }
    destruct (step_delivered _ _ _ _ _ Hd Hactive) as (o & Hstep & _ & _ & -> & _).
    apply (startTime_kept_or_reset _ _ _ _ _ Hstep).
    pose proof (delivered_event _ _ _ _ _ Hd) as Hev.
    destruct i as [a | r x | d].
    + subst ev. destruct a; discriminate.
    + destruct Hev as [-> _]. destruct x; [ discriminate | now elim (Hi r) ].
    + subst ev. destruct d; discriminate.
Qed.

Lemma X10_witness :
  startTime (context (machine (reached default_settings run_censored))) = Some 5
  /\ startTime (context (machine (fst (step 12 (reached default_settings run_censored)
                                         (sendBack 0%nat status_PIPELINE_STARTED)))))
     = Some 12.
Proof.
  split; [ vm_compute; reflexivity | ].
  apply (X10_startTime_is_the_time_of_PIPELINE_STARTED default_settings run_censored 12);
    vm_compute; reflexivity.
Defined.

(** ** The status messages *)

(** Every status message of a step shows the state the step ends in. *)
Lemma step_broadcasts_final : forall now sys i st,
  In (Broadcast st) (snd (step now sys i)) ->
  st = formatStatus (argv sys) (machine (fst (step now sys i))).
Proof.
  intros now sys i st. rewrite step_spec.
  destruct (delivered now sys i) as [[sys0 ev]|] eqn:Hd; [ | intros [] ].
  destruct (delivered_same _ _ _ _ _ Hd) as (Hargv & _).
  destruct (status (machine sys0)); [ | intros [] ].
  destruct (macrostep now (spawned sys0) (machine sys0) ev) as [o|]; [ | intros [] ].
  unfold settled.
  pose proof (execute_outputs now (o_effects o)
                {| r_timers := timers sys0; r_actors := actors sys0;
                   r_outputs := []; r_mailbox := [] |} (Broadcast st)) as Houts.
  set (ex := fold_left (execute now) (o_effects o) _) in *.
  assert (Hnot : ~ In (Broadcast st) (r_outputs ex)).
  { intros Hin. apply Houts in Hin.
    destruct Hin as [[] | [(r & c & Heq & _) | (e & Heq & _)]]; discriminate Heq. }
  destruct (status (o_snapshot o)); cbn [fst snd]; [ | intros Hin; now elim Hnot ].
  intros Hin. apply in_app_or in Hin. destruct Hin as [Hin | Hin]; [ now elim Hnot | ].
  apply in_map_iff in Hin. destruct Hin as (x & Hx & Hin). injection Hx as ->.
  assert (Hst : st = formatStatus (argv sys0) (o_snapshot o)).
  { unfold subscriber in Hin. destruct (lastSnapshot sys0) as [l|].
    - destruct (same_object (o_snapshot o) l); cbn in Hin; [ now elim Hin | ].
      destruct Hin as [<- | []]. reflexivity.
    - destruct Hin as [<- | []]. reflexivity. }
  rewrite Hst, Hargv. destruct (r_mailbox ex); reflexivity.
Qed.

(** Every status message of a run shows the state that the input of its
    step led to. *)
Lemma run_broadcasts : forall trace sys t st,
  In (t, Broadcast st) (snd (run sys trace)) ->
  exists before i rest,
    trace = before ++ (t, i) :: rest
    /\ st = formatStatus (argv sys) (machine (fst (run sys (before ++ [(t, i)])))).
Proof.
  induction trace as [|[now i] trace IH]; intros sys t st Hin; [ now elim Hin | ].
  cbn [run] in Hin.
  destruct (step now sys i) as [sys' outs] eqn:Hstep.
  destruct (run sys' trace) as [sys'' outs'] eqn:Hrun. cbn [snd] in Hin.
  apply in_app_or in Hin. destruct Hin as [Hin | Hin].
  - apply in_map_iff in Hin. destruct Hin as (out & Hout & Hin). injection Hout as -> ->.
    exists [], i, trace. split; [ reflexivity | ].
    cbn [app]. rewrite run_cons. cbn [run fst].
    apply step_broadcasts_final. rewrite Hstep. exact Hin.
  - assert (Hin' : In (t, Broadcast st) (snd (run sys' trace))) by (rewrite Hrun; exact Hin).
    destruct (IH sys' t st Hin') as (before & j & rest & -> & ->).
    exists ((now, i) :: before), j, rest. split; [ reflexivity | ].
    cbn [app]. rewrite run_cons, Hstep. cbn [fst].
    replace sys' with (fst (step now sys i)) by (rewrite Hstep; reflexivity).
    rewrite argv_step. reflexivity.
Qed.

(** X11. Every status message is consistent.  Every status that the
    subscriber sends to the sockets along a run of the service from its
    start is the status of the state that the input of that moment led to:
    it carries the configured delays, [isCensored] is true exactly when
    the state's censorship region is not [normal] (so also during the
    release delay), [isStreamRunning] is true exactly when its stream
    region is in [running], [startTime] is non-null exactly in
    [running.started], and the stream region is never [error]. *)
Theorem X11_status_messages_are_consistent : forall cfg trace t st,
  In (t, Broadcast st) (snd (run (init cfg) trace)) ->
  (exists before i rest,
     trace = before ++ (t, i) :: rest
     /\ st = formatStatus cfg (machine (reached cfg (before ++ [(t, i)]))))
  /\ r_delaySeconds st = delaySeconds cfg
  /\ r_restartSeconds st = restartSeconds cfg
  /\ (r_isCensored st = true <-> censorship_value (r_state st) <> Normal)
  /\ (r_isStreamRunning st = true <-> exists sub, stream_value (r_state st) = Running sub)
  /\ (r_startTime st <> None <-> stream_value (r_state st) = Running Started)
  /\ stream_value (r_state st) <> Error.
Proof.
  intros cfg trace t st Hin. unfold reached.
  destruct (run_broadcasts _ _ _ _ Hin) as (before & i & rest & Htrace & ->).
  split; [ exists before, i, rest; split; [ exact Htrace | reflexivity ] | ].
  pose proof (startTime_invariant_run cfg (before ++ [(t, i)])) as Hstart.
  pose proof (Error_is_never_entered cfg (before ++ [(t, i)])) as Herr.
  set (s := machine (fst (run (init cfg) (before ++ [(t, i)])))) in *.
  cbn [formatStatus r_delaySeconds r_restartSeconds r_isCensored r_isStreamRunning
       r_startTime r_state init argv].
  split; [ reflexivity | split; [ reflexivity | split; [ | split; [ | split ] ] ] ].
  - destruct (censorship_value (value s)); split; congruence.
  - destruct (stream_value (value s)) as [| |sub|]; split;
      try discriminate; try (intros [sub' H]; discriminate H); eauto.
  - exact Hstart.
  - exact Herr.
Qed.

Lemma X11_witness :
  r_isCensored (formatStatus default_settings
                  (machine (reached default_settings run_deactivating))) = true
  /\ (r_startTime (formatStatus default_settings
                     (machine (reached default_settings run_deactivating))) <> None
      <-> stream_value (r_state (formatStatus default_settings
                                   (machine (reached default_settings run_deactivating))))
          = Running Started).
Proof.
  destruct (X11_status_messages_are_consistent default_settings run_deactivating 20
              (formatStatus default_settings
                 (machine (reached default_settings run_deactivating))))
    as (_ & _ & _ & _ & _ & H & _).
  - vm_compute. repeat first [ left; reflexivity | right ].
  - split; [ vm_compute; reflexivity | exact H ].
Defined.

(** ** The release and the buffer *)

(** X12. The release waits for the buffer delay.  For a delay of
    [delaySeconds >= 0] with [1000 * delaySeconds] not above [TIMEOUT_MAX],
    the longest delay of [setTimeout]: the machine's release delay, in
    milliseconds, is the engine's [min-threshold-time] ([delayNs], in
    nanoseconds, a product below [2 ^ 53] and so exact as a double); and
    along every run of the service from its start with time not running
    backwards, when an engine receives [RENDER_NORMAL] after an [UNCENSOR]
    received at [T] while censored (and followed by no [CENSOR]), at least
    [delayNs] nanoseconds have passed since [T]: what was captured before
    the request has left the delay queue. *)
Theorem X12_release_waits_for_the_buffer_delay : forall cfg trace st r T,
  0 <= delaySeconds cfg ->
  1000 * delaySeconds cfg <= TIMEOUT_MAX ->
  nondecreasing trace ->
  In st (history last_UNCENSOR_while_censored (init cfg) None trace) ->
  In (Render r RENDER_NORMAL) (s_outputs st) ->
  s_last_uncensor st = Some T ->
  delayNs cfg <= 1000000 * (s_time st - T)
  /\ 1000000 * Config.delays STREAM_DELAY (context (machine (init cfg))) = delayNs cfg
  /\ 0 <= delayNs cfg < 2 ^ 53.
Proof.
  intros cfg trace st r T Hpos Hmax Htrace Hin Hrender HT.
  destruct trace as [|[now i] rest]; [ now elim Hin | ].
  pose proof (delay_respected_history cfg ((now, i) :: rest) now (init cfg) None st) as H.
  destruct H as (H & _).
  - split; [ lia | exact Htrace ].
  - apply delay_invariant_init.
  - exact Hin.
  - destruct (H r Hrender) as (_ & Hdelay). specialize (Hdelay T HT).
    pose proof (setTimeout_ge _ Hmax) as Hge.
    unfold TIMEOUT_MAX in Hmax.
    unfold delayNs, SEC, Config.delays.
    cbn [settings context machine init init_snapshot].
    change (2 ^ 53) with 9007199254740992. lia.
Qed.

Lemma X12_witness :
  delayNs default_settings <= 1000000 * (15000 - 0)
  /\ 1000000 * Config.delays STREAM_DELAY (context (machine (init default_settings)))
     = delayNs default_settings
  /\ 0 <= delayNs default_settings < 2 ^ 53.
Proof.
  apply (X12_release_waits_for_the_buffer_delay default_settings censored_stretch
           {| s_time := 15000; s_input := timeout STREAM_DELAY;
              s_before := reached default_settings (firstn 4 censored_stretch);
              s_after := reached default_settings censored_stretch;
              s_outputs := snd (step 15000 (reached default_settings
                                              (firstn 4 censored_stretch))
                                  (timeout STREAM_DELAY));
              s_last_uncensor := Some 0 |} 0%nat 0).
  - vm_compute. discriminate.
  - vm_compute. discriminate.
  - cbn. lia.
  - vm_compute. repeat first [ left; reflexivity | right ].
  - vm_compute. repeat first [ left; reflexivity | right ].
  - reflexivity.
Defined.

(** * What [runPipeline] builds *)

(** ** [gstEscape] *)

(** What a reader that takes a backslash as escaping the next character
    (as GStreamer's pipeline syntax does) reads. *)
Fixpoint unescaped (s : string) : string :=
  match s with
  | EmptyString => EmptyString
  | String c rest =>
      if Ascii.eqb c backslash then
        match rest with
        | String d rest' => String d (unescaped rest')
        | EmptyString => EmptyString
        end
      else String c (unescaped rest)
  end.

Fixpoint count_backslashes (s : string) : nat :=
  match s with
  | EmptyString => O
  | String c rest => (if Ascii.eqb c backslash then 1 else 0) + count_backslashes rest
  end.

Lemma gstEscape_unescaped : forall str, unescaped (gstEscape str) = str.
Proof.
  induction str as [|c rest IH]; [ reflexivity | ].
  cbn [gstEscape]. destruct (Ascii.eqb c backslash) eqn:E.
  - apply Ascii.eqb_eq in E. subst c. cbn [unescaped].
    rewrite Ascii.eqb_refl, IH. reflexivity.
  - cbn [unescaped]. rewrite E, IH. reflexivity.
Qed.

Lemma gstEscape_length : forall str,
  String.length (gstEscape str) = (String.length str + count_backslashes str)%nat.
Proof.
  induction str as [|c rest IH]; [ reflexivity | ].
  cbn [gstEscape count_backslashes]. destruct (Ascii.eqb c backslash); cbn; rewrite IH; lia.
Qed.

Lemma gstEscape_append : forall a b, gstEscape (a ++ b) = (gstEscape a ++ gstEscape b)%string.
Proof.
  induction a as [|c a IH]; intros b; [ reflexivity | ].
  cbn [String.append gstEscape]. destruct (Ascii.eqb c backslash);
    cbn [String.append]; rewrite IH; reflexivity.
Qed.

(** X13. [gstEscape] loses nothing.  Reading the escaped string with a
    backslash taken as escaping the next character gives the string back,
    so two strings with the same escaped form are the same; and escaping
    goes through concatenation, so a path can be escaped piece by piece. *)
Theorem X13_gstEscape_round_trip : forall a b,
  unescaped (gstEscape a) = a
  /\ (gstEscape a = gstEscape b -> a = b)
  /\ gstEscape (a ++ b) = (gstEscape a ++ gstEscape b)%string.
Proof.
  intros a b. split; [ apply gstEscape_unescaped | split; [ | apply gstEscape_append ] ].
  intros H. rewrite <- (gstEscape_unescaped a), <- (gstEscape_unescaped b), H. reflexivity.
Qed.

(** X14. [gstEscape] changes backslashes only.  The escaped string is
    longer than the string by the number of its backslashes, and it is the
    string itself exactly when the string has no backslash. *)
Theorem X14_gstEscape_changes_backslashes_only : forall str,
  String.length (gstEscape str) = (String.length str + count_backslashes str)%nat
  /\ (gstEscape str = str <-> count_backslashes str = O).
Proof.
  intros str. split; [ apply gstEscape_length | split ].
  - intros H. pose proof (gstEscape_length str) as Hl. rewrite H in Hl. lia.
  - induction str as [|c rest IH]; [ reflexivity | ].
    cbn [gstEscape count_backslashes]. destruct (Ascii.eqb c backslash); cbn.
    + discriminate.
    + intros H. rewrite IH by exact H. reflexivity.
Qed.

(** ** The comment lines of the pipeline source *)

Lemma split_newline_nonempty : forall s, split_newline s <> [].
Proof.
  destruct s as [|c rest]; [ discriminate | ].
  cbn. destruct (c =? LF)%N; [ discriminate | ].
  destruct (split_newline rest); discriminate.
Qed.

Lemma join_split : forall s, join_newline (split_newline s) = s.
Proof.
  induction s as [|c rest IH]; [ reflexivity | ].
  cbn [split_newline]. destruct (c =? LF)%N eqn:E.
  - apply N.eqb_eq in E. subst c. cbn [join_newline].
    destruct (split_newline rest) as [|l ls] eqn:Hs;
      [ now elim (split_newline_nonempty rest) | ].
    rewrite IH. reflexivity.
  - destruct (split_newline rest) as [|l ls] eqn:Hs;
      [ now elim (split_newline_nonempty rest) | ].
    cbn [join_newline] in IH |- *. destruct ls; cbn; rewrite <- IH; reflexivity.
Qed.

Definition no_newline (line : JSString) : Prop := Forall (fun c => c <> LF) line.

Lemma split_lines_no_newline : forall s, Forall no_newline (split_newline s).
Proof.
  induction s as [|c rest IH]; [ repeat constructor | ].
  cbn [split_newline]. destruct (c =? LF)%N eqn:E.
  - constructor; [ constructor | exact IH ].
  - apply N.eqb_neq in E.
    destruct (split_newline rest) as [|l ls]; [ repeat constructor; exact E | ].
    apply Forall_cons_iff in IH. destruct IH as [Hl Hls].
    constructor; [ constructor; assumption | exact Hls ].
Qed.

Lemma split_line : forall line, no_newline line -> split_newline line = [line].
Proof.
  induction line as [|c rest IH]; intros H; [ reflexivity | ].
  apply Forall_cons_iff in H. destruct H as [Hc Hrest].
  cbn [split_newline]. apply N.eqb_neq in Hc. rewrite Hc, (IH Hrest). reflexivity.
Qed.

Lemma split_app_newline : forall line rest,
  no_newline line ->
  split_newline (line ++ LF :: rest) = line :: split_newline rest.
Proof.
  induction line as [|c line IH]; intros rest H.
  - cbn. reflexivity.
  - apply Forall_cons_iff in H. destruct H as [Hc Hline].
    cbn [app split_newline]. apply N.eqb_neq in Hc. rewrite Hc, (IH rest Hline). reflexivity.
Qed.

Lemma split_join : forall lines,
  lines <> [] -> Forall no_newline lines -> split_newline (join_newline lines) = lines.
Proof.
  induction lines as [|l ls IH]; intros Hne H; [ now elim Hne | ].
  apply Forall_cons_iff in H. destruct H as [Hl Hls].
  cbn [join_newline]. destruct ls as [|l' ls'].
  - apply split_line, Hl.
  - rewrite split_app_newline by exact Hl. rewrite IH; [ reflexivity | discriminate | exact Hls ].
Qed.

(** The lines that are not comments. *)
Definition kept (src : JSString) : list JSString :=
  filter (fun line => negb (is_comment line)) (split_newline src).

Lemma kept_no_newline : forall src, Forall no_newline (kept src).
Proof.
  intros src. unfold kept. apply Forall_forall. intros l Hl.
  apply filter_In in Hl. destruct Hl as [Hl _].
  pose proof (split_lines_no_newline src) as H. rewrite Forall_forall in H. auto.
Qed.

Lemma pipelineString_lines : forall src,
  split_newline (pipelineString src)
  = match kept src with [] => [[]] | _ :: _ => kept src end.
Proof.
  intros src. unfold pipelineString. fold (kept src).
  destruct (kept src) as [|l ls] eqn:Hk; [ reflexivity | ].
  apply split_join; [ discriminate | ]. rewrite <- Hk. apply kept_no_newline.
Qed.

Lemma pipelineString_no_comment : forall src,
  Forall (fun line => is_comment line = false) (split_newline (pipelineString src)).
Proof.
  intros src. rewrite pipelineString_lines.
  destruct (kept src) as [|l ls] eqn:Hk; [ repeat constructor | ].
  rewrite <- Hk. apply Forall_forall. intros x Hx. apply filter_In in Hx.
  destruct Hx as [_ Hx]. now apply negb_true_iff in Hx.
Qed.

(** X15. The pipeline string has no comment line.  Its lines are the lines
    of the source that are not comments (optional white space, then a
    hash), in their order, or the one empty line when every line of the
    source is a comment; none of them is a comment. *)
Theorem X15_pipelineString_has_no_comment_line : forall src,
  split_newline (pipelineString src)
  = match filter (fun line => negb (is_comment line)) (split_newline src) with
    | [] => [[]]
    | line :: lines => line :: lines
    end
  /\ Forall (fun line => is_comment line = false) (split_newline (pipelineString src)).
Proof.
  intros src. split; [ | apply pipelineString_no_comment ].
  rewrite pipelineString_lines. unfold kept. destruct (filter _ _); reflexivity.
Qed.

Lemma filter_all : forall (A : Type) (f : A -> bool) l,
  Forall (fun x => f x = true) l -> filter f l = l.
Proof.
  intros A f l; induction l as [|x l IH]; intros H; [ reflexivity | ].
  apply Forall_cons_iff in H. destruct H as [Hx Hl]. cbn. rewrite Hx, IH; auto.
Qed.

Lemma pipelineString_of_no_comment : forall src,
  Forall (fun line => is_comment line = false) (split_newline src) ->
  pipelineString src = src.
Proof.
  intros src H. unfold pipelineString. rewrite filter_all.
  - apply join_split.
  - eapply Forall_impl; [ | exact H ]. cbn. intros l Hl. now rewrite Hl.
Qed.

(** X16. Removing the comment lines again changes nothing, and a source is
    left as it is exactly when none of its lines is a comment (a hash after
    anything but white space starts no comment). *)
Theorem X16_pipelineString_idempotent : forall src,
  pipelineString (pipelineString src) = pipelineString src
  /\ (pipelineString src = src
      <-> Forall (fun line => is_comment line = false) (split_newline src)).
Proof.
  intros src. split; [ | split ].
  - apply pipelineString_of_no_comment, pipelineString_no_comment.
  - intros H. pose proof (pipelineString_no_comment src) as Hnone.
    rewrite H in Hnone. exact Hnone.
  - apply pipelineString_of_no_comment.
Qed.

(** ** The settings that [runPipeline] accepts *)

Definition supported_output (s : AppSettings) : Prop :=
  truthy (outPipeline s) = true
  \/ exists uri, outUri s = Some uri
                 /\ (startsWith uri "rtmp://" = true \/ startsWith uri "srt://" = true).

Lemma startsWith_truthy : forall uri p,
  p <> EmptyString -> startsWith uri p = true -> truthy (Some uri) = true.
Proof.
  intros uri p Hp H. destruct uri as [|c uri]; [ | reflexivity ].
  destruct p; [ now elim Hp | discriminate H ].
Qed.

Lemma encoder_chosen : forall e,
  In e encoder_choices
  <-> String.eqb e "none" = true \/ String.eqb e "x264" = true
      \/ String.eqb e "nvenc" = true.
Proof.
  intros e. unfold encoder_choices. rewrite !String.eqb_eq. cbn.
  split; [ intros [<- | [<- | [<- | []]]]; auto | intros [-> | [-> | ->]]; auto ].
Qed.

(** The part of [runPipeline] that looks at the encoder. *)
Lemma encoder_cases : forall e,
  (In e encoder_choices
   /\ (if String.eqb e "none" then Playing
       else if String.eqb e "x264" then Playing
       else if String.eqb e "nvenc" then Playing
       else Throws ("Unexpected encoder: " ++ e)) = Playing)
  \/ (~ In e encoder_choices
      /\ (if String.eqb e "none" then Playing
          else if String.eqb e "x264" then Playing
          else if String.eqb e "nvenc" then Playing
          else Throws ("Unexpected encoder: " ++ e)) = Throws ("Unexpected encoder: " ++ e)).
Proof.
  intros e. rewrite encoder_chosen.
  destruct (String.eqb e "none"); [ left; auto | ].
  destruct (String.eqb e "x264"); [ left; auto | ].
  destruct (String.eqb e "nvenc"); [ left; auto | ].
  right. split; [ | reflexivity ]. intros [H | [H | H]]; discriminate H.
Qed.

Lemma runPipeline_errors : forall s message,
  runPipeline s = Throws message ->
  (message = "Missing outUri"%string
   /\ truthy (outPipeline s) = false /\ truthy (outUri s) = false)
  \/ (exists uri,
        outUri s = Some uri
        /\ message = ("Unexpected output stream protocol: " ++ uri)%string
        /\ truthy (outPipeline s) = false
        /\ startsWith uri "rtmp://" = false /\ startsWith uri "srt://" = false)
  \/ (message = ("Unexpected encoder: " ++ encoder s)%string
      /\ ~ In (encoder s) encoder_choices).
Proof.
  intros s message. unfold runPipeline.
  assert (Hencoder :
            (if String.eqb (encoder s) "none" then Playing
             else if String.eqb (encoder s) "x264" then Playing
             else if String.eqb (encoder s) "nvenc" then Playing
             else Throws ("Unexpected encoder: " ++ encoder s)) = Throws message ->
            message = ("Unexpected encoder: " ++ encoder s)%string
            /\ ~ In (encoder s) encoder_choices).
  { destruct (encoder_cases (encoder s)) as [(_ & ->) | (Hnot & ->)]; [ discriminate | ].
    intros H. injection H as <-. auto. }
  destruct (truthy (outPipeline s)) eqn:Hop; cbn [negb]; [ auto | ].
  destruct (truthy (outUri s)) eqn:Hou; cbn [negb].
  - destruct (outUri s) as [uri|]; [ | discriminate Hou ].
    destruct (startsWith uri "rtmp://") eqn:Hr; [ auto | ].
    destruct (startsWith uri "srt://") eqn:Hs; [ auto | ].
    intros H. injection H as <-. right; left. exists uri. auto.
  - intros H. injection H as <-. left. auto.
Qed.

(** The three errors are told apart by their messages. *)
Lemma different_messages_1 : forall uri e,
  ("Unexpected output stream protocol: " ++ uri)%string <> ("Unexpected encoder: " ++ e)%string.
Proof. intros uri e H. cbn in H. discriminate H. Qed.
Lemma different_messages_2 : forall e,
  "Missing outUri"%string <> ("Unexpected encoder: " ++ e)%string.
Proof. intros e H. cbn in H. discriminate H. Qed.

Lemma Throws_injective : forall a b, Throws a = Throws b -> a = b.
Proof. intros a b H. congruence. Qed.

(** X17. The errors of the settings that [runPipeline] throws.  Before it
    builds the pipeline the callback checks the output and then the
    encoder, and each of its three errors is thrown exactly in its case:
    [Missing outUri] when there is neither an output pipeline nor an output
    URI; [Unexpected output stream protocol] with the URI when there is no
    output pipeline and the URI starts with neither [rtmp://] nor [srt://];
    [Unexpected encoder] with the encoder when the output passes (an output
    pipeline, or a URI with one of the two prefixes) and the encoder is
    none of [x264], [nvenc], [none].  So an error of the output comes
    before one of the encoder. *)
Theorem X17_runPipeline_throws : forall s message,
  runPipeline s = Throws message
  <-> (message = "Missing outUri"%string
       /\ truthy (outPipeline s) = false /\ truthy (outUri s) = false)
      \/ (exists uri,
            outUri s = Some uri /\ uri <> EmptyString
            /\ message = ("Unexpected output stream protocol: " ++ uri)%string
            /\ truthy (outPipeline s) = false
            /\ startsWith uri "rtmp://" = false /\ startsWith uri "srt://" = false)
      \/ (message = ("Unexpected encoder: " ++ encoder s)%string
          /\ supported_output s
          /\ ~ In (encoder s) encoder_choices).
Proof.
  intros s message. split.
  - intros H. destruct (runPipeline_errors s message H)
      as [H1 | [(uri & Huri & Hm & Hop & Hr & Hs) | (Hm & Hnot)]].
    + left. exact H1.
    + right; left. exists uri. repeat split; try assumption.
      intros ->. subst message. unfold runPipeline in H.
      rewrite Hop, Huri in H. cbn in H. discriminate H.
    + right; right. split; [ exact Hm | split; [ | exact Hnot ] ].
      subst message. unfold runPipeline in H. unfold supported_output.
      destruct (truthy (outPipeline s)); cbn [negb] in H; [ left; reflexivity | ].
      destruct (truthy (outUri s)) eqn:Hou; cbn [negb] in H.
      * destruct (outUri s) as [uri|]; [ | discriminate Hou ].
        right. exists uri. split; [ reflexivity | ].
        destruct (startsWith uri "rtmp://"); [ left; reflexivity | ].
        destruct (startsWith uri "srt://"); [ right; reflexivity | ].
        exfalso. exact (different_messages_1 _ _ (Throws_injective _ _ H)).
      * exfalso. exact (different_messages_2 _ (Throws_injective _ _ H)).
  - intros [(-> & Hop & Hou) | [(uri & Huri & Hne & -> & Hop & Hr & Hs) | (-> & Hout & Hnot)]];
      unfold runPipeline.
    + rewrite Hop, Hou. reflexivity.
    + rewrite Hop, Huri. cbn [negb truthy].
      destruct (String.eqb_spec uri EmptyString) as [-> | _]; [ now elim Hne | ].
      cbn [negb]. rewrite Hr, Hs. reflexivity.
    + destruct (encoder_cases (encoder s)) as [(Hin & _) | (_ & ->)]; [ now elim Hnot | ].
      destruct Hout as [Hop | (uri & Huri & Hprefix)].
      * rewrite Hop. reflexivity.
      * destruct (truthy (outPipeline s)); cbn [negb]; [ reflexivity | ].
        rewrite Huri.
        assert (Htruthy : truthy (Some uri) = true)
          by (destruct Hprefix as [H | H];
              [ apply (startsWith_truthy uri "rtmp://")
              | apply (startsWith_truthy uri "srt://") ]; (discriminate || exact H)).
        rewrite Htruthy. cbn [negb].
        destruct Hprefix as [-> | Hs]; [ reflexivity | ].
        rewrite Hs. destruct (startsWith uri "rtmp://"); reflexivity.
Qed.




(** * The API server *)

(** ** The API key *)

Definition ascii_only (s : JSString) : Prop := Forall (fun c => (c < 128)%N) s.

Lemma lead_byte_is_high : forall a x, (128 <= a)%N -> ~ (a + x < 128)%N.
Proof. intros a x. lia. Qed.

(** A string whose UTF-8 bytes are all below 128 is those bytes. *)
Lemma Buffer_from_ascii : forall str,
  Forall (fun b => (b < 128)%N) (Buffer_from str) -> Buffer_from str = str.
Proof.
  induction str as [|c rest IH]; intros H; [ reflexivity | ].
  cbn [Buffer_from] in H |- *.
  destruct (c <? 128)%N eqn:E1.
  - apply Forall_cons_iff in H. destruct H as [_ H]. rewrite (IH H). reflexivity.
  - exfalso.
    assert (Hhigh : forall a x l,
              (128 <= a)%N -> ~ Forall (fun b => (b < 128)%N) ((a + x)%N :: l)).
    { intros a x l Ha Hall. apply Forall_cons_iff in Hall. destruct Hall as [Hall _].
      exact (lead_byte_is_high a x Ha Hall). }
    destruct (c <? 2048)%N; [ apply Hhigh in H; [ exact H | lia ] | ].
    destruct (is_lead c).
    + destruct rest as [|d rest'];
        [ change replacement with [239 + 0; 191; 189]%N in H; apply Hhigh in H;
          [ exact H | lia ] | ].
      destruct (is_trail d); cbn [utf8_4 replacement app] in H.
      * apply Hhigh in H; [ exact H | lia ].
      * change 239%N with (239 + 0)%N in H. apply Hhigh in H; [ exact H | lia ].
    + destruct (is_trail c); cbn [utf8_3 replacement app] in H.
      * change 239%N with (239 + 0)%N in H. apply Hhigh in H; [ exact H | lia ].
      * apply Hhigh in H; [ exact H | lia ].
Qed.

Lemma Buffer_from_of_ascii : forall str, ascii_only str -> Buffer_from str = str.
Proof.
  induction str as [|c rest IH]; intros H; [ reflexivity | ].
  apply Forall_cons_iff in H. destruct H as [Hc Hrest].
  cbn [Buffer_from]. apply N.ltb_lt in Hc. rewrite Hc, (IH Hrest). reflexivity.
Qed.

Lemma preHandler_same_key : forall apiKey,
  apiKey <> [] ->
  forall header query, js_or header query = Some apiKey ->
  preHandler apiKey header query = passes.
Proof.
  intros apiKey Hne header query Hk. unfold preHandler. rewrite Hk.
  destruct apiKey as [|c k]; [ now elim Hne | ]. cbn [js_truthy negb].
  rewrite Nat.eqb_refl. cbn [negb]. unfold timingSafeEqual. rewrite Nat.eqb_refl.
  destruct (list_eq_dec N.eq_dec _ _) as [_ | Hc]; [ reflexivity | now elim Hc ].
Qed.

Lemma preHandler_passes : forall apiKey header query,
  preHandler apiKey header query = passes ->
  exists provided,
    js_or header query = Some provided /\ provided <> []
    /\ List.length provided = List.length apiKey
    /\ Buffer_from provided = Buffer_from apiKey.
Proof.
  intros apiKey header query. unfold preHandler.
  destruct (js_or header query) as [[|c k]|] eqn:Hk; cbn [js_truthy negb];
    try discriminate.
  destruct (Nat.eqb (List.length (c :: k)) (List.length apiKey)) eqn:Hlen; cbn [negb];
    [ | discriminate ].
  unfold timingSafeEqual.
  destruct (Nat.eqb (List.length (Buffer_from _)) _); [ | discriminate ].
  destruct (list_eq_dec N.eq_dec _ _) as [Heq | _]; [ | discriminate ].
  intros _. exists (c :: k). apply Nat.eqb_eq in Hlen.
  split; [ reflexivity | split; [ discriminate | split; assumption ] ].
Qed.

Lemma preHandler_ascii_key : forall apiKey header query,
  ascii_only apiKey ->
  (preHandler apiKey header query = passes
   <-> js_or header query = Some apiKey /\ apiKey <> []).
Proof.
  intros apiKey header query Hascii. split.
  - intros H. destruct (preHandler_passes _ _ _ H) as (provided & Hk & Hne & _ & Hbytes).
    rewrite (Buffer_from_of_ascii apiKey Hascii) in Hbytes.
    assert (Hp : Buffer_from provided = provided).
    { apply Buffer_from_ascii. rewrite Hbytes. exact Hascii. }
    rewrite Hp in Hbytes. subst provided. auto.
  - intros [Hk Hne]. now apply preHandler_same_key.
Qed.

(** X19. The API key check lets the key through, and nothing else.  For an
    API key of ASCII characters, the hook lets a request pass exactly when
    the key is not empty and the provided key (the header
    [streamdelay-api-key] when it is a non-empty string, else the query
    parameter [key]) is the API key, code unit by code unit. *)
Theorem X19_preHandler_passes_iff_the_key_is_given : forall apiKey header query,
  ascii_only apiKey ->
  (preHandler apiKey header query = passes
   <-> js_or header query = Some apiKey /\ apiKey <> []).
Proof. exact preHandler_ascii_key. Qed.

(** The key [secret], and the same with a last character of code 233. *)
Definition key_secret : JSString := [115; 101; 99; 114; 101; 116]%N.
Definition key_secre_233 : JSString := [115; 101; 99; 114; 101; 233]%N.

Lemma X19_witness :
  ascii_only key_secret
  /\ preHandler key_secret None (Some key_secret) = passes
  /\ preHandler key_secret (Some key_secre_233) (Some key_secret) <> passes.
Proof.
  assert (Hascii : ascii_only key_secret) by (unfold ascii_only, key_secret; repeat constructor).
  split; [ exact Hascii | split ].
  - apply (X19_preHandler_passes_iff_the_key_is_given key_secret None (Some key_secret) Hascii).
    split; [ reflexivity | discriminate ].
  - intros H.
    apply (X19_preHandler_passes_iff_the_key_is_given key_secret (Some key_secre_233)
             (Some key_secret) Hascii) in H.
    destruct H as [H _]. discriminate H.
Defined.

(** X20. The edges of the API key check.  Whatever the API key: no request
    passes when the API key is empty; a request that passes provides a
    non-empty key with as many code units and the same UTF-8 bytes as the
    API key; with neither a header nor a query key, or empty ones, the
    reply is 400; a non-empty header decides alone, the query key is then
    not looked at; and a provided key with as many code units as the API
    key but another number of UTF-8 bytes makes [timingSafeEqual] throw
    instead of giving the reply 403. *)
Theorem X20_preHandler_edges : forall apiKey header query,
  (apiKey = [] -> preHandler apiKey header query <> passes)
  /\ (preHandler apiKey header query = passes ->
      exists provided,
        js_or header query = Some provided /\ provided <> []
        /\ List.length provided = List.length apiKey
        /\ Buffer_from provided = Buffer_from apiKey)
  /\ (js_or header query = None \/ js_or header query = Some [] ->
      preHandler apiKey header query = reply_400_missing_api_key)
  /\ (js_truthy header = true ->
      forall query', preHandler apiKey header query' = preHandler apiKey header query)
  /\ (forall provided,
        js_or header query = Some provided -> provided <> [] ->
        List.length provided = List.length apiKey ->
        List.length (Buffer_from provided) <> List.length (Buffer_from apiKey) ->
        preHandler apiKey header query = throws_RangeError).
Proof.
  intros apiKey header query. split; [ | split; [ | split; [ | split ] ] ].
  - intros -> H. destruct (preHandler_passes _ _ _ H) as (provided & _ & Hne & Hlen & _).
    destruct provided; [ now elim Hne | discriminate Hlen ].
  - apply preHandler_passes.
  - unfold preHandler. intros [-> | ->]; reflexivity.
  - intros H query'. unfold preHandler.
    destruct header as [[|c k]|]; try discriminate H. reflexivity.
  - intros provided Hk Hne Hlen Hbytes. unfold preHandler. rewrite Hk.
    destruct provided as [|c k]; [ now elim Hne | ]. cbn [js_truthy negb].
    apply Nat.eqb_eq in Hlen. rewrite Hlen. cbn [negb].
    unfold timingSafeEqual. apply Nat.eqb_neq in Hbytes. rewrite Hbytes. reflexivity.
Qed.

Lemma X20_witness :
  preHandler key_secre_233 (Some key_secret) None = throws_RangeError
  /\ preHandler key_secret (Some key_secre_233) (Some key_secret)
     = preHandler key_secret (Some key_secre_233) None.
Proof.
  split.
  - apply (X20_preHandler_edges key_secre_233 (Some key_secret) None) with key_secret;
      [ reflexivity | discriminate | reflexivity | vm_compute; discriminate ].
  - apply (X20_preHandler_edges key_secret (Some key_secre_233) None). reflexivity.
Defined.

(** ** WebSocket messages *)

(** The JSON object of a request with boolean fields. *)
Definition request_json (p : PatchStateRequest) : JSON :=
  JSON_object
    (match isCensored_field p with
     | Some b => [("isCensored"%string, JSON_boolean b)]
     | None => []
     end
     ++ match isStreamRunning_field p with
        | Some b => [("isStreamRunning"%string, JSON_boolean b)]
        | None => []
        end).

(** X21. A WebSocket message that is a valid request is handled as the
    [PATCH] route handles its body.  For every request with optional
    boolean fields, the message handler, given the request's JSON object,
    sends the events that [handlePatchState] sends for the request, in the
    same order, and logs nothing. *)
Theorem X21_ws_message_is_a_PATCH : forall p,
  on_message (Some (request_json p)) = (handlePatchState p, []).
Proof.
  intros [[[|]|] [[|]|]]; reflexivity.
Qed.

Definition is_object (v : JSON) : bool :=
  match v with JSON_object _ => true | _ => false end.

(** X22. WebSocket messages are not validated.  Whatever JSON value a
    message parses to, the handler sends at most two events; it logs an
    error (the caught [TypeError]) exactly for [null]; a value that is not
    an object (a number, a string, a boolean, an array) sends nothing; and
    a field that is present is used by its truthiness, not its type:
    [isCensored] sends [CENSOR] when its value is truthy and [UNCENSOR]
    when it is falsy, as [null], [0] and the empty string are.  A message
    that does not parse is logged and sends nothing. *)
Theorem X22_ws_message_unvalidated : forall v,
  (snd (on_message (Some v)) = [error_failed_to_handle] <-> v = JSON_null)
  /\ (is_object v = false -> fst (on_message (Some v)) = [])
  /\ (forall members c,
        v = JSON_object members ->
        own_property members "isCensored" = Some c ->
        own_property members "isStreamRunning" = None ->
        fst (on_message (Some v)) = [if ToBoolean c then api_CENSOR else api_UNCENSOR])
  /\ (List.length (fst (on_message (Some v))) <= 2)%nat
  /\ on_message None = ([], [warn_unexpected_ws_data]).
Proof.
  intros v. split; [ | split; [ | split; [ | split ] ] ].
  - destruct v as [|b|x|s|items|members]; cbn;
      try (split; [ discriminate | discriminate ]); split; reflexivity.
  - destruct v; cbn; try reflexivity. discriminate.
  - intros members c -> Hc Hr. cbn. rewrite Hc, Hr. reflexivity.
  - destruct v as [|b|x|s|items|members]; cbn; try lia.
    destruct (own_property members "isCensored");
      destruct (own_property members "isStreamRunning"); cbn; lia.
  - reflexivity.
Qed.

Lemma X22_witness :
  fst (on_message (Some (JSON_object [("isCensored"%string, JSON_null)])))
  = [api_UNCENSOR]
  /\ fst (on_message (Some (JSON_object [("isCensored"%string,
                                           JSON_string [102; 97; 108; 115; 101]%N)])))
     = [api_CENSOR].
Proof.
  split.
  - apply (X22_ws_message_unvalidated (JSON_object [("isCensored"%string, JSON_null)]))
      with (members := [("isCensored"%string, JSON_null)]) (c := JSON_null); reflexivity.
  - apply (X22_ws_message_unvalidated
             (JSON_object [("isCensored"%string, JSON_string [102; 97; 108; 115; 101]%N)]))
      with (members := [("isCensored"%string, JSON_string [102; 97; 108; 115; 101]%N)])
           (c := JSON_string [102; 97; 108; 115; 101]%N); reflexivity.
Defined.

(** ** The sockets *)

(** The last status message among the outputs of the service, [acc] when
    there is none. *)
Definition seen (acc : option StatusResponse) (outs : list Service.Output)
  : option StatusResponse :=
  fold_left (fun _ st => Some st) (broadcasts outs) acc.

Lemma seen_app : forall acc a b, seen acc (a ++ b) = seen (seen acc a) b.
Proof. intros acc a b. unfold seen. rewrite broadcasts_app. apply fold_left_app. Qed.

(** The subscriber has seen no snapshot, or the current one. *)
Definition subscriber_follows (sys : System) : Prop :=
  status (machine sys) = status_active ->
  lastSnapshot sys = None \/ lastSnapshot sys = Some (machine sys).

(** A step that stops the machine keeps the snapshot's content. *)
Lemma failed_step_keeps_the_snapshot : forall now fresh s e o,
  macrostep now fresh s e = Some o ->
  status s = status_active ->
  status (o_snapshot o) = status_error ->
  value (o_snapshot o) = value s /\ context (o_snapshot o) = context s.
Proof.
  intros now fresh [[c st] ctx ch stat oi] e o Hstep Hstat.
  cbn in Hstat. subst stat. revert o Hstep.
  destruct_value c st; destruct ch, e; by_outcome;

      cbv -[Z.mul Z.add Service.setTimeout]; intros Herror; try discriminate Herror; split; reflexivity.
Qed.

Lemma formatStatus_content : forall cfg a b,
  value a = value b -> context a = context b -> formatStatus cfg a = formatStatus cfg b.
Proof. intros cfg a b Hv Hc. unfold formatStatus. rewrite Hv, Hc. reflexivity. Qed.

(** After a step, the last status message is the status of the state the
    step ends in, when it was so before. *)
Lemma step_up_to_date : forall now sys i acc,
  subscriber_follows sys ->
  acc = Some (formatStatus (argv sys) (machine sys)) ->
  seen acc (snd (step now sys i))
  = Some (formatStatus (argv sys) (machine (fst (step now sys i))))
  /\ subscriber_follows (fst (step now sys i)).
Proof.
  intros now sys i acc Hfollows Hacc. rewrite step_spec.
  destruct (delivered now sys i) as [[sys0 ev]|] eqn:Hd; [ | split; assumption ].
  destruct (delivered_same _ _ _ _ _ Hd) as (Hargv & Hm & _ & _ & Hl).
  destruct (status (machine sys0)) eqn:Hstatus.
  2:{ cbn [fst snd]. rewrite Hm. split; [ exact Hacc | ].
      intros H. rewrite Hm in H. congruence. }
  destruct (macrostep now (spawned sys0) (machine sys0) ev) as [o|] eqn:Hstep;
    [ | split; assumption ].
  unfold settled.
  pose proof (execute_broadcasts now (o_effects o)
                {| r_timers := timers sys0; r_actors := actors sys0;
                   r_outputs := []; r_mailbox := [] |}) as Hbroad.
  set (ex := fold_left (execute now) (o_effects o) _) in *.
  cbn [r_outputs broadcasts flat_map] in Hbroad.
  destruct (status (o_snapshot o)) eqn:Hso.
  - cbn [fst snd].
    assert (Hseen : seen acc (r_outputs ex
                              ++ map Broadcast
                                   (snd (subscriber (argv sys0) (lastSnapshot sys0)
                                           (o_snapshot o))))
                    = Some (formatStatus (argv sys) (o_snapshot o))
                    /\ (fst (subscriber (argv sys0) (lastSnapshot sys0) (o_snapshot o))
                        = Some (o_snapshot o))).
    { unfold seen. rewrite broadcasts_app, broadcasts_map, Hbroad. cbn [app].
      unfold subscriber. rewrite Hl, Hargv.
      assert (Hsys : status (machine sys) = status_active) by congruence.
      destruct (Hfollows Hsys) as [-> | ->]; [ split; reflexivity | ].
      destruct (same_object (o_snapshot o) (machine sys)) eqn:Hobj;
        [ | split; reflexivity ].
      rewrite <- Hm in Hobj.
      rewrite (same_object_same_snapshot _ _ _ _ _ Hstep Hobj), Hm.
      split; [ exact Hacc | reflexivity ]. }
    destruct Hseen as (Hseen & Hlast). rewrite Hseen.
    destruct (r_mailbox ex).
    + split; [ reflexivity | ]. intros _. right. exact Hlast.
    + split; [ reflexivity | ]. intros H. discriminate H.
  - cbn [fst snd machine]. split.
    + unfold seen. rewrite Hbroad. cbn [fold_left]. rewrite Hacc. f_equal.
      destruct (failed_step_keeps_the_snapshot _ _ _ _ _ Hstep Hstatus Hso) as (Hv & Hc).
      rewrite <- Hm. symmetry. now apply formatStatus_content.
    + intros H. cbn in H. congruence.
Qed.

Lemma run_up_to_date : forall trace sys acc,
  subscriber_follows sys ->
  acc = Some (formatStatus (argv sys) (machine sys)) ->
  seen acc (map snd (snd (run sys trace)))
  = Some (formatStatus (argv sys) (machine (fst (run sys trace))))
  /\ subscriber_follows (fst (run sys trace))
  /\ argv (fst (run sys trace)) = argv sys.
Proof.
  induction trace as [|[now i] rest IH]; intros sys acc Hfollows Hacc.
  - cbn. auto.
  - rewrite run_cons, run_outputs_cons, seen_app.
    destruct (step_up_to_date now sys i acc Hfollows Hacc) as (Hseen & Hfollows').
    rewrite <- (argv_step now sys i) in Hseen.
    destruct (IH _ _ Hfollows' Hseen) as (H1 & H2 & H3).
    rewrite H1, H3, argv_step. auto.
Qed.

(** The last status message sent to the socket [ws], [acc] when there is
    none. *)
Definition last_sent (ws : Server.WebSocket) (acc : option StatusResponse)
  (outs : list Server.Output) : option StatusResponse :=
  fold_left (fun acc out =>
               match out with
               | Server.ws_send ws' status => if Nat.eqb ws ws' then Some status else acc
               | _ => acc
               end) outs acc.

Lemma last_sent_app : forall ws acc a b,
  last_sent ws acc (a ++ b) = last_sent ws (last_sent ws acc a) b.
Proof. intros ws acc a b. apply fold_left_app. Qed.

Lemma last_sent_broadcast : forall ws status sockets acc,
  last_sent ws acc (map (fun ws' => Server.ws_send ws' status) sockets)
  = if existsb (Nat.eqb ws) sockets then Some status else acc.
Proof.
  intros ws status sockets. unfold last_sent.
  induction sockets as [|x sockets IH]; intros acc; [ reflexivity | ].
  cbn [map fold_left existsb].
  rewrite IH. destruct (Nat.eqb ws x); cbn [orb]; [ | reflexivity ].
  destruct (existsb (Nat.eqb ws) sockets); reflexivity.
Qed.

Lemma existsb_In : forall ws sockets, In ws sockets -> existsb (Nat.eqb ws) sockets = true.
Proof.
  intros ws sockets H. apply existsb_exists. exists ws. split; [ exact H | apply Nat.eqb_refl ].
Qed.

(** An open socket is sent every status message of the service. *)
Lemma last_sent_relay : forall ws sockets outs acc,
  In ws sockets ->
  last_sent ws acc (flat_map (Server.relay sockets) outs) = seen acc outs.
Proof.
  intros ws sockets outs; induction outs as [|out outs IH]; intros acc Hin; [ reflexivity | ].
  cbn [flat_map]. rewrite last_sent_app, (IH _ Hin).
  change (out :: outs) with ([out] ++ outs). rewrite seen_app. f_equal.
  destruct out as [r c|status|e]; try reflexivity.
  cbn [Server.relay]. rewrite last_sent_broadcast, (existsb_In _ _ Hin). reflexivity.
Qed.

Lemma last_sent_console : forall ws acc logs,
  last_sent ws acc (map Server.console logs) = acc.
Proof. intros ws acc logs. induction logs as [|l logs IH]; [ reflexivity | exact IH ]. Qed.

(** Between the events of the server: every open socket has been sent the
    current status. *)
Definition clients_current (st : Server.State) (log : list Server.Output) : Prop :=
  subscriber_follows (Server.pipelineService st)
  /\ forall ws, In ws (Server.sockets st) ->
       last_sent ws None log
       = Some (formatStatus (argv (Server.pipelineService st))
                 (machine (Server.pipelineService st))).

Lemma send_all_up_to_date : forall now sys events acc,
  subscriber_follows sys ->
  acc = Some (formatStatus (argv sys) (machine sys)) ->
  seen acc (snd (Server.send_all now sys events))
  = Some (formatStatus (argv sys) (machine (fst (Server.send_all now sys events))))
  /\ subscriber_follows (fst (Server.send_all now sys events))
  /\ argv (fst (Server.send_all now sys events)) = argv sys.
Proof.
  intros now sys events acc Hfollows Hacc. unfold Server.send_all. cbn [fst snd].
  now apply run_up_to_date.
Qed.

Lemma clients_current_step : forall args now st ev log,
  argv (Server.pipelineService st) = Server.app args ->
  clients_current st log ->
  clients_current (fst (Server.step args now st ev)) (log ++ snd (Server.step args now st ev))
  /\ argv (Server.pipelineService (fst (Server.step args now st ev))) = Server.app args.
Proof.
  intros args now [sys sockets] ev log Hargv [Hfollows Hcurrent].
  unfold clients_current. cbn [Server.pipelineService Server.sockets] in *.
  destruct ev as [header query route | ws | ws parsed | i];
    cbn [Server.step Server.pipelineService Server.sockets].
  - destruct (preHandler (Server.apiKey args) header query);
      try (cbn [fst snd Server.pipelineService Server.sockets];
           split; [ split; [ exact Hfollows | ] | exact Hargv ];
           intros ws Hws; rewrite last_sent_app; cbn; now apply Hcurrent).
    destruct route as [ws | | body]; cbn [Server.pipelineService Server.sockets].
    + cbn [fst snd Server.pipelineService Server.sockets].
      split; [ split; [ exact Hfollows | ] | exact Hargv ].
      intros ws' Hws'. rewrite last_sent_app. cbn [last_sent fold_left].
      destruct (Nat.eqb ws' ws) eqn:E; [ now rewrite Hargv | ].
      apply Hcurrent. unfold Server.add in Hws'.
      destruct (existsb (Nat.eqb ws) sockets); [ exact Hws' | ].
      apply in_app_or in Hws'. destruct Hws' as [Hws' | [<- | []]]; [ exact Hws' | ].
      rewrite Nat.eqb_refl in E. discriminate E.
    + cbn [fst snd Server.pipelineService Server.sockets].
      split; [ split; [ exact Hfollows | ] | exact Hargv ].
      intros ws Hws. rewrite last_sent_app. cbn. now apply Hcurrent.
    + destruct (Server.send_all now sys (handlePatchState body)) as [sys' outs] eqn:Hsend.
      cbn [fst snd Server.pipelineService Server.sockets].
      pose proof (fun acc => send_all_up_to_date now sys (handlePatchState body) acc Hfollows)
        as H. rewrite Hsend in H. cbn [fst snd] in H.
      split; [ split | ].
      * exact (proj1 (proj2 (H _ eq_refl))).
      * intros ws Hws. rewrite !last_sent_app, (last_sent_relay _ _ _ _ Hws).
        cbn [last_sent fold_left].
        destruct (H _ (Hcurrent ws Hws)) as (H1 & _ & H3). rewrite H1, H3. reflexivity.
      * rewrite (proj2 (proj2 (H _ eq_refl))). exact Hargv.
  - cbn [fst snd Server.pipelineService Server.sockets]. rewrite app_nil_r.
    split; [ split; [ exact Hfollows | ] | exact Hargv ].
    intros ws' Hws'. apply Hcurrent. unfold Server.delete in Hws'.
    apply filter_In in Hws'. tauto.
  - destruct (on_message parsed) as [events logs]. cbv beta iota.
    destruct (Server.send_all now sys events) as [sys' outs] eqn:Hsend.
    cbn [fst snd Server.pipelineService Server.sockets].
    pose proof (fun acc => send_all_up_to_date now sys events acc Hfollows) as H.
    rewrite Hsend in H. cbn [fst snd] in H.
    split; [ split | ].
    + exact (proj1 (proj2 (H _ eq_refl))).
    + intros ws' Hws'. rewrite !last_sent_app, (last_sent_relay _ _ _ _ Hws'),
        last_sent_console.
      destruct (H _ (Hcurrent ws' Hws')) as (H1 & _ & H3). rewrite H1, H3. reflexivity.
    + rewrite (proj2 (proj2 (H _ eq_refl))). exact Hargv.
  - destruct (Service.step now sys i) as [sys' outs] eqn:Hstep.
    cbn [fst snd Server.pipelineService Server.sockets].
    pose proof (fun acc => step_up_to_date now sys i acc Hfollows) as H.
    pose proof (argv_step now sys i) as Ha.
    rewrite Hstep in H, Ha. cbn [fst snd] in H, Ha.
    split; [ split | ].
    + exact (proj2 (H _ eq_refl)).
    + intros ws Hws. rewrite last_sent_app, (last_sent_relay _ _ _ _ Hws).
      destruct (H _ (Hcurrent ws Hws)) as (H1 & _). rewrite H1, Ha. reflexivity.
    + rewrite Ha. exact Hargv.
Qed.

Lemma clients_current_run : forall args trace st log,
  argv (Server.pipelineService st) = Server.app args ->
  clients_current st log ->
  clients_current (fst (Server.run args st trace)) (log ++ snd (Server.run args st trace))
  /\ argv (Server.pipelineService (fst (Server.run args st trace))) = Server.app args.
Proof.
  intros args trace; induction trace as [|[now ev] rest IH]; intros st log Hargv H.
  - cbn. rewrite app_nil_r. auto.
  - cbn [Server.run].
    destruct (clients_current_step args now st ev log Hargv H) as (H1 & H2).
    destruct (Server.step args now st ev) as [st' outs].
    cbn [fst snd] in H1, H2.
    specialize (IH st' (log ++ outs) H2 H1).
    destruct (Server.run args st' rest) as [st'' outs'].
    cbn [fst snd] in IH |- *. rewrite app_assoc. exact IH.
Qed.

Lemma main_argv : forall args t0,
  argv (Server.pipelineService (Server.main args t0)) = Server.app args.
Proof.
  intros args t0. unfold Server.main. cbn [Server.pipelineService argv].
  destruct (Server.start args); [ apply argv_step | reflexivity ].
Qed.

(** X23. Every open socket has the current status.  After every sequence
    of events of the server from [main] (requests with or without the key,
    sockets opening and closing, messages, events of the engines and
    timers), the last status message sent to each socket that is open is
    the status of the machine's current state: what the socket was sent
    when it was opened, or the last message the subscriber has relayed
    since. *)
Theorem X23_open_sockets_have_the_current_status : forall args t0 trace ws,
  In ws (Server.sockets (fst (Server.run args (Server.main args t0) trace))) ->
  last_sent ws None (snd (Server.run args (Server.main args t0) trace))
  = Some (formatStatus (Server.app args)
            (machine (Server.pipelineService
                        (fst (Server.run args (Server.main args t0) trace))))).
Proof.
  intros args t0 trace ws Hws.
  destruct (clients_current_run args trace (Server.main args t0) [] (main_argv args t0))
    as ((_ & H) & Hargv).
  - split; [ intros _; left; reflexivity | intros ws' [] ].
  - cbn [app] in H. rewrite (H ws Hws), Hargv. reflexivity.
Qed.

(** The server of the default settings with the key [secret], started at
    boot. *)
Definition default_arguments : Server.Arguments :=
  {| Server.app := default_settings; Server.apiHostname := "localhost";
     Server.apiPort := 8404; Server.apiKey := key_secret; Server.start := true |}.

(** Two sockets open, the engine starts, the first socket asks for
    censoring, the second one closes, the stream is stopped by a [PATCH]. *)
Definition server_run : list (Z * Server.Event) :=
  [(1, Server.request (Some key_secret) None (Server.GET_ws 0%nat));
   (2, Server.request None (Some key_secret) (Server.GET_ws 1%nat));
   (3, Server.pipeline_input (sendBack 0%nat status_PIPELINE_STARTED));
   (4, Server.ws_message 0%nat
         (Some (JSON_object [("isCensored"%string, JSON_boolean true)])));
   (5, Server.ws_close 1%nat);
   (6, Server.request (Some key_secret) None
         (Server.PATCH_status {| isCensored_field := None;
                                 isStreamRunning_field := Some false |}))].

Lemma X23_witness :
  Server.sockets (fst (Server.run default_arguments (Server.main default_arguments 0)
                         server_run)) = [0%nat]
  /\ last_sent 0%nat None
       (snd (Server.run default_arguments (Server.main default_arguments 0) server_run))
     = Some (formatStatus (Server.app default_arguments)
               (machine (Server.pipelineService
                           (fst (Server.run default_arguments
                                   (Server.main default_arguments 0) server_run))))).
Proof.
  split; [ vm_compute; reflexivity | ].
  apply (X23_open_sockets_have_the_current_status default_arguments 0 server_run 0%nat).
  vm_compute. left. reflexivity.
Defined.

(** ** The routes *)

(** What every step of the service preserves, and that does not depend on
    what the subscriber has seen, holds in every state of the server. *)
Lemma server_invariant : forall (P : System -> Prop),
  (forall now sys i, P sys -> P (fst (Service.step now sys i))) ->
  (forall sys, P sys ->
     P {| argv := argv sys; machine := machine sys; timers := timers sys;
          actors := actors sys; spawned := spawned sys; lastSnapshot := None |}) ->
  forall args t0 trace,
    P (init (Server.app args)) ->
    P (Server.pipelineService (fst (Server.run args (Server.main args t0) trace))).
Proof.
  intros P Hstep Hlast args t0 trace Hinit.
  assert (Hmain : P (Server.pipelineService (Server.main args t0))).
  { unfold Server.main. cbn [Server.pipelineService]. apply Hlast.
    destruct (Server.start args); [ apply Hstep | ]; exact Hinit. }
  clear Hinit. revert Hmain. generalize (Server.main args t0).
  induction trace as [|[now ev] rest IH]; intros st H; [ exact H | ].
  cbn [Server.run].
  assert (H' : P (Server.pipelineService (fst (Server.step args now st ev)))).
  { destruct ev as [header query route | ws | ws parsed | i]; cbn [Server.step].
    - destruct (preHandler (Server.apiKey args) header query); try exact H.
      destruct route as [ws | | body]; try exact H.
      unfold Server.send_all. cbn [fst snd Server.pipelineService].
      now apply run_invariant.
    - exact H.
    - destruct (on_message parsed) as [events logs].
      unfold Server.send_all. cbn [fst snd Server.pipelineService].
      now apply run_invariant.
    - destruct (Service.step now (Server.pipelineService st) i) as [sys outs] eqn:E.
      cbn [fst Server.pipelineService].
      replace sys with (fst (Service.step now (Server.pipelineService st) i))
        by (rewrite E; reflexivity).
      now apply Hstep. }
  destruct (Server.step args now st ev) as [st' outs]. cbn [fst] in H'.
  specialize (IH st' H'). destruct (Server.run args st' rest) as [st'' outs'].
  exact IH.
Qed.

Lemma server_engines_consistent : forall args t0 trace,
  engines_consistent (Server.pipelineService
                        (fst (Server.run args (Server.main args t0) trace))).
Proof.
  intros args t0 trace. apply server_invariant.
  - apply engines_consistent_step.
  - intros sys H. exact H.
  - apply engines_consistent_init.
Qed.

(** ** The subscriber along a run *)

(** An event other than the engine's error leaves the machine running; the
    snapshot after it is no older object than the one before; and a step
    that hands the same snapshot object on starts no engine. *)
Lemma macrostep_snapshot_object : forall now fresh s e o,
  macrostep now fresh s e = Some o ->
  status s = status_active ->
  (forall sub, stream_value (value s) = Running sub -> children s <> None) ->
  e <> xstate_error_actor_pipelineActor ->
  status (o_snapshot o) = status_active
  /\ (oid s <= oid (o_snapshot o))%nat
  /\ (same_object (o_snapshot o) s = true -> filter is_start (o_effects o) = []).
Proof.
  intros now fresh [[c st] ctx ch stat oi] e o Hstep Hstat Hengine.
  cbn in Hstat, Hengine. subst stat. revert o Hstep.
  destruct_value c st; destruct ch; try (now elim (Hengine _ eq_refl));
    destruct e; by_outcome;
    cbv -[Z.mul Z.add Service.setTimeout same_object Nat.le]; intros Hne;
    try (now elim Hne);
    (split; [ reflexivity | split; [ lia | ] ]);
    intros Hsame; try reflexivity;
    unfold same_object in Hsame; cbn [oid] in Hsame;
    apply Nat.eqb_eq in Hsame; lia.
Qed.

(** What an input delivers is never the error event of an engine. *)
Lemma delivered_no_error_event : forall now sys i sys0 ev,
  delivered now sys i = Some (sys0, ev) -> ev <> xstate_error_actor_pipelineActor.
Proof.
  intros now sys i sys0 ev Hd. pose proof (delivered_event _ _ _ _ _ Hd) as H.
  destruct i as [a | r x | d].
  - subst ev. destruct a; discriminate.
  - destruct H as (-> & _). destruct x; discriminate.
  - subst ev. destruct d; discriminate.
Qed.

(** Once the subscriber has seen a snapshot it has seen one for good, and
    before that no status message was sent. *)
Lemma first_broadcast_step : forall now sys i,
  lastSnapshot (fst (step now sys i)) = None ->
  lastSnapshot sys = None /\ broadcasts (snd (step now sys i)) = [].
Proof.
  intros now sys i. rewrite step_spec.
  destruct (delivered now sys i) as [[sys0 ev]|] eqn:Hd; [ | cbn; auto ].
  destruct (delivered_same _ _ _ _ _ Hd) as (_ & _ & _ & _ & Hl).
  destruct (status (machine sys0)) eqn:Hstatus; [ | cbn; rewrite Hl; auto ].
  destruct (macrostep now (spawned sys0) (machine sys0) ev) as [o|] eqn:Hstep;
    [ | cbn; auto ].
  unfold settled.
  pose proof (execute_broadcasts now (o_effects o)
                {| r_timers := timers sys0; r_actors := actors sys0;
                   r_outputs := []; r_mailbox := [] |}) as Hbroad.
  set (ex := fold_left (execute now) (o_effects o) _) in *.
  cbn [r_outputs broadcasts flat_map] in Hbroad.
  destruct (status (o_snapshot o)).
  - cbn [fst snd]. intros H.
    assert (Hsome : fst (subscriber (argv sys0) (lastSnapshot sys0) (o_snapshot o)) <> None).
    { unfold subscriber. destruct (lastSnapshot sys0) as [l|]; [ | discriminate ].
      destruct (same_object (o_snapshot o) l); discriminate. }
    destruct (r_mailbox ex); cbn in H; now elim Hsome.
  - cbn [fst snd lastSnapshot]. rewrite Hl. intros H. split; [ exact H | exact Hbroad ].
Qed.

Lemma first_broadcast_run : forall trace sys,
  lastSnapshot (fst (run sys trace)) = None ->
  lastSnapshot sys = None /\ broadcasts (map snd (snd (run sys trace))) = [].
Proof.
  induction trace as [|[now i] rest IH]; intros sys H; [ cbn; auto | ].
  rewrite run_cons in H. destruct (IH _ H) as (H1 & H2).
  destruct (first_broadcast_step _ _ _ H1) as (H3 & H4).
  split; [ exact H3 | ].
  rewrite run_outputs_cons, broadcasts_app, H2, H4. reflexivity.
Qed.

(** The snapshot of a machine that has stopped is a new object. *)
Lemma halt_is_a_new_object : forall sys s,
  (oid s <= oid (machine sys))%nat -> same_object (machine (halt sys)) s = false.
Proof.
  intros sys s H. unfold same_object, halt. cbn [machine cloneMachineSnapshot oid].
  apply Nat.eqb_neq. lia.
Qed.

(** What a processed event sends, for a subscriber that has seen no
    snapshot or the current one. *)
Lemma step_notifies : forall now sys i,
  subscriber_follows sys ->
  child_iff_running (machine sys) ->
  status (machine sys) = status_active ->
  delivered now sys i <> None ->
  broadcasts (snd (step now sys i))
  = (if match lastSnapshot sys with
        | None => false
        | Some l => same_object (machine (fst (step now sys i))) l
        end
     then []
     else [formatStatus (argv sys) (machine (fst (step now sys i)))])
  /\ (same_object (machine (fst (step now sys i))) (machine sys) = true ->
      machine (fst (step now sys i)) = machine sys).
Proof.
  intros now sys i Hfollows Hengine Hactive Hdel. rewrite step_spec.
  destruct (delivered now sys i) as [[sys0 ev]|] eqn:Hd; [ | now elim Hdel ].
  destruct (delivered_same _ _ _ _ _ Hd) as (Hargv & Hm & _ & _ & Hl).
  pose proof (delivered_no_error_event _ _ _ _ _ Hd) as Hev.
  assert (Hstatus : status (machine sys0) = status_active) by congruence.
  rewrite Hstatus.
  destruct (macrostep now (spawned sys0) (machine sys0) ev) as [o|] eqn:Hstep;
    [ | now elim (macrostep_total _ _ _ _ Hstep) ].
  rewrite <- Hm in Hengine.
  destruct (macrostep_snapshot_object _ _ _ _ _ Hstep Hstatus
              (fun sub H => proj2 Hengine (ex_intro _ sub H)) Hev)
    as (Hso & Hoid & Hstart).
  pose proof (same_object_same_snapshot _ _ _ _ _ Hstep) as Hsame.
  rewrite Hm in Hoid, Hstart, Hsame.
  unfold settled. rewrite Hso.
  pose proof (execute_broadcasts now (o_effects o)
                {| r_timers := timers sys0; r_actors := actors sys0;
                   r_outputs := []; r_mailbox := [] |}) as Hbroad.
  destruct (execute_mailbox now (o_effects o)
              {| r_timers := timers sys0; r_actors := actors sys0;
                 r_outputs := []; r_mailbox := [] |}) as (k & Hmail & Hk).
  set (ex := fold_left (execute now) (o_effects o) _) in *.
  cbn [r_outputs r_mailbox broadcasts flat_map app] in Hbroad, Hmail.
  cbn [fst snd]. rewrite broadcasts_app, broadcasts_map, Hbroad, Hargv, Hl. cbn [app].
  destruct (r_mailbox ex) as [|err mailbox] eqn:Hmailbox.
  - (* the machine goes on *)
    cbn [machine]. split; [ | exact Hsame ].
    unfold subscriber. destruct (lastSnapshot sys) as [l|]; [ | reflexivity ].
    destruct (same_object (o_snapshot o) l); reflexivity.
  - (* an engine failed to start: the snapshot is sent, then the machine stops *)
    assert (Hnew : same_object (o_snapshot o) (machine sys) = false).
    { destruct (same_object (o_snapshot o) (machine sys)) eqn:Hobj; [ | reflexivity ].
      rewrite (Hstart eq_refl) in Hk. destruct k; [ discriminate Hmail | cbn in Hk; lia ]. }
    split; [ | rewrite halt_is_a_new_object by exact Hoid; discriminate ].
    destruct (Hfollows Hactive) as [Hnone | Hsome].
    + rewrite Hnone. reflexivity.
    + rewrite Hsome, halt_is_a_new_object by exact Hoid.
      unfold subscriber. rewrite Hnew. reflexivity.
Qed.

(** The states of the machine's actor in a server: what a run of the
    service reaches from the state that [main] leaves, in which the
    subscriber has seen no snapshot and, with [start], the machine has
    processed [START]. *)
Definition served (args : Server.Arguments) (t0 : Z) (trace : list (Z * Input)) : System :=
  fst (run (Server.pipelineService (Server.main args t0)) trace).

(** Every state of the service in a run of the server is one of them: a
    request or message sends its events one after the other, an engine or
    timer one input. *)
Lemma server_states_are_served : forall args t0 events,
  exists trace,
    Server.pipelineService (fst (Server.run args (Server.main args t0) events))
    = served args t0 trace.
Proof.
  intros args t0 events.
  assert (Hmain : exists trace,
                    Server.pipelineService (Server.main args t0) = served args t0 trace)
    by (exists []; reflexivity).
  revert Hmain. generalize (Server.main args t0) at 1 2.
  induction events as [|[now ev] rest IH]; intros st H; [ exact H | ].
  cbn [Server.run].
  assert (H' : exists trace,
                 Server.pipelineService (fst (Server.step args now st ev))
                 = served args t0 trace).
  { destruct H as (trace & H).
    assert (Hsend : forall events,
              exists trace', fst (Server.send_all now (Server.pipelineService st) events)
                             = served args t0 trace').
    { intros events. exists (trace ++ map (fun e => (now, send e)) events).
      unfold Server.send_all, served. cbn [fst]. rewrite run_app.
      fold (served args t0 trace). rewrite <- H. reflexivity. }
    destruct ev as [header query route | ws | ws parsed | i]; cbn [Server.step].
    - destruct (preHandler (Server.apiKey args) header query);
        try (exists trace; exact H).
      destruct route as [ws | | body]; try (exists trace; exact H).
      destruct (Hsend (handlePatchState body)) as (trace' & H').
      destruct (Server.send_all now (Server.pipelineService st) (handlePatchState body)).
      exists trace'. exact H'.
    - exists trace. exact H.
    - destruct (on_message parsed) as [events logs].
      destruct (Hsend events) as (trace' & H').
      destruct (Server.send_all now (Server.pipelineService st) events).
      exists trace'. exact H'.
    - exists (trace ++ [(now, i)]). unfold served. rewrite run_app, run_cons.
      fold (served args t0 trace). rewrite <- H.
      destruct (Service.step now (Server.pipelineService st) i). reflexivity. }
  destruct (Server.step args now st ev) as [st' outs]. cbn [fst] in H'.
  specialize (IH st' H'). destruct (Server.run args st' rest) as [st'' outs'].
  exact IH.
Qed.

(** C8, amended. The subscriber compares snapshot objects by identity, and
    it starts without a last snapshot.  In every state of the service of a
    server (after [main], with or without [start], and any run): while the
    machine runs the subscriber has seen no snapshot or the current one,
    and as long as it has seen none no status message was sent.  An input
    that the machine processes (it is delivered and the machine runs) sends
    one status message, that of the state the machine is left in, unless
    the subscriber has seen a snapshot and the machine is left with that
    same object, and then it sends none; so the first processed event is
    always followed by a message, also when it changed nothing.  A step
    after which the snapshot is the same object changed nothing, so every
    step that changes what a status shows sends exactly one message; and
    the subscriber has then seen the current snapshot.  An input that the
    machine does not process sends nothing.  (Snapshots that are equal in
    value but distinct objects are both sent.) *)
Theorem C8_one_broadcast_per_new_snapshot_object :
  forall args t0 trace now i,
    (status (machine (served args t0 trace)) = status_active ->
     lastSnapshot (served args t0 trace) = None
     \/ lastSnapshot (served args t0 trace) = Some (machine (served args t0 trace)))
    /\ (lastSnapshot (served args t0 trace) = None ->
        broadcasts (map snd (snd (run (Server.pipelineService (Server.main args t0)) trace)))
        = [])
    /\ (status (machine (served args t0 trace)) = status_active ->
        delivered now (served args t0 trace) i <> None ->
        broadcasts (snd (step now (served args t0 trace) i))
        = (if match lastSnapshot (served args t0 trace) with
              | None => false
              | Some l => same_object (machine (fst (step now (served args t0 trace) i))) l
              end
           then []
           else [formatStatus (Server.app args)
                   (machine (fst (step now (served args t0 trace) i)))])
        /\ (same_object (machine (fst (step now (served args t0 trace) i)))
              (machine (served args t0 trace)) = true ->
            machine (fst (step now (served args t0 trace) i))
            = machine (served args t0 trace))
        /\ (formatStatus (Server.app args) (machine (fst (step now (served args t0 trace) i)))
            <> formatStatus (Server.app args) (machine (served args t0 trace)) ->
            broadcasts (snd (step now (served args t0 trace) i))
            = [formatStatus (Server.app args)
                 (machine (fst (step now (served args t0 trace) i)))])
        /\ (status (machine (fst (step now (served args t0 trace) i))) = status_active ->
            lastSnapshot (fst (step now (served args t0 trace) i))
            = Some (machine (fst (step now (served args t0 trace) i)))))
    /\ (delivered now (served args t0 trace) i = None
        \/ status (machine (served args t0 trace)) = status_error ->
        snd (step now (served args t0 trace) i) = []
        /\ machine (fst (step now (served args t0 trace) i)) = machine (served args t0 trace)
        /\ lastSnapshot (fst (step now (served args t0 trace) i))
           = lastSnapshot (served args t0 trace)).
Proof.
  intros args t0 trace now i.
  assert (Hmain : subscriber_follows (Server.pipelineService (Server.main args t0)))
    by (intros _; left; reflexivity).
  destruct (run_up_to_date trace _ _ Hmain eq_refl) as (_ & Hfollows & Hargv).
  destruct (run_up_to_date (trace ++ [(now, i)]) _ _ Hmain eq_refl) as (_ & Hfollows' & _).
  rewrite run_app, run_cons in Hfollows'. cbn [run fst] in Hfollows'.
  fold (served args t0 trace) in Hfollows, Hfollows', Hargv.
  rewrite main_argv in Hargv.
  assert (Hengines : engines_consistent (served args t0 trace)).
  { unfold served. apply run_invariant; [ apply engines_consistent_step | ].
    exact (server_engines_consistent args t0 []). }
  split; [ exact Hfollows | ].
  split; [ intros H; exact (proj2 (first_broadcast_run trace _ H)) | ].
  split.
  - intros Hactive Hdel.
    destruct (Hengines Hactive) as (Hwf & _).
    destruct (step_notifies now (served args t0 trace) i Hfollows Hwf Hactive Hdel)
      as (Hsent & Hsame).
    rewrite Hargv in Hsent.
    split; [ exact Hsent | split; [ exact Hsame | split ] ].
    + intros Hdiff. rewrite Hsent.
      destruct (Hfollows Hactive) as [-> | Hsome]; [ reflexivity | ].
      rewrite Hsome.
      destruct (same_object (machine (fst (step now (served args t0 trace) i)))
                  (machine (served args t0 trace))) eqn:Hobj; [ | reflexivity ].
      rewrite (Hsame eq_refl) in Hdiff. now elim Hdiff.
    + intros Hafter. destruct (Hfollows' Hafter) as [Hnone | Hsome]; [ | exact Hsome ].
      exfalso.
      destruct (first_broadcast_step _ _ _ Hnone) as (Hbefore & Hnothing).
      rewrite Hsent, Hbefore in Hnothing. discriminate Hnothing.
  - intros Hnot. rewrite step_spec.
    destruct (delivered now (served args t0 trace) i) as [[sys0 ev]|] eqn:Hd; [ | auto ].
    destruct Hnot as [Hnone | Herror]; [ discriminate Hnone | ].
    destruct (delivered_same _ _ _ _ _ Hd) as (_ & Hm & _ & _ & Hl).
    rewrite Hm, Herror. cbn [fst snd]. auto.
Qed.

(** A server of the default settings that starts the stream at boot.  After
    [main] the machine is in [running.waiting] and the subscriber has seen
    no snapshot: the first [START] changes nothing and is followed by a
    status message, the second one is not. *)
Definition started_at_boot : Server.Arguments :=
  {| Server.app := default_settings; Server.apiHostname := "localhost";
     Server.apiPort := 8404; Server.apiKey := [115; 101; 99; 114; 101; 116]%N;
     Server.start := true |}.

Lemma C8_witness :
  status (machine (served started_at_boot 0 [])) = status_active
  /\ delivered 3 (served started_at_boot 0 []) (send api_START) <> None
  /\ lastSnapshot (served started_at_boot 0 []) = None
  /\ machine (fst (step 3 (served started_at_boot 0 []) (send api_START)))
     = machine (served started_at_boot 0 [])
  /\ broadcasts (snd (step 3 (served started_at_boot 0 []) (send api_START)))
     = [formatStatus default_settings (machine (served started_at_boot 0 []))]
  /\ broadcasts (snd (step 4 (served started_at_boot 0 [(3, send api_START)])
                        (send api_START)))
     = [].
Proof.
  split; [ vm_compute; reflexivity | ].
  split; [ discriminate | ].
  split; [ vm_compute; reflexivity | ].
  split; [ vm_compute; reflexivity | ].
  split.
  - destruct (C8_one_broadcast_per_new_snapshot_object started_at_boot 0 [] 3
                (send api_START)) as (_ & _ & H & _).
    destruct H as (Hsent & _); [ vm_compute; reflexivity | discriminate | ].
    rewrite Hsent. vm_compute. reflexivity.
  - destruct (C8_one_broadcast_per_new_snapshot_object started_at_boot 0
                [(3, send api_START)] 4 (send api_START)) as (_ & _ & H & _).
    destruct H as (Hsent & _); [ vm_compute; reflexivity | discriminate | ].
    rewrite Hsent. vm_compute. reflexivity.
Defined.

(** [START] takes the stream region to [running], or leaves it there. *)
Lemma START_runs : forall now fresh s o,
  macrostep now fresh s START = Some o ->
  status s = status_active ->
  exists sub, stream_value (value (o_snapshot o)) = Running sub.
Proof.
  intros now fresh [[c st] [t cfg] ch stat oi] o Hstep Hstat.
  cbn in Hstat. subst stat. revert o Hstep.
  destruct_value c st; destruct ch; by_outcome;
    cbv -[Z.mul Z.add Service.setTimeout]; eexists; reflexivity.
Qed.

(** What [isCensored] and [isStreamRunning] show of a state value. *)
Definition shows_censored (c : CensorshipValue) : bool :=
  match c with Censored _ => true | Normal => false end.

Definition shows_running (v : StreamValue) : bool :=
  match v with Running _ => true | _ => false end.

(** The step of the service on [CENSOR] or [UNCENSOR], in a state in which
    a started stream has its engine. *)
Lemma step_censor : forall now sys (b : bool),
  status (machine sys) = status_active ->
  has_engine (machine sys) ->
  status (machine (fst (Service.step now sys (send (if b then api_CENSOR else api_UNCENSOR)))))
  = status_active
  /\ shows_censored (censorship_value (value (machine
       (fst (Service.step now sys (send (if b then api_CENSOR else api_UNCENSOR)))))))
     = (b || shows_censored (censorship_value (value (machine sys))))%bool.
Proof.
  intros now sys b Hactive Hengine.
  set (e := if b then api_CENSOR else api_UNCENSOR).
  destruct (step_delivered now sys (send e) sys (api_event e) eq_refl Hactive)
    as (o & Hstep & -> & _).
  assert (He : api_event e = CENSOR \/ api_event e = UNCENSOR \/ api_event e = NORMAL
               \/ api_event e = xstate_after_STREAM_DELAY)
    by (subst e; destruct b; cbn; auto).
  destruct (censorship_events_leave_stream _ _ _ _ _ Hstep Hactive Hengine He)
    as (_ & _ & _ & Hso & _ & Heff & _).
  destruct (censorship_region_step _ _ _ _ _ Hstep Hactive Hso) as (_ & Hcens & _).
  destruct (settled_without_engine_effects now sys o Hso Heff) as (-> & _).
  rewrite Hso, Hcens. split; [ reflexivity | ].
  subst e. destruct b, (censorship_value (value (machine sys))) as [|[|]]; reflexivity.
Qed.

(** The step of the service on [START] or [STOP]. *)
Lemma step_start_stop : forall now sys (b : bool),
  status (machine sys) = status_active ->
  shows_running (stream_value (value (machine
    (fst (Service.step now sys (send (if b then api_START else api_STOP)))))))
  = b.
Proof.
  intros now sys b Hactive.
  set (e := if b then api_START else api_STOP).
  destruct (step_delivered now sys (send e) sys (api_event e) eq_refl Hactive)
    as (o & Hstep & _ & -> & _).
  subst e. destruct b; cbn [api_event] in Hstep.
  - destruct (START_runs _ _ _ _ Hstep Hactive) as [sub ->]. reflexivity.
  - rewrite (STOP_stops _ _ _ _ Hstep Hactive). reflexivity.
Qed.

Lemma step_start_stop_censorship : forall now sys (b : bool),
  censorship_value (value (machine
    (fst (Service.step now sys (send (if b then api_START else api_STOP))))))
  = censorship_value (value (machine sys)).
Proof.
  intros now sys b. apply stream_inputs_leave_the_censorship; destruct b; discriminate.
Qed.

(** X24. What the reply to [PATCH /status] reports.  In every state of the
    server in which the machine runs, a [PATCH] request with the key ends
    with the reply, which is the status after the request's events; its
    [isStreamRunning] is the requested one when one is requested; its
    [isCensored] is true when censoring is requested, and when
    uncensoring is requested it is what it was before the request: the
    release only starts, so a censored stream is still reported as
    censored. *)
Theorem X24_PATCH_status_reply : forall args t0 trace now header query body,
  preHandler (Server.apiKey args) header query = passes ->
  status (machine (Server.pipelineService
                     (fst (Server.run args (Server.main args t0) trace))))
  = status_active ->
  exists outs reply,
    snd (Server.step args now (fst (Server.run args (Server.main args t0) trace))
           (Server.request header query (Server.PATCH_status body)))
    = outs ++ [Server.replied reply]
    /\ reply = formatStatus (Server.app args)
                 (machine (Server.pipelineService
                    (fst (Server.step args now
                            (fst (Server.run args (Server.main args t0) trace))
                            (Server.request header query (Server.PATCH_status body))))))
    /\ (forall b, isStreamRunning_field body = Some b -> r_isStreamRunning reply = b)
    /\ (forall b, isCensored_field body = Some b ->
                  r_isCensored reply
                  = (b || r_isCensored
                            (formatStatus (Server.app args)
                               (machine (Server.pipelineService
                                  (fst (Server.run args (Server.main args t0) trace))))))%bool).
Proof.
  intros args t0 trace now header query body Hpass Hactive.
  pose proof (server_engines_consistent args t0 trace Hactive) as (Hwf & _).
  apply has_engine_of_child_iff_running in Hwf.
  destruct (fst (Server.run args (Server.main args t0) trace)) as [sys sockets].
  cbn [Server.pipelineService] in *.
  cbn [Server.step]. rewrite Hpass. cbn [Server.pipelineService Server.sockets].
  destruct (Server.send_all now sys (handlePatchState body)) as [sys' outs] eqn:Hsend.
  cbn [fst snd Server.pipelineService].
  exists (flat_map (Server.relay sockets) outs), (formatStatus (Server.app args) (machine sys')).
  split; [ reflexivity | split; [ reflexivity | ] ].
  assert (Hsys' : sys' = fst (Server.send_all now sys (handlePatchState body)))
    by (rewrite Hsend; reflexivity).
  clear Hsend. unfold Server.send_all in Hsys'. cbn [fst] in Hsys'. subst sys'.
  change (r_isStreamRunning (formatStatus (Server.app args) ?s))
    with (shows_running (stream_value (value s))).
  change (r_isCensored (formatStatus (Server.app args) ?s))
    with (shows_censored (censorship_value (value s))).
  destruct (step_censor now sys true Hactive Hwf) as (Hc1 & Hc2).
  destruct (step_censor now sys false Hactive Hwf) as (Hu1 & Hu2).
  pose proof (fun sys => step_start_stop now sys true) as Hstart.
  pose proof (fun sys => step_start_stop now sys false) as Hstop.
  pose proof (fun sys => step_start_stop_censorship now sys true) as Hstart'.
  pose proof (fun sys => step_start_stop_censorship now sys false) as Hstop'.
  cbv iota in Hc1, Hc2, Hu1, Hu2, Hstart, Hstop, Hstart', Hstop'.
  destruct body as [[[|]|] [[|]|]]; unfold handlePatchState;
    cbn [isCensored_field isStreamRunning_field app map];
    rewrite ?run_cons; cbn [run fst];
    (split; [ intros b Hb; try discriminate Hb; injection Hb as <-
            | intros b Hb; try discriminate Hb; injection Hb as <- ]);
    rewrite ?Hstart', ?Hstop';
    first [ apply Hstart; assumption | apply Hstop; assumption | exact Hc2 | exact Hu2 ].
Qed.

(** Two sockets open, the engine starts, the first socket asks for
    censoring. *)
Definition server_run_censored : list (Z * Server.Event) := firstn 4 server_run.

Lemma X24_witness :
  exists outs reply,
    snd (Server.step default_arguments 9
           (fst (Server.run default_arguments (Server.main default_arguments 0)
                   server_run_censored))
           (Server.request (Some key_secret) None
              (Server.PATCH_status {| isCensored_field := Some false;
                                      isStreamRunning_field := None |})))
    = outs ++ [Server.replied reply]
    /\ r_isCensored reply = true
    /\ censorship_value (r_state reply) = Censored Deactivating.
Proof.
  destruct (X24_PATCH_status_reply default_arguments 0 server_run_censored 9
              (Some key_secret) None
              {| isCensored_field := Some false; isStreamRunning_field := None |})
    as (outs & reply & Houts & Hreply & _ & Hcensored);
    [ vm_compute; reflexivity | vm_compute; reflexivity | ].
  exists outs, reply. split; [ exact Houts | ].
  split; [ rewrite (Hcensored false eq_refl); vm_compute; reflexivity | ].
  rewrite Hreply. vm_compute. reflexivity.
Defined.

(** X25. Without the key, a request changes nothing.  With an API key of
    ASCII characters, a request (to open a socket, to get or to patch the
    status) whose provided key is not the API key is rejected: the state
    of the server is unchanged, no event reaches the machine, no socket is
    added, and the only output is the rejection. *)
Theorem X25_requests_without_the_key_change_nothing :
  forall args now st header query route,
    ascii_only (Server.apiKey args) ->
    js_or header query <> Some (Server.apiKey args) ->
    exists r, r <> passes
              /\ Server.step args now st (Server.request header query route)
                 = (st, [Server.rejected r]).
Proof.
  intros args now st header query route Hascii Hkey. cbn [Server.step].
  destruct (preHandler (Server.apiKey args) header query) eqn:Hr;
    try (eexists; split; [ | reflexivity ]; discriminate).
  apply (preHandler_ascii_key _ _ _ Hascii) in Hr. destruct Hr as [Hr _]. contradiction.
Qed.

Lemma X25_witness :
  exists r, r <> passes
            /\ Server.step default_arguments 9 (Server.main default_arguments 0)
                 (Server.request (Some key_secre_233) (Some key_secret)
                    (Server.PATCH_status {| isCensored_field := Some false;
                                            isStreamRunning_field := Some false |}))
               = (Server.main default_arguments 0, [Server.rejected r]).
Proof.
  apply (X25_requests_without_the_key_change_nothing default_arguments 9
           (Server.main default_arguments 0) (Some key_secre_233) (Some key_secret)).
  - unfold ascii_only. cbn. repeat constructor.
  - discriminate.
Defined.

(** ** [main] *)

(** The first [START]: the engine is created and started, and the machine
    stops when the engine's callback throws. *)
Lemma first_START : forall cfg t0 c,
  runPipeline cfg = c ->
  fst (Service.step t0 (init cfg) (send api_START))
  = (match c with Playing => fun sys => sys | Throws _ => halt end)
      {| argv := cfg;
         machine := {| value := {| censorship_value := Normal;
                                   stream_value := Running Waiting |};
                       context := {| startTime := None; settings := cfg |};
                       children := Some 0%nat; status := status_active; oid := 2 |};
         timers := fun _ => None;
         actors := set_actor 0%nat
                     (match c with Playing => actor_active | Throws _ => actor_error end)
                     (fun _ => not_created);
         spawned := 1%nat;
         lastSnapshot :=
           Some {| value := {| censorship_value := Normal;
                               stream_value := Running Waiting |};
                   context := {| startTime := None; settings := cfg |};
                   children := Some 0%nat; status := status_active; oid := 2 |} |}.
Proof.
  intros cfg t0 c Hc. rewrite step_spec. unfold delivered, init.
  cbn [machine status init_snapshot spawned api_event].
  run_macrostep. unfold settled.
  cbn [o_effects o_snapshot status fold_left execute r_actors r_mailbox r_timers
       r_outputs o_nextRef argv timers actors app fst snd lastSnapshot subscriber].
  rewrite Hc. destruct c; reflexivity.
Qed.

(** X26. What [main] leaves.  The server starts with no socket and a
    subscriber that has seen no snapshot.  Without [start] the machine is
    in its initial state and no engine exists.  With [start] and settings
    that [runPipeline] accepts, the machine runs, the stream region is in
    [running.waiting], and the machine's child, the engine created first,
    is the one active engine. *)
Theorem X26_main : forall args t0,
  Server.sockets (Server.main args t0) = []
  /\ lastSnapshot (Server.pipelineService (Server.main args t0)) = None
  /\ (Server.start args = false ->
      machine (Server.pipelineService (Server.main args t0))
      = init_snapshot (Server.app args)
      /\ forall r, actors (Server.pipelineService (Server.main args t0)) r = not_created)
  /\ (Server.start args = true -> runPipeline (Server.app args) = Playing ->
      status (machine (Server.pipelineService (Server.main args t0))) = status_active
      /\ value (machine (Server.pipelineService (Server.main args t0)))
         = {| censorship_value := Normal; stream_value := Running Waiting |}
      /\ children (machine (Server.pipelineService (Server.main args t0))) = Some 0%nat
      /\ forall r, actors (Server.pipelineService (Server.main args t0)) r = actor_active
                   <-> r = 0%nat).
Proof.
  intros args t0.
  unfold Server.main. cbn [Server.sockets Server.pipelineService lastSnapshot machine actors].
  split; [ reflexivity | split; [ reflexivity | split ] ].
  - intros ->. split; reflexivity.
  - intros -> Hplay. rewrite (first_START _ t0 _ Hplay).
    cbn [machine actors status value children].
    repeat split.
    + unfold set_actor. destruct (ref_eqb 0%nat r) eqn:E; [ | discriminate ].
      intros _. apply ref_eqb_eq in E. congruence.
    + intros ->. reflexivity.
Qed.

Lemma X26_witness :
  status (machine (Server.pipelineService (Server.main default_arguments 0)))
  = status_active
  /\ value (machine (Server.pipelineService (Server.main default_arguments 0)))
     = {| censorship_value := Normal; stream_value := Running Waiting |}
  /\ children (machine (Server.pipelineService (Server.main default_arguments 0)))
     = Some 0%nat
  /\ forall r, actors (Server.pipelineService (Server.main default_arguments 0)) r
               = actor_active
               <-> r = 0%nat.
Proof.
  apply (X26_main default_arguments 0); reflexivity.
Defined.
